(** * gpsd: the subframe decoder (subframe.c), the client library
      (libgps.c) and the track logger (gpxlogger.c), embedded as Rocq
      functions.

    Layout of the development:
    - [Module Subframe]: [gpsd_interpret_subframe_raw] and
      [gpsd_interpret_subframe] of subframe.c, followed by the words in
      which their properties are stated and by sample subframes;
    - [Module Libgps]: [gps_unpack] of libgps.c together with the parts of
      the C library it calls (string search, [atoi], [sscanf]), then
      [gps_open], [gps_poll] and [gps_query], followed likewise by the
      words of their properties and by sample sessions;
    - [Module Gpxlogger]: the printing functions, [conditionally_log_fix],
      [process], [quit_handler] and [socket_mainloop] of gpxlogger.c, and
      the words of their properties;
    - [Module SubframeSpec], [Module LibgpsSpec] and
      [Module GpxloggerSpec]: the properties.

    Integers of C are integers of [Z] with the conversions written out;
    the words of a subframe and the characters of a buffer are lists that
    the functions thread through, since the C code rewrites both in
    place; the file-scope variables of gpxlogger.c are a record that its
    functions pass on.  Constants and functions that live outside the
    three source files ([LEAP_SECONDS], [LEAP_SECOND_VALID],
    [isgps_parity], the flags and sizes of gps.h, [double] and its reader,
    [earth_distance], [gmtime]) are parameters; what [calloc],
    [netlib_connectsock], [read], [write], [select] and [timestamp] return
    is an argument of the function that calls them.  Where C leaves the
    behaviour undefined (a read or a write outside an array, a null
    pointer read through, an overflow of [time_t] or [int]) the functions
    of libgps.c and gpxlogger.c stop with a fault. *)

From Stdlib Require Import ZArith Lia Bool Ascii String List.
Import ListNotations.
Local Open Scope Z_scope.

(** ** C integer conversions shared by both files *)

(** Value of a mathematical integer stored in an [unsigned int]. *)
Definition to_uint (z : Z) : Z := z mod 2 ^ 32.

(** Value of a mathematical integer stored in an [int] (two's complement). *)
Definition to_int (z : Z) : Z :=
  let u := z mod 2 ^ 32 in if u <? 2 ^ 31 then u else u - 2 ^ 32.

(** Value stored in an [unsigned short]. *)
Definition to_ushort (z : Z) : Z := z mod 2 ^ 16.

(** [a[i]] for an array held as a list; the C code never reads outside
    the ten words it is given. *)
Definition word (a : list Z) (i : nat) : Z := nth i a 0.

(** [a[i] = v]. *)
Fixpoint upd (i : nat) (v : Z) (a : list Z) : list Z :=
  match a, i with
  | [], _ => []
  | _ :: t, O => v :: t
  | h :: t, S j => h :: upd j v t
  end.

Module Subframe.

(** The part of [struct gps_context_t] that subframe.c touches, reached
    through [session->context]. *)
Record gps_context_t := mkContext {
  gps_week : Z;        (* unsigned short *)
  leap_seconds : Z;    (* int *)
  valid : Z            (* int, a set of flag bits *)
}.

(** Severities of [gpsd_report]. *)
Inductive loglevel := LOG_ERROR | LOG_WARN | LOG_INF | LOG_PROG | LOG_IO.

(** One constructor per [gpsd_report] call of subframe.c, carrying the
    arguments of its format string in order. *)
Inductive report :=
| RawWords (ws : list Z)
| RawBadPreamble (preamble : Z)
| RawParityFail (i : nat) (parity low : Z)
| Words (svid : Z) (ws : list Z)
| BadPreamble (preamble header : Z)
| HandOver (subframe svid tow17 alert antispoof : Z)
| SF1 (svid wn iodc l2 ura hlth l2p tgd toc af2 af1 af0 : Z)
| SF2 (svid iode crs deltan m0 cuc e cus sqrta toe fit aodo : Z)
| SF3 (svid iode iote cic om0 cis i0 crc om omd : Z)
| SF4 (pageid data_id : Z)
| SystemMessage (str : list Z)
| InvalidLeap (leap : Z)
| LeapSeconds (leap lsf wnlsf dn : Z)
| LeapChangeComing
| SF5Almanac (pageid data_id e svh toa deltai sqrtA Omega0 omega M0 : Z)
| SF5 (pageid data_id : Z).

Definition trace := list (loglevel * report).

(** What a call leaves behind: the context, the caller's array (both
    functions rewrite it in place) and the diagnostics in order. *)
Record outcome := mkOutcome {
  ctx : gps_context_t;
  words_out : list Z;
  log : trace
}.

(** The bytes a [%s] conversion prints: up to the first NUL. *)
Fixpoint c_string (bytes : list Z) : list Z :=
  match bytes with
  | [] => []
  | b :: t => if b =? 0 then [] else b :: c_string t
  end.

Section Decoder.

(** [LEAP_SECONDS] (timebase.h) and [LEAP_SECOND_VALID] (gpsd.h) are
    compile-time constants whose headers are not among the source files. *)
Variable LEAP_SECONDS : Z.
Variable LEAP_SECOND_VALID : Z.

(** [isgps_parity] lives in another translation unit. *)
Variable isgps_parity : Z -> Z.

(** Subframe 1: clock parameters; stores the week number. *)
Definition subframe1 (c : gps_context_t) (svid : Z) (words : list Z)
  : gps_context_t * trace :=
  let l2 := Z.land (Z.shiftr (word words 2) 10) 0x000003 in
  let ura := Z.land (Z.shiftr (word words 2) 8) 0x00000F in
  let hlth := Z.land (Z.shiftr (word words 2) 2) 0x00003F in
  let iodc := Z.land (word words 2) 0x000003 in
  let l2p := Z.land (Z.shiftr (word words 3) 23) 0x000001 in
  let tgd := Z.land (word words 6) 0x0000FF in
  let toc := Z.land (word words 7) 0x00FFFF in
  let af2 := Z.land (Z.shiftr (word words 8) 16) 0x0FF in
  let af1 := Z.land (word words 8) 0x00FFFF in
  let af0 := Z.land (Z.shiftr (word words 9) 1) 0x03FFFFF in
  let iodc := to_uint (Z.shiftl iodc 8) in
  let iodc := to_uint (iodc + Z.land (Z.shiftr (word words 7) 16) 0x00FF) in
  let wn := to_ushort (Z.land (Z.shiftr (word words 2) 14) 0x03ff) in
  ({| gps_week := wn; leap_seconds := leap_seconds c; valid := valid c |},
   [(LOG_PROG, SF1 svid wn iodc l2 ura hlth l2p tgd toc af2 af1 af0)]).

(** [hi <<= 24; hi += lo & 0xFFFFFF] on [unsigned int]. *)
Definition join24 (hi lo : Z) : Z :=
  to_uint (to_uint (Z.shiftl hi 24) + Z.land lo 0x00FFFFFF).

(** Subframe 2: ephemeris, reported only. *)
Definition subframe2 (svid : Z) (words : list Z) : trace :=
  let iode := Z.land (Z.shiftr (word words 2) 16) 0x00FF in
  let crs := Z.land (word words 2) 0x00FFFF in
  let deltan := Z.land (Z.shiftr (word words 3) 8) 0x00FFFF in
  let m0 := join24 (Z.land (word words 3) 0x0000FF) (word words 4) in
  let cuc := Z.land (Z.shiftr (word words 5) 8) 0x00FFFF in
  let e := join24 (Z.land (word words 5) 0x0000FF) (word words 6) in
  let cus := Z.land (Z.shiftr (word words 7) 8) 0x00FFFF in
  let sqrta := join24 (Z.land (word words 7) 0x0000FF) (word words 8) in
  let toe := Z.land (Z.shiftr (word words 9) 8) 0x00FFFF in
  let fit := Z.land (Z.shiftr (word words 9) 7) 0x000001 in
  let aodo := Z.land (Z.shiftr (word words 9) 2) 0x00001F in
  [(LOG_PROG, SF2 svid iode crs deltan m0 cuc e cus sqrta toe fit aodo)].

(** Subframe 3: ephemeris, reported only. *)
Definition subframe3 (svid : Z) (words : list Z) : trace :=
  let cic := Z.land (Z.shiftr (word words 2) 8) 0x00FFFF in
  let om0 := join24 (Z.land (word words 2) 0x0000FF) (word words 3) in
  let cis := Z.land (Z.shiftr (word words 4) 8) 0x00FFFF in
  let i0 := join24 (Z.land (word words 4) 0x0000FF) (word words 5) in
  let crc := Z.land (Z.shiftr (word words 6) 8) 0x00FFFF in
  let om := join24 (Z.land (word words 6) 0x0000FF) (word words 7) in
  let omd := Z.land (word words 8) 0x00FFFFFF in
  let iode := Z.shiftr (Z.land (word words 9) 0xFF0000) 16 in
  let iote := Z.shiftr (Z.land (word words 9) 0x003FFF) 2 in
  [(LOG_PROG, SF3 svid iode iote cic om0 cis i0 crc om omd)].

(** Subframe 4, "page 55": the 22 bytes of the system message. *)
Definition page55 (words : list Z) : trace :=
  let b2 (w : Z) := [Z.land (Z.shiftr w 8) 0xff; Z.land w 0xff] in
  let b3 (w : Z) :=
    [Z.land (Z.shiftr w 16) 0xff; Z.land (Z.shiftr w 8) 0xff; Z.land w 0xff] in
  let str :=
    b2 (word words 2) ++ b3 (word words 3) ++ b3 (word words 4)
    ++ b3 (word words 5) ++ b3 (word words 6) ++ b3 (word words 7)
    ++ b3 (word words 8)
    ++ [Z.land (Z.shiftr (word words 9) 16) 0xff;
        Z.land (Z.shiftr (word words 9) 8) 0xff; 0] in
  [(LOG_INF, SystemMessage (c_string str))].

(** Subframe 4, "page 56": the leap second correction. *)
Definition page56 (c : gps_context_t) (words : list Z)
  : gps_context_t * trace :=
  let leap := Z.shiftr (Z.land (word words 8) 0xff0000) 16 in
  let wnlsf := Z.shiftr (Z.land (word words 8) 0x00ff00) 8 in
  let dn := Z.land (word words 8) 0x0000FF in
  let lsf := Z.shiftr (Z.land (word words 9) 0xff0000) 16 in
  let '(leap, v, t) :=
    if to_uint LEAP_SECONDS >? leap then
      (to_uint LEAP_SECONDS,
       Z.land (valid c) (Z.lnot LEAP_SECOND_VALID),
       [(LOG_ERROR, InvalidLeap leap)])
    else
      (leap,
       Z.lor (valid c) LEAP_SECOND_VALID,
       (LOG_INF, LeapSeconds leap lsf wnlsf dn)
       :: (if negb (leap =? lsf) then [(LOG_PROG, LeapChangeComing)] else []))
  in
  ({| gps_week := gps_week c; leap_seconds := to_int leap; valid := v |}, t).

(** Subframe 4: every page named in the [switch] other than 55 and 56, and
    the [default], does nothing. *)
Definition subframe4 (c : gps_context_t) (pageid data_id : Z)
    (words : list Z) : gps_context_t * trace :=
  let head := [(LOG_PROG, SF4 pageid data_id)] in
  if pageid =? 55 then (c, head ++ page55 words)
  else if pageid =? 56 then
    let '(c', t) := page56 c words in (c', head ++ t)
  else (c, head).

(** Subframe 5: almanac, reported only. *)
Definition subframe5 (pageid data_id : Z) (words : list Z) : trace :=
  if pageid <? 25 then
    let e := Z.land (word words 2) 0x00FFFF in
    let toa := Z.shiftr (Z.land (word words 3) 0xFF0000) 16 in
    let deltai := Z.land (word words 3) 0x00FFFF in
    let svh := Z.land (word words 4) 0x0000FF in
    let sqrtA := Z.land (word words 5) 0xFFFFFF in
    let Omega0 := Z.land (word words 6) 0xFFFFFF in
    let omega := Z.land (word words 7) 0xFFFFFF in
    let M0 := Z.land (word words 8) 0xFFFFFF in
    [(LOG_PROG,
      SF5Almanac pageid data_id e svh toa deltai sqrtA Omega0 omega M0)]
  else [(LOG_PROG, SF5 pageid data_id)].

(** Diagnostics come out in program order: [say t r] is [r] preceded by
    the reports [t]. *)
Definition say (t : trace) (r : outcome) : outcome :=
  mkOutcome (ctx r) (words_out r) (t ++ log r).

(** [gpsd_interpret_subframe], from the [switch (subframe)] on. *)
Definition interpret_switch (c : gps_context_t) (svid subframe : Z)
    (words : list Z) : outcome :=
  let pageid := Z.shiftr (Z.land (word words 2) 0x3F0000) 16 in
  let data_id := Z.land (Z.shiftr (word words 2) 22) 0x3 in
  if subframe =? 1 then
    let '(c', t) := subframe1 c svid words in mkOutcome c' words t
  else if subframe =? 2 then mkOutcome c words (subframe2 svid words)
  else if subframe =? 3 then mkOutcome c words (subframe3 svid words)
  else if subframe =? 4 then
    let '(c', t) := subframe4 c pageid data_id words in mkOutcome c' words t
  else if subframe =? 5 then
    mkOutcome c words (subframe5 pageid data_id words)
  else mkOutcome c words [].

(** [gpsd_interpret_subframe]: words without parity, word 0 possibly
    inverted. *)
Definition gpsd_interpret_subframe (c : gps_context_t) (svid : Z)
    (words : list Z) : outcome :=
  say [(LOG_IO, Words svid words)]
    (let preamble := Z.land (Z.shiftr (word words 0) 16) 0x0ff in
     let '(preamble, words) :=
       if preamble =? 0x8b
       then (Z.lxor preamble 0xff,
             upd 0 (Z.lxor (word words 0) 0xffffff) words)
       else (preamble, words) in
     if negb (preamble =? 0x74) then
       mkOutcome c words [(LOG_WARN, BadPreamble preamble (word words 0))]
     else
       let tow17 := Z.land (Z.shiftr (word words 1) 7) 0x01FFFF in
       let subframe := Z.land (Z.shiftr (word words 1) 2) 0x07 in
       let alert := Z.land (Z.shiftr (word words 1) 6) 0x01 in
       let antispoof := Z.land (Z.shiftr (word words 1) 6) 0x01 in
       say [(LOG_PROG, HandOver subframe svid tow17 alert antispoof)]
         (interpret_switch c svid subframe words)).

(** The body of [for (i = 1; i < 10; i++)], [n] iterations from [i] on.
    [inr] is the early [return 0] of a parity failure: the array as it
    stands and the arguments of the report. *)
Fixpoint check_words (n i : nat) (words : list Z)
  : list Z + (list Z * (nat * Z * Z)) :=
  match n with
  | O => inl words
  | S n' =>
    let invert := if negb (Z.land (word words i) 0x40000000 =? 0) then 1 else 0 in
    let words :=
      if negb (invert =? 0)
      then upd i (Z.lxor (word words i) 0x3fffffc0) words else words in
    let parity := isgps_parity (word words i) in
    if negb (parity =? Z.land (word words i) 0x3f) then
      inr (words, (i, parity, Z.land (word words i) 0x1))
    else
      check_words n' (S i)
        (upd i (Z.land (Z.shiftr (word words i) 6) 0xffffff) words)
  end.

(** [gpsd_interpret_subframe_raw] once word 0 has its polarity: strip the
    parity of word 0, check words 1 to 9, hand over. *)
Definition raw_checked (c : gps_context_t) (svid : Z) (words : list Z)
  : Z * outcome :=
  let words := upd 0 (Z.land (Z.shiftr (word words 0) 6) 0xffffff) words in
  match check_words (10 - 1) 1 words with
  | inr (words, (i, parity, low)) =>
    (0, mkOutcome c words [(LOG_IO, RawParityFail i parity low)])
  | inl words => (0, gpsd_interpret_subframe c svid words)
  end.

(** [gpsd_interpret_subframe_raw]: ten raw 30-bit words.  The first
    component is the value the C function returns. *)
Definition gpsd_interpret_subframe_raw (c : gps_context_t) (svid : Z)
    (words : list Z) : Z * outcome :=
  let preamble := Z.land (Z.shiftr (word words 0) 22) 0xff in
  let '(ret, r) :=
    if preamble =? 0x8b then
      raw_checked c svid (upd 0 (Z.lxor (word words 0) 0x3fffffc0) words)
    else if negb (preamble =? 0x74) then
      (0, mkOutcome c words [(LOG_IO, RawBadPreamble preamble)])
    else raw_checked c svid words in
  (ret, say [(LOG_IO, RawWords words)] r).

End Decoder.

(** The bits that enter the parity bits D25 ... D30 of IS-GPS-200 (table
    20-XIV), with D29* and D30* in bits 31 and 30 of the word. *)
Definition parity_masks : list Z :=
  [0xbb1f3480; 0x5d8f9a40; 0xaec7cd00; 0x5763e680; 0x6bb1f340; 0x8b7a89c0].

(** Exclusive or of the low [n] bits of [z]. *)
Fixpoint xor_bits (n : nat) (z : Z) : bool :=
  match n with
  | O => false
  | S n' => xorb (Z.testbit z (Z.of_nat n')) (xor_bits n' z)
  end.

(** Modelled from the spec: [isgps_parity] is not among the source files;
    the spec names it "the standard GPS parity algorithm ... over a 30-bit
    word".  This is that algorithm: each parity bit is the exclusive or of
    the bits that one mask selects.  The decoder above does not depend on
    it; it serves to build words with good parity. *)
Definition isgps_parity_std (th : Z) : Z :=
  fold_left
    (fun p m => Z.lor (Z.shiftl p 1) (Z.b2z (xor_bits 32 (Z.land th m))))
    parity_masks 0.

(** ** The words of the properties *)

(** Word 0 of a parity-stripped subframe starts with the preamble, in
    either polarity. *)
Definition valid_preamble24 (w : Z) : Prop :=
  Z.land (Z.shiftr w 16) 0xff = 0x74 \/ Z.land (Z.shiftr w 16) 0xff = 0x8b.

(** The same for a raw 30-bit word 0. *)
Definition valid_preamble30 (w : Z) : Prop :=
  Z.land (Z.shiftr w 22) 0xff = 0x74 \/ Z.land (Z.shiftr w 22) 0xff = 0x8b.

(** The subframe id of the hand-over word, and the page id of word 2. *)
Definition subframe_id (words : list Z) : Z :=
  Z.land (Z.shiftr (word words 1) 2) 0x07.

Definition page_id (words : list Z) : Z :=
  Z.shiftr (Z.land (word words 2) 0x3F0000) 16.

(** The current leap second count of subframe 4 page 56. *)
Definition leap_field (words : list Z) : Z :=
  Z.shiftr (Z.land (word words 8) 0xff0000) 16.

(** The ten bits of the week number in word 2. *)
Definition week_field (words : list Z) : Z :=
  Z.land (Z.shiftr (word words 2) 14) 0x03ff.

(** A raw word once the inversion that D30* announces is undone. *)
Definition uninvert (w : Z) : Z :=
  if Z.land w 0x40000000 =? 0 then w else Z.lxor w 0x3fffffc0.

(** The 24 data bits of a raw word, inversion undone. *)
Definition data_bits (w : Z) : Z :=
  Z.land (Z.shiftr (uninvert w) 6) 0xffffff.

(** Word 0 as [gpsd_interpret_subframe] leaves it. *)
Definition polarised24 (words : list Z) : list Z :=
  if Z.land (Z.shiftr (word words 0) 16) 0xff =? 0x8b
  then upd 0 (Z.lxor (word words 0) 0xffffff) words else words.

(** The recomputed parity of a word agrees with the six bits it came
    with. *)
Definition parity_ok (isgps_parity : Z -> Z) (w : Z) : Prop :=
  isgps_parity (uninvert w) = Z.land (uninvert w) 0x3f.

(** ** Sample subframes *)

(** A context that knows 20 leap seconds, with the validity flag up. *)
Definition ctx20 : gps_context_t := mkContext 0 20 1.

(** Stripped words of a subframe 4 page 56 whose leap second field is
    [leap] (and whose future leap second field is the same). *)
Definition page56_words (leap : Z) : list Z :=
  [0x740000; 0x10; 0x380000; 0; 0; 0; 0; 0;
   Z.shiftl leap 16; Z.shiftl leap 16].

(** Stripped words of a subframe 1 of week 0x100. *)
Definition week256_words : list Z :=
  [0x740000; 0x4; 0x400000; 0; 0; 0; 0; 0; 0; 0].

(** Raw words, parity included, of a subframe 4 page 56 announcing 17 leap
    seconds. *)
Definition raw_page56_words : list Z :=
  [486539300; 1068; 234881032; 0; 0; 0; 0; 0; 71303185; 71303185].

(** Stripped words of a subframe 4 page 55 whose message is [HI]. *)
Definition page55_words : list Z :=
  [0x740000; 0x10; 0x374849; 0; 0; 0; 0; 0; 0; 0].

(** Raw words, parity included, of the subframe 1 of week 0x100. *)
Definition raw_week256_words : list Z :=
  Eval vm_compute in
    map (fun d => Z.lor (Z.shiftl d 6) (isgps_parity_std (Z.shiftl d 6)))
      week256_words.

End Subframe.

(** * libgps.c *)

Module Libgps.

(** ** Characters, buffers, faults *)

Definition NUL : ascii := "000"%char.
Definition CR : ascii := "013"%char.

(** A [char] array in memory; a [char *] into it is an index. *)
Definition buffer := list ascii.

(** The text of a string literal. *)
Definition chars (s : String.string) : list ascii :=
  String.list_ascii_of_string s.

Arguments chars s%_string.

(** Where C leaves the behaviour undefined the model stops with a fault.
    [OutOfFuel] is not a behaviour of the C code: the loops of the model
    carry a bound on their number of turns, and [gps_unpack_terminates]
    shows that the bound is never reached. *)
Inductive fault :=
| ReadOutside (p : nat)
    (* a read of the buffer at [p], outside the array *)
| NullPointer
    (* [strchr] found nothing and its result is used all the same *)
| ArrayOverrun (j : Z)
    (* a write to [PRN[j]] ... [used[j]], [j] outside the arrays *)
| StringOverrun (len size : nat)
    (* a string of [len] characters copied into a [char[size]] *)
| OutOfFuel.

Inductive result (A : Type) :=
| Done (a : A)
| Crash (f : fault).

Arguments Done {A} a.
Arguments Crash {A} f.

Definition bind {A B : Type} (r : result A) (k : A -> result B) : result B :=
  match r with
  | Done a => k a
  | Crash f => Crash f
  end.

Notation "x <- r ;; k" := (bind r (fun x => k))
  (at level 61, r at next level, right associativity).

(** ** The C library, as far as [gps_unpack] uses it *)

(** The characters before the first NUL; [None] when the list ends first. *)
Fixpoint until_nul (l : list ascii) : option (list ascii) :=
  match l with
  | [] => None
  | c :: t =>
    if (c =? NUL)%char then Some []
    else match until_nul t with
         | Some s => Some (c :: s)
         | None => None
         end
  end.

(** The string a pointer [p] into [mem] points to.  Reading it runs off the
    array when there is no NUL from [p] on. *)
Definition c_str (mem : buffer) (p : nat) : result (list ascii) :=
  match until_nul (skipn p mem) with
  | Some s => Done s
  | None => Crash (ReadOutside (Nat.max p (length mem)))
  end.

(** [mem[p]]. *)
Definition peek (mem : buffer) (p : nat) : result ascii :=
  match nth_error mem p with
  | Some c => Done c
  | None => Crash (ReadOutside p)
  end.

(** [mem[p] = c], [p] inside the array. *)
Fixpoint poke (p : nat) (c : ascii) (mem : buffer) : buffer :=
  match mem, p with
  | [], _ => []
  | _ :: t, O => c :: t
  | h :: t, S q => h :: poke q c t
  end.

(** Offset of the first [c] in [s]. *)
Fixpoint index_of (c : ascii) (s : list ascii) : option nat :=
  match s with
  | [] => None
  | a :: t =>
    if (a =? c)%char then Some O
    else match index_of c t with
         | Some i => Some (S i)
         | None => None
         end
  end.

(** [strchr(mem + p, c)] for [c] other than NUL; [None] is the null
    pointer. *)
Definition strchr (mem : buffer) (p : nat) (c : ascii) : result (option nat) :=
  s <- c_str mem p ;;
  Done (match index_of c s with
        | Some i => Some (p + i)%nat
        | None => None
        end).

Fixpoint starts_with (needle s : list ascii) : bool :=
  match needle, s with
  | [], _ => true
  | _ :: _, [] => false
  | n :: needle', a :: s' => (a =? n)%char && starts_with needle' s'
  end.

(** Offset of the first occurrence of [needle] in [s]. *)
Fixpoint find_sub (needle s : list ascii) : option nat :=
  if starts_with needle s then Some O
  else match s with
       | [] => None
       | _ :: t =>
         match find_sub needle t with
         | Some i => Some (S i)
         | None => None
         end
       end.

(** [strstr(mem + p, needle)]. *)
Definition strstr (mem : buffer) (p : nat) (needle : list ascii)
  : result (option nat) :=
  s <- c_str mem p ;;
  Done (match find_sub needle s with
        | Some i => Some (p + i)%nat
        | None => None
        end).

(** [strncmp(mem + p, lit, n) == 0] for a literal [lit] of exactly [n]
    characters: the comparison reads on only while the characters agree. *)
Fixpoint strncmp_eq (mem : buffer) (p : nat) (lit : list ascii)
  : result bool :=
  match lit with
  | [] => Done true
  | l :: lit' =>
    c <- peek mem p ;;
    if (c =? l)%char then strncmp_eq mem (S p) lit' else Done false
  end.

(** [isspace] in the C locale. *)
Definition isspace (c : ascii) : bool :=
  let n := nat_of_ascii c in
  (n =? 32)%nat || ((9 <=? n)%nat && (n <=? 13)%nat).

Fixpoint skip_space (s : list ascii) : list ascii :=
  match s with
  | c :: t => if isspace c then skip_space t else s
  | [] => []
  end.

Definition digit_of (c : ascii) : option Z :=
  let n := nat_of_ascii c in
  if ((48 <=? n)%nat && (n <=? 57)%nat)%bool
  then Some (Z.of_nat (n - 48)) else None.

(** The decimal digits at the head of [s], accumulated onto [acc], and
    what follows them. *)
Fixpoint digits (acc : Z) (s : list ascii) : Z * list ascii :=
  match s with
  | c :: t =>
    match digit_of c with
    | Some d => digits (10 * acc + d) t
    | None => (acc, s)
    end
  | [] => (acc, [])
  end.

Definition starts_with_digit (s : list ascii) : bool :=
  match s with
  | c :: _ => match digit_of c with Some _ => true | None => false end
  | [] => false
  end.

(** An optionally signed decimal integer at the head of [s], as [%d] and
    [atoi] read it once leading space is gone.  For digits whose value
    does not fit an [int] C leaves the result undefined; here, and here
    only, the model does not stop with a fault but keeps the value modulo
    2^32.  The properties below speak of [atoi] of a text, not of the value
    it has for such digits, and none depends on that value. *)
Definition scan_int (s : list ascii) : option (Z * list ascii) :=
  let '(neg, body) :=
    match s with
    | "-"%char :: t => (true, t)
    | "+"%char :: t => (false, t)
    | _ => (false, s)
    end in
  if starts_with_digit body then
    let '(v, rest) := digits 0 body in
    Some (to_int (if neg then - v else v), rest)
  else None.

(** [atoi]: 0 when no number can be read. *)
Definition atoi (s : list ascii) : Z :=
  match scan_int (skip_space s) with
  | Some (v, _) => v
  | None => 0
  end.

(** The characters of a [%s] item and what follows them. *)
Fixpoint scan_word (s : list ascii) : list ascii * list ascii :=
  match s with
  | c :: t =>
    if isspace c then ([], s)
    else let '(w, rest) := scan_word t in (c :: w, rest)
  | [] => ([], [])
  end.

(** ** The session record *)

(** The constants of gps.h that libgps.c names (the header is not among the
    source files), and the declared sizes of the two [char] arrays of the
    session that it copies strings into. *)
Record gps_h := mkGpsH {
  ALTITUDE_SET : Z;
  POSERR_SET : Z;
  MODE_SET : Z;
  LATLON_SET : Z;
  DOP_SET : Z;
  STATUS_SET : Z;
  TRACK_SET : Z;
  CLIMB_SET : Z;
  SPEED_SET : Z;
  ONLINE_SET : Z;
  SATELLITE_SET : Z;
  MAXCHANNELS : Z;
  sizeof_utc : nat;
  sizeof_tag : nat
}.

Section Unpack.

(** C's [double], and the number that [%lf] reads at the head of a string
    once leading space is gone, with what follows it. *)
Variable double : Type.
Variable strtod : list ascii -> option (double * list ascii).

Variable H : gps_h.

(** [struct gps_fix_t] and [struct gps_data_t] (gps.h), with the members
    that [gps_unpack] reads or writes.  An element of an [int] array is
    [None] while its value is indeterminate. *)
Record gps_fix_t := mkFix {
  altitude : double;
  mode : Z;
  track : double;
  latitude : double;
  longitude : double;
  eph : double;
  epv : double;
  climb : double;
  speed : double;
  time : double
}.

Record gps_data_t := mkData {
  fix_ : gps_fix_t;   (* the member [fix] *)
  baudrate : Z;
  stopbits : Z;
  cycle : Z;
  utc : list ascii;
  epe : double;
  gps_id : option (list ascii);
  driver_mode : Z;
  satellites_used : Z;
  pdop : double;
  hdop : double;
  vdop : double;
  status : Z;
  satellites : Z;
  PRN : list (option Z);
  elevation : list (option Z);
  azimuth : list (option Z);
  ss : list (option Z);
  used : list (option Z);
  profiling : Z;
  tag : list ascii;
  sentence_length : Z;
  d_xmit_time : double;
  d_recv_time : double;
  d_decode_time : double;
  poll_time : double;
  emit_time : double;
  raw_hook : option nat
}.

(** Assignment to one member of [gpsdata->fix]. *)

Definition set_fix_altitude (v : double) (s : gps_fix_t) : gps_fix_t :=
  mkFix v (mode s) (track s) (latitude s) (longitude s) (eph s) (epv s)
    (climb s) (speed s) (time s).

Definition set_fix_mode (v : Z) (s : gps_fix_t) : gps_fix_t :=
  mkFix (altitude s) v (track s) (latitude s) (longitude s) (eph s) (epv s)
    (climb s) (speed s) (time s).

Definition set_fix_track (v : double) (s : gps_fix_t) : gps_fix_t :=
  mkFix (altitude s) (mode s) v (latitude s) (longitude s) (eph s) (epv s)
    (climb s) (speed s) (time s).

Definition set_fix_latitude (v : double) (s : gps_fix_t) : gps_fix_t :=
  mkFix (altitude s) (mode s) (track s) v (longitude s) (eph s) (epv s)
    (climb s) (speed s) (time s).

Definition set_fix_longitude (v : double) (s : gps_fix_t) : gps_fix_t :=
  mkFix (altitude s) (mode s) (track s) (latitude s) v (eph s) (epv s)
    (climb s) (speed s) (time s).

Definition set_fix_eph (v : double) (s : gps_fix_t) : gps_fix_t :=
  mkFix (altitude s) (mode s) (track s) (latitude s) (longitude s) v (epv s)
    (climb s) (speed s) (time s).

Definition set_fix_epv (v : double) (s : gps_fix_t) : gps_fix_t :=
  mkFix (altitude s) (mode s) (track s) (latitude s) (longitude s) (eph s) v
    (climb s) (speed s) (time s).

Definition set_fix_climb (v : double) (s : gps_fix_t) : gps_fix_t :=
  mkFix (altitude s) (mode s) (track s) (latitude s) (longitude s) (eph s)
    (epv s) v (speed s) (time s).

Definition set_fix_speed (v : double) (s : gps_fix_t) : gps_fix_t :=
  mkFix (altitude s) (mode s) (track s) (latitude s) (longitude s) (eph s)
    (epv s) (climb s) v (time s).

Definition set_fix_time (v : double) (s : gps_fix_t) : gps_fix_t :=
  mkFix (altitude s) (mode s) (track s) (latitude s) (longitude s) (eph s)
    (epv s) (climb s) (speed s) v.

(** Assignment to one member of [*gpsdata]. *)

Definition set_fix_ (v : gps_fix_t) (s : gps_data_t) : gps_data_t :=
  mkData v (baudrate s) (stopbits s) (cycle s) (utc s) (epe s) (gps_id s)
    (driver_mode s) (satellites_used s) (pdop s) (hdop s) (vdop s) (status
    s) (satellites s) (PRN s) (elevation s) (azimuth s) (ss s) (used s)
    (profiling s) (tag s) (sentence_length s) (d_xmit_time s) (d_recv_time
    s) (d_decode_time s) (poll_time s) (emit_time s) (raw_hook s).

Definition set_baudrate (v : Z) (s : gps_data_t) : gps_data_t :=
  mkData (fix_ s) v (stopbits s) (cycle s) (utc s) (epe s) (gps_id s)
    (driver_mode s) (satellites_used s) (pdop s) (hdop s) (vdop s) (status
    s) (satellites s) (PRN s) (elevation s) (azimuth s) (ss s) (used s)
    (profiling s) (tag s) (sentence_length s) (d_xmit_time s) (d_recv_time
    s) (d_decode_time s) (poll_time s) (emit_time s) (raw_hook s).

Definition set_stopbits (v : Z) (s : gps_data_t) : gps_data_t :=
  mkData (fix_ s) (baudrate s) v (cycle s) (utc s) (epe s) (gps_id s)
    (driver_mode s) (satellites_used s) (pdop s) (hdop s) (vdop s) (status
    s) (satellites s) (PRN s) (elevation s) (azimuth s) (ss s) (used s)
    (profiling s) (tag s) (sentence_length s) (d_xmit_time s) (d_recv_time
    s) (d_decode_time s) (poll_time s) (emit_time s) (raw_hook s).

Definition set_cycle (v : Z) (s : gps_data_t) : gps_data_t :=
  mkData (fix_ s) (baudrate s) (stopbits s) v (utc s) (epe s) (gps_id s)
    (driver_mode s) (satellites_used s) (pdop s) (hdop s) (vdop s) (status
    s) (satellites s) (PRN s) (elevation s) (azimuth s) (ss s) (used s)
    (profiling s) (tag s) (sentence_length s) (d_xmit_time s) (d_recv_time
    s) (d_decode_time s) (poll_time s) (emit_time s) (raw_hook s).

Definition set_utc (v : list ascii) (s : gps_data_t) : gps_data_t :=
  mkData (fix_ s) (baudrate s) (stopbits s) (cycle s) v (epe s) (gps_id s)
    (driver_mode s) (satellites_used s) (pdop s) (hdop s) (vdop s) (status
    s) (satellites s) (PRN s) (elevation s) (azimuth s) (ss s) (used s)
    (profiling s) (tag s) (sentence_length s) (d_xmit_time s) (d_recv_time
    s) (d_decode_time s) (poll_time s) (emit_time s) (raw_hook s).

Definition set_epe (v : double) (s : gps_data_t) : gps_data_t :=
  mkData (fix_ s) (baudrate s) (stopbits s) (cycle s) (utc s) v (gps_id s)
    (driver_mode s) (satellites_used s) (pdop s) (hdop s) (vdop s) (status
    s) (satellites s) (PRN s) (elevation s) (azimuth s) (ss s) (used s)
    (profiling s) (tag s) (sentence_length s) (d_xmit_time s) (d_recv_time
    s) (d_decode_time s) (poll_time s) (emit_time s) (raw_hook s).

Definition set_gps_id (v : option (list ascii)) (s : gps_data_t) : gps_data_t :=
  mkData (fix_ s) (baudrate s) (stopbits s) (cycle s) (utc s) (epe s) v
    (driver_mode s) (satellites_used s) (pdop s) (hdop s) (vdop s) (status
    s) (satellites s) (PRN s) (elevation s) (azimuth s) (ss s) (used s)
    (profiling s) (tag s) (sentence_length s) (d_xmit_time s) (d_recv_time
    s) (d_decode_time s) (poll_time s) (emit_time s) (raw_hook s).

Definition set_driver_mode (v : Z) (s : gps_data_t) : gps_data_t :=
  mkData (fix_ s) (baudrate s) (stopbits s) (cycle s) (utc s) (epe s) (gps_id
    s) v (satellites_used s) (pdop s) (hdop s) (vdop s) (status s)
    (satellites s) (PRN s) (elevation s) (azimuth s) (ss s) (used s)
    (profiling s) (tag s) (sentence_length s) (d_xmit_time s) (d_recv_time
    s) (d_decode_time s) (poll_time s) (emit_time s) (raw_hook s).

Definition set_satellites_used (v : Z) (s : gps_data_t) : gps_data_t :=
  mkData (fix_ s) (baudrate s) (stopbits s) (cycle s) (utc s) (epe s) (gps_id
    s) (driver_mode s) v (pdop s) (hdop s) (vdop s) (status s) (satellites
    s) (PRN s) (elevation s) (azimuth s) (ss s) (used s) (profiling s) (tag
    s) (sentence_length s) (d_xmit_time s) (d_recv_time s) (d_decode_time s)
    (poll_time s) (emit_time s) (raw_hook s).

Definition set_pdop (v : double) (s : gps_data_t) : gps_data_t :=
  mkData (fix_ s) (baudrate s) (stopbits s) (cycle s) (utc s) (epe s) (gps_id
    s) (driver_mode s) (satellites_used s) v (hdop s) (vdop s) (status s)
    (satellites s) (PRN s) (elevation s) (azimuth s) (ss s) (used s)
    (profiling s) (tag s) (sentence_length s) (d_xmit_time s) (d_recv_time
    s) (d_decode_time s) (poll_time s) (emit_time s) (raw_hook s).

Definition set_hdop (v : double) (s : gps_data_t) : gps_data_t :=
  mkData (fix_ s) (baudrate s) (stopbits s) (cycle s) (utc s) (epe s) (gps_id
    s) (driver_mode s) (satellites_used s) (pdop s) v (vdop s) (status s)
    (satellites s) (PRN s) (elevation s) (azimuth s) (ss s) (used s)
    (profiling s) (tag s) (sentence_length s) (d_xmit_time s) (d_recv_time
    s) (d_decode_time s) (poll_time s) (emit_time s) (raw_hook s).

Definition set_vdop (v : double) (s : gps_data_t) : gps_data_t :=
  mkData (fix_ s) (baudrate s) (stopbits s) (cycle s) (utc s) (epe s) (gps_id
    s) (driver_mode s) (satellites_used s) (pdop s) (hdop s) v (status s)
    (satellites s) (PRN s) (elevation s) (azimuth s) (ss s) (used s)
    (profiling s) (tag s) (sentence_length s) (d_xmit_time s) (d_recv_time
    s) (d_decode_time s) (poll_time s) (emit_time s) (raw_hook s).

Definition set_status (v : Z) (s : gps_data_t) : gps_data_t :=
  mkData (fix_ s) (baudrate s) (stopbits s) (cycle s) (utc s) (epe s) (gps_id
    s) (driver_mode s) (satellites_used s) (pdop s) (hdop s) (vdop s) v
    (satellites s) (PRN s) (elevation s) (azimuth s) (ss s) (used s)
    (profiling s) (tag s) (sentence_length s) (d_xmit_time s) (d_recv_time
    s) (d_decode_time s) (poll_time s) (emit_time s) (raw_hook s).

Definition set_satellites (v : Z) (s : gps_data_t) : gps_data_t :=
  mkData (fix_ s) (baudrate s) (stopbits s) (cycle s) (utc s) (epe s) (gps_id
    s) (driver_mode s) (satellites_used s) (pdop s) (hdop s) (vdop s)
    (status s) v (PRN s) (elevation s) (azimuth s) (ss s) (used s)
    (profiling s) (tag s) (sentence_length s) (d_xmit_time s) (d_recv_time
    s) (d_decode_time s) (poll_time s) (emit_time s) (raw_hook s).

Definition set_PRN (v : list (option Z)) (s : gps_data_t) : gps_data_t :=
  mkData (fix_ s) (baudrate s) (stopbits s) (cycle s) (utc s) (epe s) (gps_id
    s) (driver_mode s) (satellites_used s) (pdop s) (hdop s) (vdop s)
    (status s) (satellites s) v (elevation s) (azimuth s) (ss s) (used s)
    (profiling s) (tag s) (sentence_length s) (d_xmit_time s) (d_recv_time
    s) (d_decode_time s) (poll_time s) (emit_time s) (raw_hook s).

Definition set_elevation (v : list (option Z)) (s : gps_data_t) : gps_data_t :=
  mkData (fix_ s) (baudrate s) (stopbits s) (cycle s) (utc s) (epe s) (gps_id
    s) (driver_mode s) (satellites_used s) (pdop s) (hdop s) (vdop s)
    (status s) (satellites s) (PRN s) v (azimuth s) (ss s) (used s)
    (profiling s) (tag s) (sentence_length s) (d_xmit_time s) (d_recv_time
    s) (d_decode_time s) (poll_time s) (emit_time s) (raw_hook s).

Definition set_azimuth (v : list (option Z)) (s : gps_data_t) : gps_data_t :=
  mkData (fix_ s) (baudrate s) (stopbits s) (cycle s) (utc s) (epe s) (gps_id
    s) (driver_mode s) (satellites_used s) (pdop s) (hdop s) (vdop s)
    (status s) (satellites s) (PRN s) (elevation s) v (ss s) (used s)
    (profiling s) (tag s) (sentence_length s) (d_xmit_time s) (d_recv_time
    s) (d_decode_time s) (poll_time s) (emit_time s) (raw_hook s).

Definition set_ss (v : list (option Z)) (s : gps_data_t) : gps_data_t :=
  mkData (fix_ s) (baudrate s) (stopbits s) (cycle s) (utc s) (epe s) (gps_id
    s) (driver_mode s) (satellites_used s) (pdop s) (hdop s) (vdop s)
    (status s) (satellites s) (PRN s) (elevation s) (azimuth s) v (used s)
    (profiling s) (tag s) (sentence_length s) (d_xmit_time s) (d_recv_time
    s) (d_decode_time s) (poll_time s) (emit_time s) (raw_hook s).

Definition set_used (v : list (option Z)) (s : gps_data_t) : gps_data_t :=
  mkData (fix_ s) (baudrate s) (stopbits s) (cycle s) (utc s) (epe s) (gps_id
    s) (driver_mode s) (satellites_used s) (pdop s) (hdop s) (vdop s)
    (status s) (satellites s) (PRN s) (elevation s) (azimuth s) (ss s) v
    (profiling s) (tag s) (sentence_length s) (d_xmit_time s) (d_recv_time
    s) (d_decode_time s) (poll_time s) (emit_time s) (raw_hook s).

Definition set_profiling (v : Z) (s : gps_data_t) : gps_data_t :=
  mkData (fix_ s) (baudrate s) (stopbits s) (cycle s) (utc s) (epe s) (gps_id
    s) (driver_mode s) (satellites_used s) (pdop s) (hdop s) (vdop s)
    (status s) (satellites s) (PRN s) (elevation s) (azimuth s) (ss s) (used
    s) v (tag s) (sentence_length s) (d_xmit_time s) (d_recv_time s)
    (d_decode_time s) (poll_time s) (emit_time s) (raw_hook s).

Definition set_tag (v : list ascii) (s : gps_data_t) : gps_data_t :=
  mkData (fix_ s) (baudrate s) (stopbits s) (cycle s) (utc s) (epe s) (gps_id
    s) (driver_mode s) (satellites_used s) (pdop s) (hdop s) (vdop s)
    (status s) (satellites s) (PRN s) (elevation s) (azimuth s) (ss s) (used
    s) (profiling s) v (sentence_length s) (d_xmit_time s) (d_recv_time s)
    (d_decode_time s) (poll_time s) (emit_time s) (raw_hook s).

Definition set_sentence_length (v : Z) (s : gps_data_t) : gps_data_t :=
  mkData (fix_ s) (baudrate s) (stopbits s) (cycle s) (utc s) (epe s) (gps_id
    s) (driver_mode s) (satellites_used s) (pdop s) (hdop s) (vdop s)
    (status s) (satellites s) (PRN s) (elevation s) (azimuth s) (ss s) (used
    s) (profiling s) (tag s) v (d_xmit_time s) (d_recv_time s)
    (d_decode_time s) (poll_time s) (emit_time s) (raw_hook s).

Definition set_d_xmit_time (v : double) (s : gps_data_t) : gps_data_t :=
  mkData (fix_ s) (baudrate s) (stopbits s) (cycle s) (utc s) (epe s) (gps_id
    s) (driver_mode s) (satellites_used s) (pdop s) (hdop s) (vdop s)
    (status s) (satellites s) (PRN s) (elevation s) (azimuth s) (ss s) (used
    s) (profiling s) (tag s) (sentence_length s) v (d_recv_time s)
    (d_decode_time s) (poll_time s) (emit_time s) (raw_hook s).

Definition set_d_recv_time (v : double) (s : gps_data_t) : gps_data_t :=
  mkData (fix_ s) (baudrate s) (stopbits s) (cycle s) (utc s) (epe s) (gps_id
    s) (driver_mode s) (satellites_used s) (pdop s) (hdop s) (vdop s)
    (status s) (satellites s) (PRN s) (elevation s) (azimuth s) (ss s) (used
    s) (profiling s) (tag s) (sentence_length s) (d_xmit_time s) v
    (d_decode_time s) (poll_time s) (emit_time s) (raw_hook s).

Definition set_d_decode_time (v : double) (s : gps_data_t) : gps_data_t :=
  mkData (fix_ s) (baudrate s) (stopbits s) (cycle s) (utc s) (epe s) (gps_id
    s) (driver_mode s) (satellites_used s) (pdop s) (hdop s) (vdop s)
    (status s) (satellites s) (PRN s) (elevation s) (azimuth s) (ss s) (used
    s) (profiling s) (tag s) (sentence_length s) (d_xmit_time s)
    (d_recv_time s) v (poll_time s) (emit_time s) (raw_hook s).

Definition set_poll_time (v : double) (s : gps_data_t) : gps_data_t :=
  mkData (fix_ s) (baudrate s) (stopbits s) (cycle s) (utc s) (epe s) (gps_id
    s) (driver_mode s) (satellites_used s) (pdop s) (hdop s) (vdop s)
    (status s) (satellites s) (PRN s) (elevation s) (azimuth s) (ss s) (used
    s) (profiling s) (tag s) (sentence_length s) (d_xmit_time s)
    (d_recv_time s) (d_decode_time s) v (emit_time s) (raw_hook s).

Definition set_emit_time (v : double) (s : gps_data_t) : gps_data_t :=
  mkData (fix_ s) (baudrate s) (stopbits s) (cycle s) (utc s) (epe s) (gps_id
    s) (driver_mode s) (satellites_used s) (pdop s) (hdop s) (vdop s)
    (status s) (satellites s) (PRN s) (elevation s) (azimuth s) (ss s) (used
    s) (profiling s) (tag s) (sentence_length s) (d_xmit_time s)
    (d_recv_time s) (d_decode_time s) (poll_time s) v (raw_hook s).

Definition set_raw_hook (v : option nat) (s : gps_data_t) : gps_data_t :=
  mkData (fix_ s) (baudrate s) (stopbits s) (cycle s) (utc s) (epe s) (gps_id
    s) (driver_mode s) (satellites_used s) (pdop s) (hdop s) (vdop s)
    (status s) (satellites s) (PRN s) (elevation s) (azimuth s) (ss s) (used
    s) (profiling s) (tag s) (sentence_length s) (d_xmit_time s)
    (d_recv_time s) (d_decode_time s) (poll_time s) (emit_time s) v.

Definition set_altitude (v : double) (s : gps_data_t) : gps_data_t :=
  set_fix_ (set_fix_altitude v (fix_ s)) s.

Definition set_mode (v : Z) (s : gps_data_t) : gps_data_t :=
  set_fix_ (set_fix_mode v (fix_ s)) s.

Definition set_track (v : double) (s : gps_data_t) : gps_data_t :=
  set_fix_ (set_fix_track v (fix_ s)) s.

Definition set_latitude (v : double) (s : gps_data_t) : gps_data_t :=
  set_fix_ (set_fix_latitude v (fix_ s)) s.

Definition set_longitude (v : double) (s : gps_data_t) : gps_data_t :=
  set_fix_ (set_fix_longitude v (fix_ s)) s.

Definition set_eph (v : double) (s : gps_data_t) : gps_data_t :=
  set_fix_ (set_fix_eph v (fix_ s)) s.

Definition set_epv (v : double) (s : gps_data_t) : gps_data_t :=
  set_fix_ (set_fix_epv v (fix_ s)) s.

Definition set_climb (v : double) (s : gps_data_t) : gps_data_t :=
  set_fix_ (set_fix_climb v (fix_ s)) s.

Definition set_speed (v : double) (s : gps_data_t) : gps_data_t :=
  set_fix_ (set_fix_speed v (fix_ s)) s.

Definition set_time (v : double) (s : gps_data_t) : gps_data_t :=
  set_fix_ (set_fix_time v (fix_ s)) s.

(** ** [sscanf] *)

(** The directives of the format strings of libgps.c. *)
Inductive directive :=
| Lit (c : ascii)            (* an ordinary character *)
| Blank                      (* white space: any amount of it, or none *)
| Conv_d (suppressed : bool) (* %d, %*d *)
| Conv_lf                    (* %lf *)
| Conv_s (suppressed : bool) (* %s, %*s *).

Fixpoint parse_format (f : list ascii) : list directive :=
  match f with
  | "%"%char :: "l"%char :: "f"%char :: t => Conv_lf :: parse_format t
  | "%"%char :: "d"%char :: t => Conv_d false :: parse_format t
  | "%"%char :: "s"%char :: t => Conv_s false :: parse_format t
  | "%"%char :: "*"%char :: "d"%char :: t => Conv_d true :: parse_format t
  | "%"%char :: "*"%char :: "s"%char :: t => Conv_s true :: parse_format t
  | c :: t => (if isspace c then Blank else Lit c) :: parse_format t
  | [] => []
  end.

(** A converted item. *)
Inductive item :=
| Int (z : Z)
| Double (d : double)
| Str (s : list ascii).

(** The items that [sscanf] converts and assigns, in order; the scan stops
    at the first directive that does not match. *)
Fixpoint scan (fmt : list directive) (input : list ascii) : list item :=
  match fmt with
  | [] => []
  | Lit c :: fmt' =>
    match input with
    | a :: rest => if (a =? c)%char then scan fmt' rest else []
    | [] => []
    end
  | Blank :: fmt' => scan fmt' (skip_space input)
  | Conv_d suppressed :: fmt' =>
    match scan_int (skip_space input) with
    | Some (z, rest) =>
      if suppressed then scan fmt' rest else Int z :: scan fmt' rest
    | None => []
    end
  | Conv_lf :: fmt' =>
    match strtod (skip_space input) with
    | Some (d, rest) => Double d :: scan fmt' rest
    | None => []
    end
  | Conv_s suppressed :: fmt' =>
    match scan_word (skip_space input) with
    | ([], _) => []
    | (w, rest) =>
      if suppressed then scan fmt' rest else Str w :: scan fmt' rest
    end
  end.

Definition sscanf (input : list ascii) (format : String.string) : list item :=
  scan (parse_format (chars format)) input.

Arguments sscanf input format%_string.

(** The [i]-th pointer argument of a [sscanf] call: the member it points to
    is assigned when the [i]-th item was converted, and left alone
    otherwise. *)
Definition arg_int (items : list item) (i : nat)
    (set : Z -> gps_data_t -> gps_data_t) (s : gps_data_t) : gps_data_t :=
  match nth_error items i with
  | Some (Int z) => set z s
  | _ => s
  end.

Definition arg_double (items : list item) (i : nat)
    (set : double -> gps_data_t -> gps_data_t) (s : gps_data_t) : gps_data_t :=
  match nth_error items i with
  | Some (Double d) => set d s
  | _ => s
  end.

(** ** [gps_unpack] *)

(** What a call does besides writing to the session and to the buffer. *)
Inductive event :=
| Free (s : list ascii)              (* [free] of the string [s] *)
| RawHook (hook : nat) (buf : buffer)
    (* call of the hook at address [hook]; [buf] is the content of the
       array its second argument points to *).

(** The variables of [gps_unpack] that outlive a fragment. *)
Record unpack_state := mkState {
  buf : buffer;
  gpsdata : gps_data_t;
  changed : Z;
  events : list event
}.

Definition on_data (f : gps_data_t -> gps_data_t) (st : unpack_state)
  : unpack_state :=
  mkState (buf st) (f (gpsdata st)) (changed st) (events st).

(** [changed |= bit]. *)
Definition flag (bit : Z) (st : unpack_state) : unpack_state :=
  mkState (buf st) (gpsdata st) (Z.lor (changed st) bit) (events st).

Definition emit (e : event) (st : unpack_state) : unpack_state :=
  mkState (buf st) (gpsdata st) (changed st) (events st ++ [e]).

Definition with_buf (b : buffer) (st : unpack_state) : unpack_state :=
  mkState b (gpsdata st) (changed st) (events st).

(** [strcpy] into a [char[size]]. *)
Definition strcpy (size : nat) (s : list ascii) : result (list ascii) :=
  if (length s <? size)%nat then Done s
  else Crash (StringOverrun (length s) size).

(** The five local arrays of the ['Y'] case. *)
Record tables := mkTables {
  t_PRN : list (option Z);
  t_elevation : list (option Z);
  t_azimuth : list (option Z);
  t_ss : list (option Z);
  t_used : list (option Z)
}.

Fixpoint set_nth (j : nat) (v : option Z) (a : list (option Z))
  : list (option Z) :=
  match a, j with
  | [], _ => []
  | _ :: t, O => v :: t
  | h :: t, S k => h :: set_nth k v t
  end.

(** [a[j] = v] for an [int a[MAXCHANNELS]]. *)
Definition store (j : Z) (v : option Z) (a : list (option Z))
  : result (list (option Z)) :=
  if (0 <=? j) && (j <? MAXCHANNELS H)
  then Done (set_nth (Z.to_nat j) v a)
  else Crash (ArrayOverrun j).

(** [PRN[j] = i1; elevation[j] = i2; azimuth[j] = i3; ss[j] = i4;
    used[j] = i5;] *)
Definition store_row (j : Z) (i1 i2 i3 i4 i5 : option Z) (t : tables)
  : result tables :=
  p <- store j i1 (t_PRN t) ;;
  e <- store j i2 (t_elevation t) ;;
  a <- store j i3 (t_azimuth t) ;;
  s <- store j i4 (t_ss t) ;;
  u <- store j i5 (t_used t) ;;
  Done (mkTables p e a s u).

(** [for (j = 0; j < satellites; j++) PRN[j]=...=used[j]=0;] from [j] on. *)
Fixpoint zero_rows (fuel : nat) (j n : Z) (t : tables) : result tables :=
  if j <? n then
    match fuel with
    | O => Crash OutOfFuel
    | S fuel' =>
      t <- store_row j (Some 0) (Some 0) (Some 0) (Some 0) (Some 0) t ;;
      zero_rows fuel' (j + 1) n t
    end
  else Done t.

(** The locals [i1] ... [i5], indeterminate until [sscanf] assigns them. *)
Definition ints := list (option Z).

Fixpoint assign_ints (items : list item) (i : ints) : ints :=
  match items, i with
  | Int z :: items', _ :: i' => Some z :: assign_ints items' i'
  | _, _ => i
  end.

(** The second loop of the ['Y'] case from [j] on; [sp] is the string that
    the pointer of that name points to. *)
Fixpoint fill_rows (fuel : nat) (j n : Z) (sp : list ascii) (i : ints)
    (t : tables) : result tables :=
  if j <? n then
    match fuel with
    | O => Crash OutOfFuel
    | S fuel' =>
      match index_of ":"%char sp with
      | None => Crash NullPointer
      | Some k =>
        let sp := skipn (S k) sp in
        let i := assign_ints (sscanf sp "%d %d %d %d %d") i in
        t <- store_row j (nth 0 i None) (nth 1 i None) (nth 2 i None)
               (nth 3 i None) (nth 4 i None) t ;;
        fill_rows fuel' (j + 1) n sp i t
      end
    end
  else Done t.

(** The five [memcpy] at the end of the ['Y'] case. *)
Definition copy_tables (t : tables) (s : gps_data_t) : gps_data_t :=
  set_used (t_used t)
    (set_ss (t_ss t)
       (set_azimuth (t_azimuth t)
          (set_elevation (t_elevation t) (set_PRN (t_PRN t) s)))).

(** The local arrays as the block is entered. *)
Definition fresh_tables : tables :=
  let a := repeat None (Z.to_nat (MAXCHANNELS H)) in mkTables a a a a a.

(** The ['Y'] case up to its [break]. *)
Definition case_Y (sp : nat) (st : unpack_state) : result unpack_state :=
  arg <- c_str (buf st) (sp + 2) ;;
  let st := on_data (set_satellites (atoi arg)) st in
  st <-
    (if negb (satellites (gpsdata st) =? 0) then
       frag <- c_str (buf st) sp ;;
       let fuel := S (Z.to_nat (MAXCHANNELS H)) in
       t <- zero_rows fuel 0 (satellites (gpsdata st)) fresh_tables ;;
       t <- fill_rows fuel 0 (satellites (gpsdata st)) frag
              [None; None; None; None; None] t ;;
       Done (on_data (copy_tables t) st)
     else Done st) ;;
  Done (flag (SATELLITE_SET H) st).

(** [case 'M':] up to its [break]; [case 'I':] falls into it. *)
Definition case_M (sp : nat) (st : unpack_state) : result unpack_state :=
  arg <- c_str (buf st) (sp + 2) ;;
  Done (flag (MODE_SET H) (on_data (set_mode (atoi arg)) st)).

(** [case 'I':], which has no [break]. *)
Definition case_I (sp : nat) (st : unpack_state) : result unpack_state :=
  let st :=
    match gps_id (gpsdata st) with
    | Some old => emit (Free old) st
    | None => st
    end in
  arg <- c_str (buf st) (sp + 2) ;;
  let st := on_data (set_gps_id (Some arg)) st in
  case_M sp st.

(** [case '$':]. *)
Definition case_dollar (sp : nat) (st : unpack_state) : result unpack_state :=
  frag <- c_str (buf st) sp ;;
  let items :=
    sscanf frag "$=%s %d %lf %lf %lf %lf %lf %lf" in
  st <-
    match nth_error items 0 with
    | Some (Str w) =>
      w <- strcpy (sizeof_tag H) w ;; Done (on_data (set_tag w) st)
    | _ => Done st
    end ;;
  Done
    (on_data
       (fun s =>
          arg_double items 7 set_emit_time
            (arg_double items 6 set_poll_time
               (arg_double items 5 set_d_decode_time
                  (arg_double items 4 set_d_recv_time
                     (arg_double items 3 set_d_xmit_time
                        (arg_double items 2 set_time
                           (arg_int items 1 set_sentence_length s)))))))
       st).

(** A case that is one [sscanf] into members of the session, followed by
    [changed |= bit] ([bit] is 0 for the cases that set none). *)
Definition case_scan (sp : nat) (format : String.string)
    (assign : list item -> gps_data_t -> gps_data_t) (bit : Z)
    (st : unpack_state) : result unpack_state :=
  frag <- c_str (buf st) sp ;;
  Done (flag bit (on_data (assign (sscanf frag format)) st)).

Arguments case_scan sp format%_string assign bit st.

(** A case that is one [atoi(sp+2)] into a member, followed by
    [changed |= bit]. *)
Definition case_atoi (sp : nat) (set : Z -> gps_data_t -> gps_data_t)
    (bit : Z) (st : unpack_state) : result unpack_state :=
  arg <- c_str (buf st) (sp + 2) ;;
  Done (flag bit (on_data (set (atoi arg)) st)).

(** The [switch] on the first character of the fragment. *)
Definition switch (sp : nat) (st : unpack_state) : result unpack_state :=
  c <- peek (buf st) sp ;;
  if (c =? "A")%char then
    case_scan sp "A=%lf" (fun it s => arg_double it 0 set_altitude s)
      (ALTITUDE_SET H) st
  else if (c =? "B")%char then
    case_scan sp "B=%d %*d %*s %d"
      (fun it s => arg_int it 1 set_stopbits (arg_int it 0 set_baudrate s))
      0 st
  else if (c =? "C")%char then
    case_scan sp "C=%d" (fun it s => arg_int it 0 set_cycle s) 0 st
  else if (c =? "D")%char then
    arg <- c_str (buf st) (sp + 2) ;;
    u <- strcpy (sizeof_utc H) arg ;;
    Done (on_data (set_utc u) st)
  else if (c =? "E")%char then
    case_scan sp "E=%lf %lf %lf"
      (fun it s =>
         arg_double it 2 set_epv
           (arg_double it 1 set_eph (arg_double it 0 set_epe s)))
      (POSERR_SET H) st
  else if (c =? "I")%char then case_I sp st
  else if (c =? "M")%char then case_M sp st
  else if (c =? "N")%char then case_atoi sp set_driver_mode 0 st
  else if (c =? "P")%char then
    case_scan sp "P=%lf %lf"
      (fun it s =>
         arg_double it 1 set_longitude (arg_double it 0 set_latitude s))
      (LATLON_SET H) st
  else if (c =? "Q")%char then
    case_scan sp "Q=%d %lf %lf %lf"
      (fun it s =>
         arg_double it 3 set_vdop
           (arg_double it 2 set_hdop
              (arg_double it 1 set_pdop
                 (arg_int it 0 set_satellites_used s))))
      (DOP_SET H) st
  else if (c =? "S")%char then case_atoi sp set_status (STATUS_SET H) st
  else if (c =? "T")%char then
    case_scan sp "T=%lf" (fun it s => arg_double it 0 set_track s)
      (TRACK_SET H) st
  else if (c =? "U")%char then
    case_scan sp "U=%lf" (fun it s => arg_double it 0 set_climb s)
      (CLIMB_SET H) st
  else if (c =? "V")%char then
    case_scan sp "V=%lf" (fun it s => arg_double it 0 set_speed s)
      (SPEED_SET H) st
  else if (c =? "X")%char then
    case_scan sp "V=%lf" (fun it s => arg_double it 0 set_speed s)
      (ONLINE_SET H) st
  else if (c =? "Y")%char then case_Y sp st
  else if (c =? "Z")%char then
    case_scan sp "Z=%d" (fun it s => arg_int it 0 set_profiling s) 0 st
  else if (c =? "$")%char then case_dollar sp st
  else Done st.

(** [if (!(tp = strchr(sp, ','))) tp = strchr(sp, '\r');] *)
Definition find_tp (b : buffer) (sp : nat) : result (option nat) :=
  comma <- strchr b sp ","%char ;;
  match comma with
  | Some _ => Done comma
  | None => strchr b sp CR
  end.

(** [for (sp = ...; ; sp = tp+1) { ... }] from [sp] on. *)
Fixpoint fragments (fuel : nat) (sp : nat) (st : unpack_state)
  : result unpack_state :=
  match fuel with
  | O => Crash OutOfFuel
  | S fuel' =>
    tp <- find_tp (buf st) sp ;;
    match tp with
    | None => Done st
    | Some tp =>
      let st := with_buf (poke tp NUL (buf st)) st in
      c <- peek (buf st) (sp + 2) ;;
      if (c =? "?")%char then fragments fuel' (tp + 1) st
      else st <- switch sp st ;; fragments fuel' (tp + 1) st
    end
  end.

(** [for (ns = ...; ns; ns = strstr(ns+1, "GPSD")) { ... }] from [ns] on. *)
Fixpoint sentences (fuel : nat) (ns : nat) (st : unpack_state)
  : result unpack_state :=
  match fuel with
  | O => Crash OutOfFuel
  | S fuel' =>
    hit <- strncmp_eq (buf st) ns (chars "GPSD") ;;
    st <- (if hit then fragments (S (length (buf st))) (ns + 5) st
           else Done st) ;;
    next <- strstr (buf st) (ns + 1) (chars "GPSD") ;;
    match next with
    | None => Done st
    | Some ns' => sentences fuel' ns' st
    end
  end.

(** [gps_unpack(buf, gpsdata)] on the array [buf0] and the session
    [gpsdata0].  [changed] in the result is the value the C function returns,
    [buf] what the caller's array holds afterwards. *)
Definition gps_unpack (buf0 : buffer) (gpsdata0 : gps_data_t)
  : result unpack_state :=
  st <- sentences (S (length buf0)) 0 (mkState buf0 gpsdata0 0 []) ;;
  Done (match raw_hook (gpsdata st) with
        | Some hook => emit (RawHook hook (buf st)) st
        | None => st
        end).

(** [gps_set_raw_hook]. *)
Definition gps_set_raw_hook (gpsdata0 : gps_data_t) (hook : nat)
  : gps_data_t :=
  set_raw_hook (Some hook) gpsdata0.

End Unpack.

Arguments altitude {double}.
Arguments mode {double}.
Arguments track {double}.
Arguments latitude {double}.
Arguments longitude {double}.
Arguments eph {double}.
Arguments epv {double}.
Arguments climb {double}.
Arguments speed {double}.
Arguments time {double}.
Arguments fix_ {double}.
Arguments baudrate {double}.
Arguments stopbits {double}.
Arguments cycle {double}.
Arguments utc {double}.
Arguments epe {double}.
Arguments gps_id {double}.
Arguments driver_mode {double}.
Arguments satellites_used {double}.
Arguments pdop {double}.
Arguments hdop {double}.
Arguments vdop {double}.
Arguments status {double}.
Arguments satellites {double}.
Arguments PRN {double}.
Arguments elevation {double}.
Arguments azimuth {double}.
Arguments ss {double}.
Arguments used {double}.
Arguments profiling {double}.
Arguments tag {double}.
Arguments sentence_length {double}.
Arguments d_xmit_time {double}.
Arguments d_recv_time {double}.
Arguments d_decode_time {double}.
Arguments poll_time {double}.
Arguments emit_time {double}.
Arguments raw_hook {double}.
Arguments mkFix {double}.
Arguments mkData {double}.
Arguments buf {double}.
Arguments gpsdata {double}.
Arguments changed {double}.
Arguments events {double}.
Arguments mkState {double}.

(** ** Opening a connection and polling it *)

Section Client.

Variable double : Type.
Variable strtod : list ascii -> option (double * list ascii).
Variable H : gps_h.

(** Subtraction of two [double], and the [double] 0, which is also what
    [calloc] leaves in a [double]. *)
Variable dsub : double -> double -> double.
Variable dzero : double.

(** The constants of gps.h and gpsd.h that [gps_open] names. *)
Variable MODE_NOT_SEEN : Z.
Variable STATUS_NO_FIX : Z.
Variable TRACK_NOT_VALID : double.
Variable ALTITUDE_NOT_VALID : double.
Variable DEFAULT_GPSD_PORT : list ascii.

(** [struct gps_data_t] in full, as far as libgps.c goes: the members that
    [gps_unpack] reads or writes, and those that [gps_open] and [gps_poll]
    alone touch. *)
Record connection := mkConnection {
  session : gps_data_t double;
  gps_fd : Z;
  c_decode_time : double;
  c_recv_time : double
}.

(** The block that [calloc] hands out: every member zero. *)
Definition zeroed : connection :=
  let zeros := repeat (Some 0) (Z.to_nat (MAXCHANNELS H)) in
  mkConnection
    (mkData
       (mkFix dzero 0 dzero dzero dzero dzero dzero dzero dzero dzero)
       0 0 0 [] dzero None 0 0 dzero dzero dzero 0 0
       zeros zeros zeros zeros zeros 0 [] 0 dzero dzero dzero dzero dzero
       None)
    0 dzero dzero.

(** [gps_open].  [allocated] says whether [calloc] has returned a block,
    [netlib_connectsock] is the function of that name.  The first
    component is the connection returned, [None] for [NULL]; the second is
    the value [errno] is set to, if it is set. *)
Definition gps_open (allocated : bool)
    (netlib_connectsock : list ascii -> list ascii -> list ascii -> Z)
    (host port : option (list ascii)) : option connection * option Z :=
  if negb allocated then (None, None)
  else
    let host :=
      match host with Some h => h | None => chars "localhost" end in
    let port :=
      match port with Some p => p | None => DEFAULT_GPSD_PORT end in
    let fd := netlib_connectsock host port (chars "tcp") in
    if fd <? 0 then (None, Some fd)
    else
      (Some
         (mkConnection
            (set_altitude double ALTITUDE_NOT_VALID
               (set_track double TRACK_NOT_VALID
                  (set_status double STATUS_NO_FIX
                     (set_mode double MODE_NOT_SEEN (session zeroed)))))
            fd dzero dzero),
       None).

(** [gps_poll].  [stack] is what the array [buf] holds as the function is
    entered; [n] and [bytes] are what [read] returns and what it has put
    at the start of [buf] ([read] is asked for [sizeof(buf)-1] bytes, so
    [n] is at most that, and a positive [n] is the number of [bytes]);
    [now1] and [now2] are what the two calls of [timestamp] return.  The
    result is the value returned, the connection, and what [gps_unpack]
    has done besides. *)
Definition gps_poll (stack : buffer) (n : Z) (bytes : list ascii)
    (now1 now2 : double) (c : connection)
  : result (Z * connection * list event) :=
  if n <? 0 then Done (-1, c, [])
  else if n =? 0 then Done (0, c, [])
  else
    let buf := poke (Z.to_nat n) NUL (bytes ++ skipn (length bytes) stack) in
    let received :=
      if negb (profiling (session c) =? 0) then now1 else dzero in
    st <- gps_unpack double strtod H buf (session c) ;;
    let g := gpsdata st in
    Done (changed st,
          (if negb (profiling g =? 0)
           then mkConnection g (gps_fd c)
                  (dsub received (time (fix_ g)))
                  (dsub now2 (time (fix_ g)))
           else mkConnection g (gps_fd c) (c_decode_time c)
                  (c_recv_time c)),
          events st).

(** [gps_query]; [written] is what [write] returns. *)
Definition gps_query (written : Z) (stack : buffer) (n : Z)
    (bytes : list ascii) (now1 now2 : double) (c : connection)
  : result (Z * connection * list event) :=
  if written <=? 0 then Done (-1, c, [])
  else gps_poll stack n bytes now1 now2 c.

End Client.

Arguments session {double}.
Arguments gps_fd {double}.
Arguments c_decode_time {double}.
Arguments c_recv_time {double}.
Arguments mkConnection {double}.

(** ** A stand-in for [double]

    Decimal numbers without exponent part, [mantissa * 10 ^ exponent10],
    and a reader for them.  It serves to run the model on concrete
    sentences; nothing that is proved depends on it. *)

Record decimal := mkDecimal {
  mantissa : Z;
  exponent10 : Z
}.

Definition read_decimal (s : list ascii) : option (decimal * list ascii) :=
  let '(neg, body) :=
    match s with
    | "-"%char :: t => (true, t)
    | "+"%char :: t => (false, t)
    | _ => (false, s)
    end in
  let '(whole, r1) := digits 0 body in
  let '(m, r2) :=
    match r1 with
    | "."%char :: t => digits whole t
    | _ => (whole, r1)
    end in
  let places :=
    match r1 with
    | "."%char :: t => (length t - length r2)%nat
    | _ => O
    end in
  if ((length body - length r1 + places)%nat =? 0)%nat then None
  else Some (mkDecimal (if neg then - m else m) (- Z.of_nat places), r2).

(** A choice for the constants of gps.h: distinct bits for the flags,
    twelve channels, twenty characters for [utc] and eight for [tag]. *)
Definition gps_h_sample : gps_h :=
  mkGpsH 0x010 0x1000 0x200 0x008 0x400 0x100 0x040 0x080 0x020 0x001 0x800
    12 20 8.

(** ** The words of the properties *)

(** A computation that ends the way the C code can end. *)
Definition finishes {A : Type} (r : result A) : Prop := r <> Crash OutOfFuel.

(** The tags whose case is a [sscanf] that starts with [%lf], those whose
    case is a [sscanf] that starts with [%d], and those whose case is an
    [atoi]. *)
Definition lf_tags : list ascii := ["A"; "E"; "P"; "T"; "U"; "V"]%char.
Definition d_tags : list ascii := ["B"; "C"; "Q"; "Z"]%char.
Definition atoi_tags : list ascii := ["M"; "N"; "S"; "Y"]%char.

(** [b] is [b0] with some of its commas and carriage returns overwritten
    by NUL. *)
Definition tokenised (b0 b : buffer) : Prop :=
  length b = length b0
  /\ forall i c, nth_error b i = Some c ->
       nth_error b0 i = Some c
       \/ (c = NUL /\ (nth_error b0 i = Some ","%char
                       \/ nth_error b0 i = Some CR)).

(** The text of a sentence after its header as the inner loop leaves it:
    a fragment ends at each comma and, once no comma is left, at each
    carriage return; the characters at which a fragment ended are NUL. *)
Fixpoint ended (t : list ascii) : list ascii :=
  match t with
  | [] => []
  | c :: r =>
    (if (c =? ",")%char
        || ((c =? CR)%char && negb (existsb (Ascii.eqb ","%char) r))
     then NUL else c) :: ended r
  end.

(** The buffer [b0], whose string is [s], once the fragments that follow
    its first five characters have been ended. *)
Definition first_sentence_ended (b0 : buffer) (s : list ascii) : buffer :=
  firstn 5 b0 ++ ended (skipn 5 s) ++ skipn (length s) b0.

(** [b] is what the parse makes of a buffer [b0] that starts with a
    header and at least one more character: the fragments of the first
    sentence have been ended, and when the string holds no other [GPSD],
    nothing else has been done. *)
Definition fragments_ended (b0 b : buffer) : Prop :=
  forall s,
    c_str b0 0 = Done s ->
    starts_with (chars "GPSD") s = true ->
    (5 <= length s)%nat ->
    (forall p, nth_error (first_sentence_ended b0 s) p = Some NUL ->
               nth_error b p = Some NUL)
    /\ (find_sub (chars "GPSD") (tl s) = None ->
        b = first_sentence_ended b0 s).

Section Words.

Variable double : Type.

(** What is left in the session by a fragment [tag=text] whose [text]
    holds no number. *)
Definition after_failed_parse (tag : ascii) (s : gps_data_t double)
  : gps_data_t double :=
  if (tag =? "M")%char then set_mode double 0 s
  else if (tag =? "N")%char then set_driver_mode double 0 s
  else if (tag =? "S")%char then set_status double 0 s
  else if (tag =? "Y")%char then set_satellites double 0 s
  else s.

(** Two states of the loops that agree on the buffer and on [changed]. *)
Definition alike (a b : unpack_state double) : Prop :=
  buf a = buf b /\ changed a = changed b.

(** Two runs that end alike: both with the same fault, or both with a
    result and these results agree on the buffer and on [changed]. *)
Definition end_alike (r1 r2 : result (unpack_state double)) : Prop :=
  match r1, r2 with
  | Done a, Done b => alike a b
  | Crash f1, Crash f2 => f1 = f2
  | _, _ => False
  end.

(** From [a] to [b] the hook registered in the session stays what it is,
    and nothing happens but releases of strings. *)
Definition quiet (a b : unpack_state double) : Prop :=
  raw_hook (gpsdata b) = raw_hook (gpsdata a)
  /\ exists freed, events b = events a ++ map Free freed.

(** A function on sessions that leaves the hook alone. *)
Definition keeps_hook (f : gps_data_t double -> gps_data_t double) : Prop :=
  forall s, raw_hook (f s) = raw_hook s.

End Words.

Arguments after_failed_parse {double}.
Arguments alike {double}.
Arguments end_alike {double}.
Arguments quiet {double}.
Arguments keeps_hook {double}.

(** The flags that [gps_unpack] can put into [changed], and all of them
    together. *)
Definition flag_bits (H : gps_h) : list Z :=
  [ALTITUDE_SET H; POSERR_SET H; MODE_SET H; LATLON_SET H; DOP_SET H;
   STATUS_SET H; TRACK_SET H; CLIMB_SET H; SPEED_SET H; ONLINE_SET H;
   SATELLITE_SET H].

Definition known_flags (H : gps_h) : Z := fold_right Z.lor 0 (flag_bits H).

(** The tags whose case ends in [changed |= ...]. *)
Definition flagged_tags : list ascii :=
  ["A"; "E"; "I"; "M"; "P"; "Q"; "S"; "T"; "U"; "V"; "X"; "Y"]%char.

(** The number of colons in a string. *)
Definition colons (s : list ascii) : nat := count_occ ascii_dec s ":"%char.

(** The elements of an [int] array from index [n] on are indeterminate. *)
Definition blank_from (n : nat) (a : list (option Z)) : Prop :=
  forall k, (n <= k < length a)%nat -> nth_error a k = Some None.

(** The five arrays all have [MAXCHANNELS] elements, indeterminate from
    index [n] on. *)
Definition blank_tables (H : gps_h) (n : nat) (t : tables) : Prop :=
  (length (t_PRN t) = Z.to_nat (MAXCHANNELS H)
   /\ length (t_elevation t) = Z.to_nat (MAXCHANNELS H)
   /\ length (t_azimuth t) = Z.to_nat (MAXCHANNELS H)
   /\ length (t_ss t) = Z.to_nat (MAXCHANNELS H)
   /\ length (t_used t) = Z.to_nat (MAXCHANNELS H))
  /\ blank_from n (t_PRN t) /\ blank_from n (t_elevation t)
  /\ blank_from n (t_azimuth t) /\ blank_from n (t_ss t)
  /\ blank_from n (t_used t).

(** ** Sample sessions and lines *)

(** [gps_unpack] over the decimal stand-in and the sample constants. *)
Definition unpack
  : buffer -> gps_data_t decimal -> result (unpack_state decimal) :=
  gps_unpack decimal read_decimal gps_h_sample.

(** The array that holds one line as the daemon sends it: the text, a
    carriage return and the closing NUL. *)
Definition line (s : string) : buffer := chars s ++ [CR; NUL].

Arguments line s%_string.

Definition zero : decimal := mkDecimal 0 0.

Definition zeros : list (option Z) := repeat (Some 0) 12.

(** A session in the middle of its life: a 3D fix, a device identifier, no
    raw hook. *)
Definition session3d : gps_data_t decimal :=
  mkData (mkFix zero 3 zero zero zero zero zero zero zero zero)
    4800 1 1 [] zero (Some (chars "SiRF")) 0 0 zero zero zero 1 0
    zeros zeros zeros zeros zeros 0 [] 0 zero zero zero zero zero None.

(** The state in which [unpack] leaves the line [GPSD,I=GPS9,M=3] and
    that session once the hook at address 7 is registered. *)
Definition unpacked_with_hook : unpack_state decimal :=
  Eval vm_compute in
    match unpack (line "GPSD,I=GPS9,M=3")
            (gps_set_raw_hook decimal session3d 7) with
    | Done st => st
    | Crash _ => mkState [] session3d 0 []
    end.

(** Thirteen satellites in view, one more than [MAXCHANNELS]. *)
Definition thirteen_satellites : buffer :=
  line ("GPSD,Y=13:1 45 120 40 1:2 45 120 40 1:3 45 120 40 1:4 45 120 40 1"
        ++ ":5 45 120 40 1:6 45 120 40 1:7 45 120 40 1:8 45 120 40 1"
        ++ ":9 45 120 40 1:10 45 120 40 1:11 45 120 40 1:12 45 120 40 1"
        ++ ":13 45 120 40 0").

(** ** A sample connection *)

(** Subtraction for the decimal stand-in. *)
Definition decimal_sub (a b : decimal) : decimal :=
  let e := Z.min (exponent10 a) (exponent10 b) in
  mkDecimal (mantissa a * 10 ^ (exponent10 a - e)
             - mantissa b * 10 ^ (exponent10 b - e)) e.

(** The connection that [gps_open(NULL, NULL)] returns when the socket is
    descriptor 3, with [MODE_NOT_SEEN] and [STATUS_NO_FIX] 0,
    [TRACK_NOT_VALID] -1 and [ALTITUDE_NOT_VALID] -999. *)
Definition connected : connection decimal :=
  Eval vm_compute in
    match fst (gps_open decimal gps_h_sample zero 0 0 (mkDecimal (-1) 0)
                 (mkDecimal (-999) 0) (chars "2947")
                 true (fun _ _ _ => 3) None None) with
    | Some c => c
    | None => mkConnection session3d (-1) zero zero
    end.

(** An array of 32 characters as [gps_poll] may find it on its stack. *)
Definition stack32 : buffer := repeat "x"%char 32.

(** What [gps_poll] returns when [read] brings [GPSD,I=GPS9,M=3] and a
    carriage return on that connection. *)
Definition polled : Z * connection decimal * list event :=
  Eval vm_compute in
    match gps_poll decimal read_decimal gps_h_sample decimal_sub zero
            stack32 16 (chars "GPSD,I=GPS9,M=3" ++ [CR]) zero zero
            connected with
    | Done r => r
    | Crash _ => (0, connected, [])
    end.

End Libgps.

(** * gpxlogger.c *)

Module Gpxlogger.

(** The pairs of neighbours in a list. *)
Fixpoint neighbours {A : Type} (l : list A) : list (A * A) :=
  match l with
  | a :: (b :: _) as r => (a, b) :: neighbours r
  | _ => []
  end.

(** [struct tm], as far as [print_fix] reads it. *)
Record tm := mkTm {
  tm_year : Z;
  tm_mon : Z;
  tm_mday : Z;
  tm_hour : Z;
  tm_min : Z;
  tm_sec : Z
}.

(** Where C leaves the behaviour undefined the model stops with a
    fault. *)
Inductive fault :=
| TimeConversion    (* [(time_t) floor(x)] for an [x] whose floor is no
                       [time_t] *)
| TimeOverflow      (* [int_time - old_int_time] is no [time_t] *)
| NullDereference   (* [print_fix] reads through the null pointer that
                       [gmtime] has returned *)
| IntOverflow       (* [tm_year + 1900] or [tm_mon + 1] is no [int] *).

Inductive result (A : Type) :=
| Done (a : A)
| Crash (f : fault).

Arguments Done {A} a.
Arguments Crash {A} f.

Definition bind {A B : Type} (r : result A) (k : A -> result B) : result B :=
  match r with
  | Done a => k a
  | Crash f => Crash f
  end.

Notation "x <- r ;; k" := (bind r (fun x => k))
  (at level 61, r at next level, right associativity).

(** The largest [int]. *)
Definition INT_MAX : Z := 2 ^ 31 - 1.

Section Logger.

(** C's [double] with what gpxlogger.c does to it: [(time_t) floor(x)],
    which is [None] where the floor of [x] is not a value of [time_t]
    (infinities and NaN included) and C leaves the conversion undefined;
    [x < y]; [fabs(x)]; and the conversion [(double) n] of an [int] or a
    [time_t].  [TIME_MAX] is the largest [time_t], the smallest being
    [- TIME_MAX - 1].  [earth_distance] comes from libgps; [gmtime] from
    the C library, [None] being the null pointer it returns for a time it
    cannot convert; [MODE_NO_FIX] and [MODE_2D] from gps.h, [SIGINT] from
    signal.h. *)
Variable double : Type.
Variable floor_time : double -> option Z.
Variable dlt : double -> double -> bool.
Variable dabs : double -> double.
Variable of_int : Z -> double.
Variable TIME_MAX : Z.
Variable earth_distance : double -> double -> double -> double -> double.
Variable gmtime : Z -> option tm.
Variable MODE_NO_FIX : Z.
Variable MODE_2D : Z.
Variable SIGINT : Z.

(** The members of [struct gps_fix_t] and of [struct gps_data_t] (gps.h)
    that gpxlogger.c reads. *)
Record gps_fix_t := mkFix {
  time : double;
  mode : Z;
  latitude : double;
  longitude : double;
  altitude : double
}.

Record gps_data_t := mkData {
  dev_path : string;   (* the member [dev.path] *)
  fix_ : gps_fix_t     (* the member [fix] *)
}.

(** One constructor per [fprintf(logfile, ...)] statement, carrying the
    arguments of its format string in order. *)
Inductive printed :=
| XmlDeclaration
| GpxOpen
| XmlnsXsi
| Xmlns
| SchemaLocation
| SchemaFile
| MetadataOpen
| MetadataName
| MetadataAuthor (author : string)
| MetadataCopyright (license : string)
| MetadataClose
| TrksegClose
| TrkClose
| GpxClose
| TrkOpen
| TrksegOpen
| Trkpt (lat lon : double)
| Ele (altitude : double)
| Time (year mon mday hour min sec : Z)
| FixNone
| FixDimensions (mode : Z)
| TrkptClose.

(** What is done to [logfile], in order. *)
Inductive stdio :=
| Fprintf (p : printed)
| Fflush
| Fclose.

(** The two messages of [socket_mainloop] on [stderr]. *)
Inductive complaint :=
| NoGpsd          (* no gpsd running or network error *)
| SelectFailed    (* the text of [strerror(errno)] *).

(** The file-scope variables of gpxlogger.c and the [static] locals of
    [conditionally_log_fix], with the operations on [logfile], the signals
    reported to [syslog] and the status the process has exited with. *)
Record logger := mkLogger {
  logfile : list stdio;
  intrack : bool;
  timeout : Z;
  minmove : double;
  int_time : Z;
  old_int_time : Z;
  old_lat : double;
  old_lon : double;
  first : bool;
  device : option string;   (* [source.device] *)
  syslog : list Z;
  stderr : list complaint;
  exited : option Z
}.

Definition author : string := "Amaury Jacquot, Chris Kuethe".
Definition license : string := "BSD".

(** The variables as the program starts, before [main] has read its
    options. *)
Definition initial : logger :=
  mkLogger [] false 5 (of_int 0) 0 0 (of_int 0) (of_int 0) true None [] []
    None.

Definition write (l : list stdio) (s : logger) : logger :=
  mkLogger (logfile s ++ l) (intrack s) (timeout s) (minmove s)
    (int_time s) (old_int_time s) (old_lat s) (old_lon s) (first s)
    (device s) (syslog s) (stderr s) (exited s).

Definition set_intrack (b : bool) (s : logger) : logger :=
  mkLogger (logfile s) b (timeout s) (minmove s) (int_time s)
    (old_int_time s) (old_lat s) (old_lon s) (first s) (device s)
    (syslog s) (stderr s) (exited s).

Definition set_int_time (t : Z) (s : logger) : logger :=
  mkLogger (logfile s) (intrack s) (timeout s) (minmove s) t
    (old_int_time s) (old_lat s) (old_lon s) (first s) (device s)
    (syslog s) (stderr s) (exited s).

Definition set_old_int_time (t : Z) (s : logger) : logger :=
  mkLogger (logfile s) (intrack s) (timeout s) (minmove s) (int_time s) t
    (old_lat s) (old_lon s) (first s) (device s) (syslog s) (stderr s) (exited s).

Definition set_old_position (lat lon : double) (s : logger) : logger :=
  mkLogger (logfile s) (intrack s) (timeout s) (minmove s) (int_time s)
    (old_int_time s) lat lon (first s) (device s) (syslog s) (stderr s) (exited s).

Definition set_first (b : bool) (s : logger) : logger :=
  mkLogger (logfile s) (intrack s) (timeout s) (minmove s) (int_time s)
    (old_int_time s) (old_lat s) (old_lon s) b (device s) (syslog s)
    (stderr s) (exited s).

Definition print_gpx_header (s : logger) : logger :=
  write
    [Fprintf XmlDeclaration; Fprintf GpxOpen; Fprintf XmlnsXsi;
     Fprintf Xmlns; Fprintf SchemaLocation; Fprintf SchemaFile;
     Fprintf MetadataOpen; Fprintf MetadataName;
     Fprintf (MetadataAuthor author); Fprintf (MetadataCopyright license);
     Fprintf MetadataClose; Fflush] s.

Definition print_gpx_trk_end (s : logger) : logger :=
  write [Fprintf TrksegClose; Fprintf TrkClose; Fflush] s.

Definition print_gpx_footer (s : logger) : logger :=
  let s := if intrack s then print_gpx_trk_end s else s in
  write [Fprintf GpxClose; Fclose] s.

Definition print_gpx_trk_start (s : logger) : logger :=
  write [Fprintf TrkOpen; Fprintf TrksegOpen; Fflush] s.

(** What [print_fix] writes for a fix and the [struct tm] of its time. *)
Definition fix_lines (fix_ : gps_fix_t) (t : tm) : list stdio :=
  [Fprintf (Trkpt (latitude fix_) (longitude fix_));
   Fprintf (Ele (altitude fix_));
   Fprintf (Time (tm_year t + 1900) (tm_mon t + 1) (tm_mday t) (tm_hour t)
              (tm_min t) (tm_sec t));
   (if mode fix_ =? MODE_NO_FIX then Fprintf FixNone
    else Fprintf (FixDimensions (mode fix_)));
   Fprintf TrkptClose; Fflush].

(** [print_fix]; [t] is the pointer that [gmtime] has returned.  The
    function does not test it: with a null pointer the third [fprintf]
    reads [time->tm_year] through it. *)
Definition print_fix (fix_ : gps_fix_t) (t : option tm) (s : logger)
  : result logger :=
  match t with
  | None => Crash NullDereference
  | Some t =>
    if (INT_MAX <? tm_year t + 1900) || (INT_MAX <? tm_mon t + 1)
    then Crash IntOverflow
    else Done (write (fix_lines fix_ t) s)
  end.

(** [a - b] for two [time_t]. *)
Definition time_sub (a b : Z) : result Z :=
  if (- TIME_MAX - 1 <=? a - b) && (a - b <=? TIME_MAX) then Done (a - b)
  else Crash TimeOverflow.

(** [conditionally_log_fix].  The difference of the two [time_t] is
    converted to [double] for [fabs], and so is [timeout] for the
    comparison; the left operand of [&&] is evaluated whatever [first]
    holds. *)
Definition conditionally_log_fix (gpsfix : gps_fix_t) (s : logger)
  : result logger :=
  match floor_time (time gpsfix) with
  | None => Crash TimeConversion
  | Some t =>
    let s := set_int_time t s in
    if (int_time s =? old_int_time s) || (mode gpsfix <? MODE_2D) then Done s
    else if dlt (of_int 0) (minmove s) && negb (first s)
            && dlt (earth_distance (latitude gpsfix) (longitude gpsfix)
                      (old_lat s) (old_lon s)) (minmove s)
    then Done s
    else
      d <- time_sub (int_time s) (old_int_time s) ;;
      let s :=
        if dlt (of_int (timeout s)) (dabs (of_int d)) && negb (first s)
        then set_intrack false (print_gpx_trk_end s) else s in
      let s :=
        if negb (intrack s) then
          let s := set_intrack true (print_gpx_trk_start s) in
          if first s then set_first false s else s
        else s in
      let s := set_old_int_time (int_time s) s in
      let s :=
        if dlt (of_int 0) (minmove s)
        then set_old_position (latitude gpsfix) (longitude gpsfix) s
        else s in
      print_fix gpsfix (gmtime (int_time s)) s
  end.

(** [quit_handler]; [exit(0)] is the last thing the process does.  [s] is
    the state the signal finds: the properties apply the handler to a
    state between two turns of the loop of [socket_mainloop], or to the
    state in which the loop has been left. *)
Definition quit_handler (signum : Z) (s : logger) : logger :=
  let s :=
    if negb (signum =? SIGINT)
    then mkLogger (logfile s) (intrack s) (timeout s) (minmove s)
           (int_time s) (old_int_time s) (old_lat s) (old_lon s) (first s)
           (device s) (syslog s ++ [signum]) (stderr s) (exited s)
    else s in
  let s := print_gpx_footer s in
  mkLogger (logfile s) (intrack s) (timeout s) (minmove s) (int_time s)
    (old_int_time s) (old_lat s) (old_lon s) (first s) (device s)
    (syslog s) (stderr s) (Some 0).

(** [process]: the filter on the source device, then the fix. *)
Definition process (gpsdata : gps_data_t) (s : logger) : result logger :=
  let named := negb (dev_path gpsdata =? EmptyString)%string in
  let other :=
    match device s with
    | Some d => negb (d =? dev_path gpsdata)%string
    | None => false
    end in
  if named && other then Done s
  else conditionally_log_fix (fix_ gpsdata) s.

(** One turn of the loop of [socket_mainloop]: what [select] returned, and
    the session as [gps_read] leaves it when it is called. *)
Record wakeup := mkWakeup {
  data : Z;
  after_read : gps_data_t
}.

Definition complain (c : complaint) (s : logger) : logger :=
  mkLogger (logfile s) (intrack s) (timeout s) (minmove s) (int_time s)
    (old_int_time s) (old_lat s) (old_lon s) (first s) (device s)
    (syslog s) (stderr s ++ [c]) (exited s).

Definition exit (status : Z) (s : logger) : logger :=
  mkLogger (logfile s) (intrack s) (timeout s) (minmove s) (int_time s)
    (old_int_time s) (old_lat s) (old_lon s) (first s) (device s)
    (syslog s) (stderr s) (Some status).

(** [for (;;) { ... }] of [socket_mainloop] over the wakeups to come.  The
    second component is [true] when the loop was left by its [break]. *)
Fixpoint mainloop (ws : list wakeup) (s : logger)
  : result (logger * bool) :=
  match ws with
  | [] => Done (s, false)
  | w :: ws' =>
    if data w =? -1 then Done (complain SelectFailed s, true)
    else if negb (data w =? 0)
    then s <- process (after_read w) s ;; mainloop ws' s
    else mainloop ws' s
  end.

(** [socket_mainloop]; [opened] is what [gps_open] returned.  The value
    returned is 0, when the function returns. *)
Definition socket_mainloop (opened : Z) (ws : list wakeup) (s : logger)
  : result (logger * option Z) :=
  if negb (opened =? 0) then Done (exit 1 (complain NoGpsd s), None)
  else
    r <- mainloop ws s ;;
    Done (fst r, if snd r then Some 0 else None).

(** ** The words of the properties *)

(** The variables when [main] has read its options and [logfile] is an
    open file: [timeout], [minmove] and [source.device] as the command
    line has set them, the others as they are initialised. *)
Definition configured (t : Z) (m : double) (d : option string) : logger :=
  mkLogger [] false t m 0 0 (of_int 0) (of_int 0) true d [] [] None.

(** What a printing function appends to the file. *)
Definition written (f : logger -> logger) : list stdio :=
  logfile (f initial).

Definition header : list stdio := written print_gpx_header.
Definition trk_start : list stdio := written print_gpx_trk_start.
Definition trk_end : list stdio := written print_gpx_trk_end.
Definition footer : list stdio := written print_gpx_footer.

(** The second a fix falls into, for a fix whose time has one. *)
Definition stamp (f : gps_fix_t) : Z :=
  match floor_time (time f) with
  | Some t => t
  | None => 0
  end.

(** One track point, for a fix whose second [gmtime] converts, and one
    track with its points, as they are written. *)
Definition point (f : gps_fix_t) : list stdio :=
  match gmtime (stamp f) with
  | Some t => fix_lines f t
  | None => []
  end.

Definition track (pts : list gps_fix_t) : list stdio :=
  trk_start ++ flat_map point pts ++ trk_end.

(** A report that [process] passes on. *)
Definition passed (d : option string) (g : gps_data_t) : Prop :=
  dev_path g = EmptyString \/ d = None \/ d = Some (dev_path g).

(** [fabs(int_time - old_int_time) > timeout] as the code computes it,
    in [double], for the seconds of a fix [b] and of the fix [a] logged
    before it. *)
Definition jump (t : Z) (a b : gps_fix_t) : bool :=
  dlt (of_int t) (dabs (of_int (stamp b - stamp a))).

(** Two points that follow each other in a track; two tracks that follow
    each other; two points that follow each other in the file. *)
Definition steady (t : Z) (p : gps_fix_t * gps_fix_t) : Prop :=
  stamp (fst p) <> stamp (snd p) /\ jump t (fst p) (snd p) = false.

Definition apart (t : Z) (p : list gps_fix_t * list gps_fix_t) : Prop :=
  forall d, jump t (last (fst p) d) (hd d (snd p)) = true.

Definition far (m : double) (p : gps_fix_t * gps_fix_t) : Prop :=
  dlt (earth_distance (latitude (snd p)) (longitude (snd p))
         (latitude (fst p)) (longitude (fst p))) m = false.

(** What has been logged: the tracks, the latest first, and in each track
    its points, the latest first. *)
Definition history := list (list gps_fix_t).

(** The tracks in the order of the file. *)
Definition tracks_of (h : history) : list (list gps_fix_t) :=
  rev (map (@rev gps_fix_t) h).

(** What is in the file after the header while the latest track is
    open. *)
Definition rendered (h : history) : list stdio :=
  match h with
  | [] => []
  | c :: older =>
    flat_map track (tracks_of older) ++ trk_start ++ flat_map point (rev c)
  end.

Definition no_history (h : history) : bool :=
  match h with
  | [] => true
  | _ :: _ => false
  end.

(** The state of the logger agrees with the history [h]: the file holds
    the header and the tracks of [h], the [static] variables remember the
    latest point, and the points of [h] satisfy [Q] and lie as the tests
    of [conditionally_log_fix] let them. *)
Definition tracking (Q : gps_fix_t -> Prop) (t : Z) (m : double)
    (d : option string) (s : logger) (h : history) : Prop :=
  logfile s = header ++ rendered h
  /\ timeout s = t /\ minmove s = m /\ device s = d
  /\ intrack s = negb (no_history h) /\ first s = no_history h
  /\ Forall (fun c => c <> []) h
  /\ (forall f c older, h = (f :: c) :: older ->
      old_int_time s = stamp f
      /\ (dlt (of_int 0) m = true ->
          old_lat s = latitude f /\ old_lon s = longitude f))
  /\ Forall Q (concat h)
  /\ Forall (fun c => Forall (fun p => steady t (snd p, fst p))
                        (neighbours c)) h
  /\ Forall (fun p => apart t (rev (snd p), rev (fst p))) (neighbours h)
  /\ (dlt (of_int 0) m = true ->
      Forall (fun p => far m (snd p, fst p)) (neighbours (concat h))).

End Logger.

Arguments time {double}.
Arguments mode {double}.
Arguments latitude {double}.
Arguments longitude {double}.
Arguments altitude {double}.
Arguments mkFix {double}.
Arguments dev_path {double}.
Arguments fix_ {double}.
Arguments mkData {double}.
Arguments XmlDeclaration {double}.
Arguments GpxOpen {double}.
Arguments XmlnsXsi {double}.
Arguments Xmlns {double}.
Arguments SchemaLocation {double}.
Arguments SchemaFile {double}.
Arguments MetadataOpen {double}.
Arguments MetadataName {double}.
Arguments MetadataAuthor {double}.
Arguments MetadataCopyright {double}.
Arguments MetadataClose {double}.
Arguments TrksegClose {double}.
Arguments TrkClose {double}.
Arguments GpxClose {double}.
Arguments TrkOpen {double}.
Arguments TrksegOpen {double}.
Arguments Trkpt {double}.
Arguments Ele {double}.
Arguments Time {double}.
Arguments FixNone {double}.
Arguments FixDimensions {double}.
Arguments TrkptClose {double}.
Arguments Fprintf {double}.
Arguments Fflush {double}.
Arguments Fclose {double}.
Arguments logfile {double}.
Arguments intrack {double}.
Arguments timeout {double}.
Arguments minmove {double}.
Arguments int_time {double}.
Arguments old_int_time {double}.
Arguments old_lat {double}.
Arguments old_lon {double}.
Arguments first {double}.
Arguments device {double}.
Arguments syslog {double}.
Arguments stderr {double}.
Arguments exited {double}.
Arguments mkLogger {double}.
Arguments data {double}.
Arguments after_read {double}.
Arguments mkWakeup {double}.

(** ** A stand-in for [double] and for the libraries

    Whole numbers for [double], a [time_t] of 64 bits, the sum of the two
    differences for [earth_distance], and a [gmtime] that converts the
    seconds of 1 January 1970 and no others.  [MODE_NO_FIX] is 1,
    [MODE_2D] 2 and [SIGINT] 2.  The stand-in serves to run the model on
    concrete reports; nothing that is proved depends on it. *)

Definition whole_floor (x : Z) : option Z :=
  if (- 2 ^ 63 <=? x) && (x <? 2 ^ 63) then Some x else None.

Definition whole (n : Z) : Z := n.

Definition taxicab (lat lon lat' lon' : Z) : Z :=
  Z.abs (lat - lat') + Z.abs (lon - lon').

Definition gmtime_1970 (t : Z) : option tm :=
  if (0 <=? t) && (t <? 86400)
  then Some (mkTm 70 0 1 (t / 3600) (t / 60 mod 60) (t mod 60))
  else None.

Definition sample_loop
  : Z -> list (wakeup Z) -> logger Z -> result (logger Z * option Z) :=
  socket_mainloop Z whole_floor Z.ltb Z.abs whole (2 ^ 63 - 1) taxicab
    gmtime_1970 1 2.

Definition sample_track : list (gps_fix_t Z) -> list (stdio Z) :=
  track Z whole_floor whole gmtime_1970 1.

(** A report with a 3D fix at time [t] and position [lat], [lon] that
    names no device. *)
Definition report (t lat lon : Z) : wakeup Z :=
  mkWakeup 1 (mkData EmptyString (mkFix t 3 lat lon 0)).

(** The logger started with [-i 5 -m 3], the header written. *)
Definition sample_start : logger Z :=
  print_gpx_header Z (configured Z whole 5 3 None).

(** Five wakeups: a fix, a timeout of [select], a fix a second later and
    five metres on, one a metre from there, and one after 88 seconds. *)
Definition sample_wakeups : list (wakeup Z) :=
  [report 10 0 0; mkWakeup 0 (mkData EmptyString (mkFix 10 3 0 0 0));
   report 11 5 0; report 12 5 1; report 100 9 9].

(** The logger, and what [socket_mainloop] has returned, after these. *)
Definition sample_end : logger Z * option Z :=
  Eval vm_compute in
    match sample_loop 0 sample_wakeups sample_start with
    | Done r => r
    | Crash _ => (sample_start, None)
    end.

(** The same when [select] fails after the first fix. *)
Definition sample_broken : logger Z * option Z :=
  Eval vm_compute in
    match sample_loop 0
            [report 10 0 0; mkWakeup (-1) (mkData EmptyString (mkFix 0 0 0 0 0))]
            sample_start with
    | Done r => r
    | Crash _ => (sample_start, None)
    end.

End Gpxlogger.

(** * Properties of the subframe decoder *)

Module SubframeSpec.
Import Subframe.

(** ** The array as a list *)

Lemma length_upd (i : nat) (v : Z) (a : list Z) :
  length (upd i v a) = length a.
Proof.
  revert i; induction a as [|h t IH]; intros [|i]; simpl; auto.
Qed.

Lemma word_upd_same (i : nat) (v : Z) (a : list Z) :
  (i < length a)%nat -> word (upd i v a) i = v.
Proof.
  unfold word; revert i; induction a as [|h t IH]; intros [|i] H;
    simpl in *; try lia; auto.
  apply IH; lia.
Qed.

Lemma word_upd_other (i j : nat) (v : Z) (a : list Z) :
  i <> j -> word (upd i v a) j = word a j.
Proof.
  unfold word; revert i j; induction a as [|h t IH]; intros [|i] [|j] H;
    simpl; auto; try congruence.
Qed.

Lemma word_tail (w : Z) (a : list Z) (i : nat) :
  word (w :: a) (S i) = word a i.
Proof. reflexivity. Qed.

Lemma upd_twice (i : nat) (u v : Z) (a : list Z) :
  upd i v (upd i u a) = upd i v a.
Proof.
  revert i; induction a as [|h t IH]; intros [|i]; simpl; auto.
  now rewrite IH.
Qed.

(** ** Bit-level facts about the masks of subframe.c *)

Lemma mask_ff : 0xff = Z.ones 8. Proof. reflexivity. Qed.
Lemma mask_3f : 0x3f = Z.ones 6. Proof. reflexivity. Qed.
Lemma mask_ffffff : 0xffffff = Z.ones 24. Proof. reflexivity. Qed.
Lemma mask_30bits : 0x3fffffff = Z.ones 30. Proof. reflexivity. Qed.
Lemma mask_data : 0x3fffffc0 = Z.shiftl (Z.ones 24) 6. Proof. reflexivity. Qed.
Lemma mask_d30 : 0x40000000 = 2 ^ 30. Proof. reflexivity. Qed.
Lemma mask_above_parity : 0xffffffc0 = Z.shiftl (Z.ones 26) 6.
Proof. reflexivity. Qed.

(** Reduce an equation between words to one between their bits. *)
Ltac bitwise n Hn :=
  apply Z.bits_inj'; intros n Hn;
  repeat first
    [ rewrite Z.land_spec | rewrite Z.lxor_spec | rewrite Z.lor_spec
    | rewrite Z.shiftr_spec by lia | rewrite Z.shiftl_spec by lia
    | rewrite Z.testbit_ones_nonneg by lia
    | rewrite Z.pow2_bits_eqb by lia ].

Ltac split_ltb :=
  repeat match goal with
  | |- context [?a <? ?b] => destruct (Z.ltb_spec a b)
  | |- context [?a =? ?b] => destruct (Z.eqb_spec a b)
  end.

Ltac bool_cases :=
  repeat match goal with
  | |- context [Z.testbit ?w ?i] => destruct (Z.testbit w i)
  end; try reflexivity; try discriminate; try lia.

(** Complementing the 30 used bits complements the preamble. *)
Lemma preamble_of_inverted (w : Z) :
  Z.land (Z.shiftr (Z.lxor w 0x3fffffff) 22) 0xff
  = Z.lxor (Z.land (Z.shiftr w 22) 0xff) 0xff.
Proof.
  rewrite mask_ff, mask_30bits. bitwise n Hn.
  split_ltb; bool_cases.
Qed.

Lemma preamble24_of_inverted (w : Z) :
  Z.land (Z.shiftr (Z.lxor w 0xffffff) 16) 0xff
  = Z.lxor (Z.land (Z.shiftr w 16) 0xff) 0xff.
Proof.
  rewrite mask_ff, mask_ffffff. bitwise n Hn.
  split_ltb; bool_cases.
Qed.

(** The two polarities of word 0 carry the same 24 data bits. *)
Lemma data_of_inverted (w : Z) :
  Z.land (Z.shiftr (Z.lxor (Z.lxor w 0x3fffffff) 0x3fffffc0) 6) 0xffffff
  = Z.land (Z.shiftr w 6) 0xffffff.
Proof.
  rewrite mask_ffffff, mask_30bits, mask_data. bitwise n Hn.
  replace (n + 6 - 6) with n by lia.
  split_ltb; bool_cases.
Qed.

Lemma lxor_ff_swap (p q : Z) : Z.lxor p 0xff = q -> p = Z.lxor q 0xff.
Proof.
  intros <-. now rewrite Z.lxor_assoc, Z.lxor_nilpotent, Z.lxor_0_r.
Qed.

Lemma lxor_twice (w m : Z) : Z.lxor (Z.lxor w m) m = w.
Proof. now rewrite Z.lxor_assoc, Z.lxor_nilpotent, Z.lxor_0_r. Qed.

(** A flipped parity bit is invisible above the parity bits ... *)
Lemma flip_above_parity (w k : Z) :
  0 <= k < 6 ->
  Z.land (Z.lxor w (2 ^ k)) 0xffffffc0 = Z.land w 0xffffffc0.
Proof.
  intros Hk. rewrite mask_above_parity. bitwise n Hn.
  destruct (Z.ltb_spec n 6).
  - rewrite (Z.testbit_neg_r _ (n - 6)) by lia. now rewrite !andb_false_r.
  - destruct (Z.eqb_spec k n); [lia|]. now rewrite xorb_false_r.
Qed.

(** ... leaves D30* alone ... *)
Lemma flip_keeps_d30 (w k : Z) :
  0 <= k < 6 ->
  Z.land (Z.lxor w (2 ^ k)) 0x40000000 = Z.land w 0x40000000.
Proof.
  intros Hk. rewrite mask_d30. bitwise n Hn.
  destruct (Z.eqb_spec k n), (Z.eqb_spec 30 n); try lia;
    now rewrite ?xorb_false_r, ?andb_false_r.
Qed.

(** ... and changes the six parity bits. *)
Lemma flip_changes_parity (w k : Z) :
  0 <= k < 6 ->
  Z.land (Z.lxor w (2 ^ k)) 0x3f <> Z.land w 0x3f.
Proof.
  intros Hk E. apply (f_equal (fun z => Z.testbit z k)) in E.
  rewrite mask_3f, !Z.land_spec, Z.lxor_spec, Z.pow2_bits_true in E by lia.
  rewrite Z.testbit_ones_nonneg in E by lia.
  destruct (Z.ltb_spec k 6); [|lia].
  destruct (Z.testbit w k); discriminate.
Qed.

Lemma ten_bits_fit (z : Z) : to_ushort (Z.land z 0x03ff) = Z.land z 0x03ff.
Proof.
  unfold to_ushort. change 0x03ff with (Z.ones 10).
  rewrite Z.land_ones by lia.
  apply Z.mod_small.
  pose proof (Z.mod_pos_bound z (2 ^ 10)). lia.
Qed.

(** ** The claims *)

Section Claims.

Variable LEAP_SECONDS : Z.
Variable LEAP_SECOND_VALID : Z.
Variable isgps_parity : Z -> Z.

Local Abbreviation interpret :=
  (gpsd_interpret_subframe LEAP_SECONDS LEAP_SECOND_VALID).
Local Abbreviation switch :=
  (interpret_switch LEAP_SECONDS LEAP_SECOND_VALID).
Local Abbreviation raw :=
  (gpsd_interpret_subframe_raw LEAP_SECONDS LEAP_SECOND_VALID isgps_parity).
Local Abbreviation checked :=
  (raw_checked LEAP_SECONDS LEAP_SECOND_VALID isgps_parity).

Lemma polarised24_other (words : list Z) (j : nat) :
  j <> 0%nat -> word (polarised24 words) j = word words j.
Proof.
  intros Hj. unfold polarised24.
  destruct (_ =? _); auto. apply word_upd_other; auto.
Qed.

(** With a preamble in either polarity the decoder reaches the [switch]. *)
Lemma interpret_reaches_switch (c : gps_context_t) (svid : Z) (words : list Z) :
  valid_preamble24 (word words 0) ->
  interpret c svid words =
  say [(LOG_IO, Words svid words)]
    (say [(LOG_PROG,
           HandOver (subframe_id words) svid
             (Z.land (Z.shiftr (word words 1) 7) 0x01FFFF)
             (Z.land (Z.shiftr (word words 1) 6) 0x01)
             (Z.land (Z.shiftr (word words 1) 6) 0x01))]
       (switch c svid (subframe_id words) (polarised24 words))).
Proof.
  intros [H|H]; unfold gpsd_interpret_subframe, polarised24, subframe_id;
    rewrite H; cbn -[word upd Z.land Z.shiftr interpret_switch say].
  - reflexivity.
  - rewrite !word_upd_other by lia. reflexivity.
Qed.

(** A subframe 1 leaves a context that differs in the week number only. *)
Lemma interpret_subframe1 (c : gps_context_t) (svid : Z) (words : list Z) :
  valid_preamble24 (word words 0) ->
  subframe_id words = 1 ->
  ctx (interpret c svid words)
  = mkContext (week_field words) (leap_seconds c) (valid c).
Proof.
  intros Hp Hs. rewrite interpret_reaches_switch by assumption.
  unfold interpret_switch. rewrite Hs.
  cbn [Z.eqb Pos.eqb subframe1 say ctx].
  rewrite ten_bits_fit, polarised24_other by lia. reflexivity.
Qed.

(** C7: decoding a subframe 1 stores the ten week-number bits of word 2 in
    the context as they are, whatever their value, and touches nothing else
    of the context; week-number bits 0x100 give week 256. *)
Theorem week_number_stored (c : gps_context_t) (svid : Z) (words : list Z) :
  valid_preamble24 (word words 0) ->
  subframe_id words = 1 ->
  let c' := ctx (interpret c svid words) in
  gps_week c' = week_field words
  /\ leap_seconds c' = leap_seconds c
  /\ valid c' = valid c
  /\ (week_field words = 0x100 -> gps_week c' = 256).
Proof.
  intros Hp Hs. cbv zeta. rewrite interpret_subframe1 by assumption.
  cbn [gps_week leap_seconds valid]. repeat split; auto.
Qed.

(** C10: whatever the context, the satellite and the words, the raw decoder
    returns 0: after a full decode, after a rejected preamble and after a
    parity failure alike. *)
Theorem raw_returns_zero (c : gps_context_t) (svid : Z) (words : list Z) :
  fst (raw c svid words) = 0.
Proof.
  unfold gpsd_interpret_subframe_raw, raw_checked.
  repeat match goal with
  | |- context [if ?b then _ else _] => destruct b
  | |- context [match ?x with inl _ => _ | inr _ => _ end] =>
      destruct x as [?|[? [[? ?] ?]]]
  end; reflexivity.
Qed.

(** *** Leap seconds *)

Lemma byte2_field (w : Z) :
  Z.shiftr (Z.land w 0xff0000) 16 = Z.land (Z.shiftr w 16) 0xff.
Proof.
  rewrite mask_ff. change 0xff0000 with (Z.shiftl (Z.ones 8) 16).
  bitwise n Hn. replace (n + 16 - 16) with n by lia. reflexivity.
Qed.

Lemma byte2_field_range (w : Z) : 0 <= Z.shiftr (Z.land w 0xff0000) 16 < 256.
Proof.
  rewrite byte2_field, mask_ff, Z.land_ones by lia.
  apply Z.mod_pos_bound. reflexivity.
Qed.

Lemma to_uint_small (z : Z) : 0 <= z < 2 ^ 32 -> to_uint z = z.
Proof. intros H. unfold to_uint. now apply Z.mod_small. Qed.

Lemma to_int_small (z : Z) : 0 <= z < 2 ^ 31 -> to_int z = z.
Proof.
  intros H. unfold to_int. rewrite Z.mod_small by lia.
  destruct (Z.ltb_spec z (2 ^ 31)); lia.
Qed.

Lemma flag_cleared (v f : Z) : Z.land (Z.land v (Z.lnot f)) f = 0.
Proof.
  apply Z.bits_inj'; intros n Hn.
  rewrite !Z.land_spec, Z.lnot_spec, Z.bits_0 by lia.
  destruct (Z.testbit v n), (Z.testbit f n); reflexivity.
Qed.

Lemma flag_set (v f : Z) : Z.land (Z.lor v f) f = f.
Proof.
  apply Z.bits_inj'; intros n Hn.
  rewrite Z.land_spec, Z.lor_spec.
  destruct (Z.testbit v n), (Z.testbit f n); reflexivity.
Qed.

(** What page 56 does to the context, as the code has it: the decoded
    count is compared with the constant [LEAP_SECONDS]. *)
Lemma page56_context (c : gps_context_t) (words : list Z) :
  0 <= LEAP_SECONDS < 2 ^ 31 ->
  let c' := fst (page56 LEAP_SECONDS LEAP_SECOND_VALID c words) in
  gps_week c' = gps_week c
  /\ (leap_field words < LEAP_SECONDS ->
      leap_seconds c' = LEAP_SECONDS
      /\ Z.land (valid c') LEAP_SECOND_VALID = 0)
  /\ (LEAP_SECONDS <= leap_field words ->
      leap_seconds c' = leap_field words
      /\ Z.land (valid c') LEAP_SECOND_VALID = LEAP_SECOND_VALID).
Proof.
  intros HL. unfold page56, leap_field.
  pose proof (byte2_field_range (word words 8)) as Hb.
  rewrite to_uint_small by lia.
  destruct (Z.gtb_spec LEAP_SECONDS (Z.shiftr (Z.land (word words 8) 0xff0000) 16));
    cbn [fst gps_week leap_seconds valid]; (split; [reflexivity|]); split;
    intros; try lia.
  - rewrite to_int_small by lia. split; [reflexivity | apply flag_cleared].
  - rewrite to_int_small by lia. split; [reflexivity | apply flag_set].
Qed.

(** A subframe 4 page 56 leaves the context that [page56] computes. *)
Lemma interpret_page56 (c : gps_context_t) (svid : Z) (words : list Z) :
  valid_preamble24 (word words 0) ->
  subframe_id words = 4 ->
  page_id words = 56 ->
  ctx (interpret c svid words)
  = fst (page56 LEAP_SECONDS LEAP_SECOND_VALID c (polarised24 words)).
Proof.
  intros Hp Hs Hg. rewrite interpret_reaches_switch by assumption.
  unfold interpret_switch, subframe4. rewrite Hs.
  fold (page_id (polarised24 words)).
  assert (Hg' : page_id (polarised24 words) = 56)
    by (unfold page_id; rewrite polarised24_other by lia; exact Hg).
  rewrite Hg'. cbn [Z.eqb Pos.eqb].
  destruct (page56 _ _ c (polarised24 words)) as [c1 t1]. reflexivity.
Qed.

(** C1, as the code has it: on a subframe 4 page 56 the decoded leap second
    count is compared with the compiled-in constant [LEAP_SECONDS], not with
    the count held in the context.  Below the constant, the context gets the
    constant and loses its validity flag; otherwise it gets the decoded count
    and the flag.  The week number is left alone. *)
Theorem leap_below_constant_resets
    (c : gps_context_t) (svid : Z) (words : list Z) :
  0 <= LEAP_SECONDS < 2 ^ 31 ->
  valid_preamble24 (word words 0) ->
  subframe_id words = 4 ->
  page_id words = 56 ->
  let c' := ctx (interpret c svid words) in
  gps_week c' = gps_week c
  /\ (leap_field words < LEAP_SECONDS ->
      leap_seconds c' = LEAP_SECONDS
      /\ Z.land (valid c') LEAP_SECOND_VALID = 0)
  /\ (LEAP_SECONDS <= leap_field words ->
      leap_seconds c' = leap_field words
      /\ Z.land (valid c') LEAP_SECOND_VALID = LEAP_SECOND_VALID).
Proof.
  intros HL Hp Hs Hg. cbv zeta. rewrite interpret_page56 by assumption.
  pose proof (page56_context c (polarised24 words) HL) as H.
  unfold leap_field in *. rewrite polarised24_other in H by lia.
  exact H.
Qed.

(** *** Polarity of word 0 *)

Lemma data_of_either_inversion (w : Z) :
  Z.land (Z.shiftr (Z.lxor w 0x3fffffc0) 6) 0xffffff
  = Z.land (Z.shiftr (Z.lxor w 0x3fffffff) 6) 0xffffff.
Proof.
  rewrite mask_ffffff, mask_30bits, mask_data. bitwise n Hn.
  replace (n + 6 - 6) with n by lia.
  split_ltb; bool_cases.
Qed.

(** [raw_checked] looks at word 0 through its 24 data bits only. *)
Lemma checked_word0 (c : gps_context_t) (svid w w' : Z) (rest : list Z) :
  Z.land (Z.shiftr w 6) 0xffffff = Z.land (Z.shiftr w' 6) 0xffffff ->
  checked c svid (w :: rest) = checked c svid (w' :: rest).
Proof.
  intros H. unfold raw_checked.
  change (word (w :: rest) 0) with w. change (word (w' :: rest) 0) with w'.
  cbn [upd]. now rewrite H.
Qed.

Lemma raw_inverted (c : gps_context_t) (svid : Z) (words : list Z) :
  Z.land (Z.shiftr (word words 0) 22) 0xff = 0x8b ->
  raw c svid words =
  (fst (checked c svid (upd 0 (Z.lxor (word words 0) 0x3fffffc0) words)),
   say [(LOG_IO, RawWords words)]
     (snd (checked c svid (upd 0 (Z.lxor (word words 0) 0x3fffffc0) words)))).
Proof.
  intros H. unfold gpsd_interpret_subframe_raw. rewrite H.
  change (139 =? 139) with true. cbv iota zeta.
  now destruct (checked _ _ _).
Qed.

Lemma raw_upright (c : gps_context_t) (svid : Z) (words : list Z) :
  Z.land (Z.shiftr (word words 0) 22) 0xff = 0x74 ->
  raw c svid words =
  (fst (checked c svid words),
   say [(LOG_IO, RawWords words)] (snd (checked c svid words))).
Proof.
  intros H. unfold gpsd_interpret_subframe_raw. rewrite H.
  change (116 =? 139) with false. change (negb (116 =? 116)) with false.
  cbv iota zeta. now destruct (checked _ _ _).
Qed.

Lemma raw_rejected (c : gps_context_t) (svid : Z) (words : list Z) :
  Z.land (Z.shiftr (word words 0) 22) 0xff <> 0x8b ->
  Z.land (Z.shiftr (word words 0) 22) 0xff <> 0x74 ->
  raw c svid words =
  (0, say [(LOG_IO, RawWords words)]
        (mkOutcome c words
           [(LOG_IO,
             RawBadPreamble (Z.land (Z.shiftr (word words 0) 22) 0xff))])).
Proof.
  intros H1 H2. unfold gpsd_interpret_subframe_raw.
  destruct (Z.eqb_spec (Z.land (Z.shiftr (word words 0) 22) 0xff) 0x8b);
    [contradiction|].
  destruct (Z.eqb_spec (Z.land (Z.shiftr (word words 0) 22) 0xff) 0x74);
    [contradiction|].
  reflexivity.
Qed.

Lemma polarised24_inverted (w0 : Z) (rest : list Z) :
  valid_preamble24 w0 ->
  polarised24 (Z.lxor w0 0xffffff :: rest) = polarised24 (w0 :: rest).
Proof.
  unfold polarised24.
  change (word (Z.lxor w0 0xffffff :: rest) 0) with (Z.lxor w0 0xffffff).
  change (word (w0 :: rest) 0) with w0.
  rewrite preamble24_of_inverted. intros [H|H]; rewrite H; cbn [upd].
  - change (Z.lxor 116 255 =? 139) with true. change (116 =? 139) with false.
    cbv iota. now rewrite lxor_twice.
  - change (Z.lxor 139 255 =? 139) with false. change (139 =? 139) with true.
    reflexivity.
Qed.

Lemma inverted_raw_alike (c : gps_context_t) (svid w0 : Z) (rest : list Z) :
  fst (raw c svid (Z.lxor w0 0x3fffffff :: rest)) = fst (raw c svid (w0 :: rest))
  /\ ctx (snd (raw c svid (Z.lxor w0 0x3fffffff :: rest)))
     = ctx (snd (raw c svid (w0 :: rest)))
  /\ (valid_preamble30 w0 ->
      words_out (snd (raw c svid (Z.lxor w0 0x3fffffff :: rest)))
      = words_out (snd (raw c svid (w0 :: rest)))
      /\ tl (log (snd (raw c svid (Z.lxor w0 0x3fffffff :: rest))))
         = tl (log (snd (raw c svid (w0 :: rest))))).
Proof.
  set (p := Z.land (Z.shiftr w0 22) 0xff).
    assert (Hb : Z.land (Z.shiftr (word (Z.lxor w0 0x3fffffff :: rest) 0) 22) 0xff
                 = Z.lxor p 0xff) by apply preamble_of_inverted.
    assert (Ha : Z.land (Z.shiftr (word (w0 :: rest) 0) 22) 0xff = p)
      by reflexivity.
    destruct (Z.eq_dec p 0x8b) as [E|N1]; [|destruct (Z.eq_dec p 0x74) as [E|N2]].
    + rewrite (raw_inverted c svid (w0 :: rest)) by (rewrite Ha; exact E).
      rewrite (raw_upright c svid (Z.lxor w0 0x3fffffff :: rest))
        by (rewrite Hb, E; reflexivity).
      cbn [upd].
      rewrite (checked_word0 c svid (Z.lxor w0 0x3fffffff)
                 (Z.lxor (word (w0 :: rest) 0) 0x3fffffc0))
        by (symmetry; apply data_of_either_inversion).
      generalize (checked c svid (Z.lxor (word (w0 :: rest) 0) 0x3fffffc0 :: rest)).
      intros x. cbn [fst snd say ctx words_out log tl app].
      split; [|split; [|intros _; split]]; reflexivity.
    + rewrite (raw_upright c svid (w0 :: rest)) by (rewrite Ha; exact E).
      rewrite (raw_inverted c svid (Z.lxor w0 0x3fffffff :: rest))
        by (rewrite Hb, E; reflexivity).
      cbn [upd].
      rewrite (checked_word0 c svid
                 (Z.lxor (word (Z.lxor w0 0x3fffffff :: rest) 0) 0x3fffffc0) w0)
        by apply data_of_inverted.
      generalize (checked c svid (w0 :: rest)).
      intros x. cbn [fst snd say ctx words_out log tl app].
      split; [|split; [|intros _; split]]; reflexivity.
    + rewrite (raw_rejected c svid (w0 :: rest)) by (rewrite Ha; assumption).
      rewrite (raw_rejected c svid (Z.lxor w0 0x3fffffff :: rest))
        by (rewrite Hb; intros X; apply lxor_ff_swap in X; contradiction).
      cbn [fst snd say ctx].
      split; [reflexivity|split; [reflexivity|]].
      intros [H|H]; fold p in H; contradiction.
Qed.

Lemma inverted_stripped_alike
    (c : gps_context_t) (svid w0 : Z) (rest : list Z) :
  ctx (interpret c svid (Z.lxor w0 0xffffff :: rest))
  = ctx (interpret c svid (w0 :: rest))
  /\ (valid_preamble24 w0 ->
      words_out (interpret c svid (Z.lxor w0 0xffffff :: rest))
      = words_out (interpret c svid (w0 :: rest))
      /\ tl (log (interpret c svid (Z.lxor w0 0xffffff :: rest)))
         = tl (log (interpret c svid (w0 :: rest)))).
Proof.
  assert (V : valid_preamble24 w0 ->
                interpret c svid (Z.lxor w0 0xffffff :: rest)
                = say [(LOG_IO, Words svid (Z.lxor w0 0xffffff :: rest))]
                    (say [(LOG_PROG,
                           HandOver (subframe_id (w0 :: rest)) svid
                             (Z.land (Z.shiftr (word (w0 :: rest) 1) 7) 0x01FFFF)
                             (Z.land (Z.shiftr (word (w0 :: rest) 1) 6) 0x01)
                             (Z.land (Z.shiftr (word (w0 :: rest) 1) 6) 0x01))]
                       (switch c svid (subframe_id (w0 :: rest))
                          (polarised24 (w0 :: rest))))).
    { intros Hv. rewrite interpret_reaches_switch.
      - rewrite polarised24_inverted by exact Hv.
        unfold subframe_id. rewrite !word_tail. reflexivity.
      - unfold valid_preamble24 in *.
        change (word (Z.lxor w0 0xffffff :: rest) 0) with (Z.lxor w0 0xffffff).
        rewrite preamble24_of_inverted.
        destruct Hv as [H|H]; rewrite H; [right|left]; reflexivity. }
    set (p := Z.land (Z.shiftr w0 16) 0xff).
    assert (D : valid_preamble24 w0 \/ (p <> 0x74 /\ p <> 0x8b))
      by (unfold valid_preamble24; fold p; lia).
    destruct D as [Hv|[N1 N2]].
    + rewrite (V Hv), (interpret_reaches_switch c svid (w0 :: rest) Hv).
      cbn [say ctx words_out log tl app].
      split; [|intros _; split]; reflexivity.
    + split.
      * unfold gpsd_interpret_subframe.
        change (word (Z.lxor w0 0xffffff :: rest) 0) with (Z.lxor w0 0xffffff).
        change (word (w0 :: rest) 0) with w0.
        rewrite preamble24_of_inverted. fold p.
        destruct (Z.eqb_spec p 0x8b) as [E|_]; [contradiction|].
        destruct (Z.eqb_spec p 0x74) as [E|_]; [contradiction|].
        destruct (Z.eqb_spec (Z.lxor p 0xff) 0x8b) as [E1|_];
          [apply lxor_ff_swap in E1; contradiction|].
        destruct (Z.eqb_spec (Z.lxor p 0xff) 0x74) as [E2|_];
          [apply lxor_ff_swap in E2; contradiction|].
        cbn [negb say ctx]. reflexivity.
      * intros [H|H]; fold p in H; contradiction.
Qed.

(** C8: a subframe decodes the same whether its word 0 comes inverted (all
    used bits complemented) or not: same return value and same context
    always, and, when the preamble is one of the two patterns, the same
    array and the same diagnostics after the echo of the input.  This holds
    for the raw decoder (30 used bits) and for the decoder of stripped words
    (24 used bits). *)
Theorem inverted_word0_decodes_alike
    (c : gps_context_t) (svid w0 : Z) (rest : list Z) :
  (let a := raw c svid (w0 :: rest) in
   let b := raw c svid (Z.lxor w0 0x3fffffff :: rest) in
   fst b = fst a
   /\ ctx (snd b) = ctx (snd a)
   /\ (valid_preamble30 w0 ->
       words_out (snd b) = words_out (snd a)
       /\ tl (log (snd b)) = tl (log (snd a))))
  /\
  (let a := interpret c svid (w0 :: rest) in
   let b := interpret c svid (Z.lxor w0 0xffffff :: rest) in
   ctx b = ctx a
   /\ (valid_preamble24 w0 ->
       words_out b = words_out a /\ tl (log b) = tl (log a))).
Proof.
  split; cbv zeta.
  - apply inverted_raw_alike.
  - apply inverted_stripped_alike.
Qed.

(** *** Parity *)

Lemma upd_self (i : nat) (a : list Z) : upd i (word a i) a = a.
Proof.
  unfold word; revert i; induction a as [|h t IH]; intros [|i]; simpl; auto.
  now rewrite IH.
Qed.

(** One turn of the parity loop. *)
Lemma check_words_step (n i : nat) (words : list Z) :
  (i < length words)%nat ->
  check_words isgps_parity (S n) i words =
  if isgps_parity (uninvert (word words i))
     =? Z.land (uninvert (word words i)) 0x3f
  then check_words isgps_parity n (S i)
         (upd i (Z.land (Z.shiftr (uninvert (word words i)) 6) 0xffffff) words)
  else inr (upd i (uninvert (word words i)) words,
            (i, isgps_parity (uninvert (word words i)),
             Z.land (uninvert (word words i)) 0x1)).
Proof.
  intros Hi. cbn [check_words]. unfold uninvert.
  destruct (Z.land (word words i) 0x40000000 =? 0); cbn [negb Z.eqb].
  - rewrite upd_self.
    destruct (isgps_parity (word words i) =? Z.land (word words i) 0x3f);
      reflexivity.
  - rewrite word_upd_same by assumption.
    destruct (isgps_parity _ =? _); cbn [negb]; [|reflexivity].
    now rewrite upd_twice.
Qed.

(** The loop runs to its end when every word it visits has good parity,
    and leaves in each of them its data bits... *)
Lemma check_words_pass (n : nat) : forall (i : nat) (words : list Z),
  (i + n <= length words)%nat ->
  (forall j, (i <= j < i + n)%nat -> parity_ok isgps_parity (word words j)) ->
  exists words',
    check_words isgps_parity n i words = inl words'
    /\ length words' = length words
    /\ (forall j, (i <= j < i + n)%nat ->
        word words' j = data_bits (word words j))
    /\ (forall j, ~ (i <= j < i + n)%nat -> word words' j = word words j).
Proof.
  induction n as [|n IH]; intros i words Hlen Hok.
  - exists words. repeat split; auto. intros j Hj. lia.
  - rewrite check_words_step by lia.
    rewrite (Hok i) by lia. rewrite Z.eqb_refl.
    fold (data_bits (word words i)).
    destruct (IH (S i) (upd i (data_bits (word words i)) words))
      as (words' & E & Hl & Hin & Hout).
    + rewrite length_upd. lia.
    + intros j Hj. rewrite word_upd_other by lia. apply Hok. lia.
    + exists words'. split; [exact E|]. rewrite length_upd in Hl.
      split; [exact Hl|]. split.
      * intros j Hj. destruct (Nat.eq_dec j i) as [->|Hne].
        -- rewrite Hout by lia. apply word_upd_same. lia.
        -- rewrite Hin by lia. now rewrite word_upd_other by lia.
      * intros j Hj. rewrite Hout by lia. apply word_upd_other. lia.
Qed.

(** ... and stops at the first word that has not. *)
Lemma check_words_fail (n : nat) : forall (i k : nat) (words : list Z),
  (i <= k < i + n)%nat ->
  (k < length words)%nat ->
  (forall j, (i <= j < k)%nat -> parity_ok isgps_parity (word words j)) ->
  ~ parity_ok isgps_parity (word words k) ->
  exists words',
    check_words isgps_parity n i words =
    inr (words', (k, isgps_parity (uninvert (word words k)),
                  Z.land (uninvert (word words k)) 0x1)).
Proof.
  induction n as [|n IH]; intros i k words Hk Hlen Hok Hbad; [lia|].
  rewrite check_words_step by lia.
  destruct (Nat.eq_dec i k) as [->|Hne].
  - destruct (Z.eqb_spec (isgps_parity (uninvert (word words k)))
                (Z.land (uninvert (word words k)) 0x3f)) as [E|_];
      [contradiction|].
    eexists; reflexivity.
  - rewrite (Hok i) by lia. rewrite Z.eqb_refl.
    destruct (IH (S i) k
                (upd i (Z.land (Z.shiftr (uninvert (word words i)) 6) 0xffffff)
                   words)) as [words' Hw].
    + lia.
    + rewrite length_upd. lia.
    + intros j Hj. rewrite word_upd_other by lia. apply Hok. lia.
    + rewrite word_upd_other by lia. exact Hbad.
    + rewrite word_upd_other in Hw by lia. eexists; exact Hw.
Qed.

(** The reports of the decoder of stripped words never speak of parity. *)
Lemma interpret_silent_on_parity
    (c : gps_context_t) (svid : Z) (words : list Z) (i : nat) (p l : Z) :
  ~ In (LOG_IO, RawParityFail i p l) (log (interpret c svid words)).
Proof.
  unfold gpsd_interpret_subframe, interpret_switch, subframe1, subframe2,
    subframe3, subframe4, subframe5, page55, page56, say.
  repeat match goal with
  | |- context [if ?b then _ else _] => destruct b
  end; cbn [log app In]; intuition discriminate.
Qed.

Lemma preamble_of_data_inverted (w : Z) :
  Z.land (Z.shiftr (Z.lxor w 0x3fffffc0) 22) 0xff
  = Z.lxor (Z.land (Z.shiftr w 22) 0xff) 0xff.
Proof.
  rewrite mask_ff, mask_data. bitwise n Hn.
  split_ltb; bool_cases.
Qed.

Lemma preamble_of_data (w : Z) :
  Z.land (Z.shiftr (Z.land (Z.shiftr w 6) 0xffffff) 16) 0xff
  = Z.land (Z.shiftr w 22) 0xff.
Proof.
  rewrite mask_ff, mask_ffffff. bitwise n Hn.
  replace (n + 16 + 6) with (n + 22) by lia.
  split_ltb; bool_cases.
Qed.

(** With a preamble in either polarity the raw decoder goes on to the
    parity loop, over an array that differs from the input in word 0 only;
    there the preamble now stands upright. *)
Lemma raw_reaches_loop (c : gps_context_t) (svid : Z) (words : list Z) :
  (0 < length words)%nat ->
  valid_preamble30 (word words 0) ->
  exists words0,
    raw c svid words =
    (fst (checked c svid words0),
     say [(LOG_IO, RawWords words)] (snd (checked c svid words0)))
    /\ length words0 = length words
    /\ Z.land (Z.shiftr (word words0 0) 22) 0xff = 0x74
    /\ forall j, j <> 0%nat -> word words0 j = word words j.
Proof.
  intros Hlen [H|H].
  - exists words. rewrite raw_upright by assumption. auto.
  - exists (upd 0 (Z.lxor (word words 0) 0x3fffffc0) words).
    rewrite raw_inverted by assumption. split; [reflexivity|].
    split; [apply length_upd|]. split.
    + rewrite word_upd_same by assumption.
      rewrite preamble_of_data_inverted, H. reflexivity.
    + intros j Hj. apply word_upd_other. auto.
Qed.

Lemma checked_pass (c : gps_context_t) (svid : Z) (words : list Z) :
  length words = 10%nat ->
  (forall j, (1 <= j <= 9)%nat -> parity_ok isgps_parity (word words j)) ->
  exists words',
    checked c svid words = (0, interpret c svid words')
    /\ word words' 0 = Z.land (Z.shiftr (word words 0) 6) 0xffffff
    /\ forall j, (1 <= j <= 9)%nat ->
         word words' j = data_bits (word words j).
Proof.
  intros Hlen Hok. unfold raw_checked.
  change (10 - 1)%nat with 9%nat.
  destruct (check_words_pass 9 1
              (upd 0 (Z.land (Z.shiftr (word words 0) 6) 0xffffff) words))
    as (words' & Hw & _ & Hin & Hout).
  - rewrite length_upd. lia.
  - intros j Hj. rewrite word_upd_other by lia. apply Hok. lia.
  - rewrite Hw. exists words'. split; [reflexivity|]. split.
    + rewrite Hout by lia. apply word_upd_same. lia.
    + intros j Hj. rewrite Hin by lia. now rewrite word_upd_other by lia.
Qed.

(** A raw subframe with a preamble and good parity throughout is handed
    over, as its data bits, to the decoder of stripped words. *)
Lemma raw_decodes (c : gps_context_t) (svid : Z) (words : list Z) :
  length words = 10%nat ->
  valid_preamble30 (word words 0) ->
  (forall j, (1 <= j <= 9)%nat -> parity_ok isgps_parity (word words j)) ->
  exists words',
    raw c svid words
    = (0, say [(LOG_IO, RawWords words)] (interpret c svid words'))
    /\ Z.land (Z.shiftr (word words' 0) 16) 0xff = 0x74
    /\ forall j, (1 <= j <= 9)%nat ->
         word words' j = data_bits (word words j).
Proof.
  intros Hlen Hpre Hok.
  destruct (raw_reaches_loop c svid words) as (w0 & -> & Hl0 & Hp0 & Hw0);
    [lia|exact Hpre|].
  destruct (checked_pass c svid w0) as (w' & -> & H0 & Hj).
  - congruence.
  - intros j Hj. rewrite Hw0 by lia. apply Hok, Hj.
  - exists w'. split; [reflexivity|]. split.
    + rewrite H0, preamble_of_data. exact Hp0.
    + intros j Hj'. rewrite Hj by assumption. now rewrite Hw0 by lia.
Qed.

(** X6: the week number as the raw decoder stores it.  Ten raw words with
    a preamble and good parity whose data bits say subframe 1 leave a
    context that holds the ten week bits of the data of word 2, with the
    leap second count and the flags it held before. *)
Lemma raw_week_number_stored (c : gps_context_t) (svid : Z) (words : list Z) :
  length words = 10%nat ->
  valid_preamble30 (word words 0) ->
  (forall j, (1 <= j <= 9)%nat -> parity_ok isgps_parity (word words j)) ->
  Z.land (Z.shiftr (data_bits (word words 1)) 2) 0x07 = 1 ->
  ctx (snd (raw c svid words))
  = mkContext (Z.land (Z.shiftr (data_bits (word words 2)) 14) 0x03ff)
      (leap_seconds c) (valid c).
Proof.
  intros Hlen Hpre Hok Hs.
  destruct (raw_decodes c svid words Hlen Hpre Hok) as (w' & -> & Hp & Hj).
  cbn [snd say ctx]. rewrite interpret_subframe1.
  - unfold week_field. now rewrite Hj by lia.
  - left. exact Hp.
  - unfold subframe_id. now rewrite Hj by lia.
Qed.

(** X7: the leap seconds as the raw decoder stores them.  Ten raw words
    with a preamble and good parity whose data bits say subframe 4 page 56
    leave the count that the data of word 8 carries, with the flag set,
    when that count is [LEAP_SECONDS] at least, and [LEAP_SECONDS], with
    the flag cleared, when it is less. *)
Lemma raw_leap_seconds_stored (c : gps_context_t) (svid : Z) (words : list Z) :
  0 <= LEAP_SECONDS < 2 ^ 31 ->
  length words = 10%nat ->
  valid_preamble30 (word words 0) ->
  (forall j, (1 <= j <= 9)%nat -> parity_ok isgps_parity (word words j)) ->
  Z.land (Z.shiftr (data_bits (word words 1)) 2) 0x07 = 4 ->
  Z.shiftr (Z.land (data_bits (word words 2)) 0x3F0000) 16 = 56 ->
  let leap := Z.shiftr (Z.land (data_bits (word words 8)) 0xff0000) 16 in
  let c' := ctx (snd (raw c svid words)) in
  (leap < LEAP_SECONDS ->
   leap_seconds c' = LEAP_SECONDS /\ Z.land (valid c') LEAP_SECOND_VALID = 0)
  /\ (LEAP_SECONDS <= leap ->
      leap_seconds c' = leap
      /\ Z.land (valid c') LEAP_SECOND_VALID = LEAP_SECOND_VALID).
Proof.
  intros HL Hlen Hpre Hok Hs Hg. cbv zeta.
  destruct (raw_decodes c svid words Hlen Hpre Hok) as (w' & -> & Hp & Hj).
  cbn [snd say ctx]. rewrite interpret_page56.
  - destruct (page56_context c (polarised24 w') HL) as (_ & Hlow & Hhigh).
    unfold leap_field in Hlow, Hhigh.
    rewrite polarised24_other, Hj in Hlow, Hhigh by lia.
    split; assumption.
  - left. exact Hp.
  - unfold subframe_id. now rewrite Hj by lia.
  - unfold page_id. now rewrite Hj by lia.
Qed.

Lemma checked_fail (c : gps_context_t) (svid : Z) (words : list Z) (k : nat) :
  length words = 10%nat ->
  (1 <= k <= 9)%nat ->
  (forall j, (1 <= j < k)%nat -> parity_ok isgps_parity (word words j)) ->
  ~ parity_ok isgps_parity (word words k) ->
  exists words',
    checked c svid words =
    (0, mkOutcome c words'
          [(LOG_IO,
            RawParityFail k (isgps_parity (uninvert (word words k)))
              (Z.land (uninvert (word words k)) 0x1))]).
Proof.
  intros Hlen Hk Hok Hbad. unfold raw_checked.
  change (10 - 1)%nat with 9%nat.
  destruct (check_words_fail 9 1 k
              (upd 0 (Z.land (Z.shiftr (word words 0) 6) 0xffffff) words))
    as [words' Hw].
  - lia.
  - rewrite length_upd. lia.
  - intros j Hj. rewrite word_upd_other by lia. apply Hok. lia.
  - rewrite word_upd_other by lia. exact Hbad.
  - rewrite Hw, word_upd_other by lia. eexists; reflexivity.
Qed.

Section ParityFunction.

(** What the decoder needs of [isgps_parity]: the code it computes is a
    function of the data bits and of D29*, D30* (bits 6 to 31), not of the
    six parity bits the word came with. *)
Hypothesis parity_reads_bits_6_to_31 :
  forall w, isgps_parity w = isgps_parity (Z.land w 0xffffffc0).

Lemma uninvert_flip (w k : Z) :
  0 <= k < 6 -> uninvert (Z.lxor w (2 ^ k)) = Z.lxor (uninvert w) (2 ^ k).
Proof.
  intros Hk. unfold uninvert. rewrite flip_keeps_d30 by assumption.
  destruct (_ =? _); [reflexivity|].
  rewrite !Z.lxor_assoc. f_equal. apply Z.lxor_comm.
Qed.

Lemma flipped_parity_bad (w k : Z) :
  0 <= k < 6 -> parity_ok isgps_parity w -> ~ parity_ok isgps_parity (Z.lxor w (2 ^ k)).
Proof.
  unfold parity_ok. intros Hk Hok. rewrite uninvert_flip by assumption.
  rewrite parity_reads_bits_6_to_31, flip_above_parity by assumption.
  rewrite <- parity_reads_bits_6_to_31, Hok.
  apply not_eq_sym, flip_changes_parity. assumption.
Qed.

(** C4: take ten raw words with a preamble in either polarity whose words
    1 to 9, once un-inverted, carry the parity that [isgps_parity]
    recomputes.  Then the decoder reports no parity failure; and with any
    one parity bit of any one of words 1 to 9 flipped, it reports a parity
    failure for exactly that word, reports nothing after it and leaves the
    context alone. *)
Theorem parity_failure_iff_bits_disagree
    (c : gps_context_t) (svid : Z) (words : list Z) :
  length words = 10%nat ->
  valid_preamble30 (word words 0) ->
  (forall i, (1 <= i <= 9)%nat -> parity_ok isgps_parity (word words i)) ->
  (forall i p l,
      ~ In (LOG_IO, RawParityFail i p l) (log (snd (raw c svid words))))
  /\
  (forall i k, (1 <= i <= 9)%nat -> 0 <= k < 6 ->
     let flipped := upd i (Z.lxor (word words i) (2 ^ k)) words in
     exists p l,
       log (snd (raw c svid flipped))
       = [(LOG_IO, RawWords flipped); (LOG_IO, RawParityFail i p l)]
       /\ ctx (snd (raw c svid flipped)) = c).
Proof.
  intros Hlen Hpre Hok. split.
  - intros i p l.
    destruct (raw_decodes c svid words Hlen Hpre Hok) as (w' & -> & _).
    cbn [snd say log app In]. intros [H|H]; [discriminate|].
    revert H. apply interpret_silent_on_parity.
  - intros i k Hi Hk flipped.
    assert (Hpre' : valid_preamble30 (word flipped 0))
      by (unfold flipped; rewrite word_upd_other by lia; exact Hpre).
    assert (Hlf : length flipped = 10%nat)
      by (unfold flipped; rewrite length_upd; exact Hlen).
    destruct (raw_reaches_loop c svid flipped)
      as (w0 & -> & Hl0 & _ & Hw0); [lia|exact Hpre'|].
    destruct (checked_fail c svid w0 i) as [w' ->].
    + congruence.
    + exact Hi.
    + intros j Hj. rewrite Hw0 by lia. unfold flipped.
      rewrite word_upd_other by lia. apply Hok. lia.
    + rewrite Hw0 by lia. unfold flipped.
      rewrite word_upd_same by lia.
      apply flipped_parity_bad; [exact Hk | apply Hok, Hi].
    + eexists _, _. cbn [snd say log app ctx]. split; reflexivity.
Qed.

End ParityFunction.

End Claims.

(** ** Concrete subframes *)

(** C1, the claim as worded, fails.  With [LEAP_SECONDS] = 15 and a context
    holding 20 valid leap seconds, a page 56 that announces 17 is below what
    the context holds; yet the decoder stores 17 and keeps the flag up. *)
Lemma leap_regression_not_rejected :
  let c' := ctx (gpsd_interpret_subframe 15 1 ctx20 7 (page56_words 17)) in
  valid_preamble24 (word (page56_words 17) 0)
  /\ subframe_id (page56_words 17) = 4
  /\ page_id (page56_words 17) = 56
  /\ leap_field (page56_words 17) < leap_seconds ctx20
  /\ ~ (leap_seconds c' = leap_seconds ctx20 /\ Z.land (valid c') 1 = 0).
Proof.
  cbv zeta. split; [left; reflexivity|].
  split; [reflexivity|]. split; [reflexivity|]. split; [reflexivity|].
  vm_compute. intros [H _]. discriminate H.
Qed.

(** Nor is there a value of the constant for which the claim would hold:
    a page 56 announcing 0 leap seconds to a context that holds
    [LEAP_SECONDS + 1] leaves it with [LEAP_SECONDS]. *)
Lemma leap_regression_never_keeps_context (LEAP_SECONDS LEAP_SECOND_VALID : Z) :
  0 <= LEAP_SECONDS < 2 ^ 31 ->
  let c := mkContext 0 (LEAP_SECONDS + 1) LEAP_SECOND_VALID in
  let c' := ctx (gpsd_interpret_subframe LEAP_SECONDS LEAP_SECOND_VALID c 7
                   (page56_words 0)) in
  leap_field (page56_words 0) < leap_seconds c
  /\ leap_seconds c' <> leap_seconds c.
Proof.
  intros HL c c'. unfold c'.
  rewrite interpret_page56 by (try reflexivity; left; reflexivity).
  destruct (page56_context LEAP_SECONDS LEAP_SECOND_VALID c
              (polarised24 (page56_words 0)) HL) as (_ & Hlow & Hhigh).
  change (leap_field (polarised24 (page56_words 0))) with 0 in *.
  change (leap_field (page56_words 0)) with 0.
  change (leap_seconds c) with (LEAP_SECONDS + 1).
  split; [lia|].
  destruct (Z.eq_dec LEAP_SECONDS 0) as [E|N].
  - destruct Hhigh as [H _]; lia.
  - destruct Hlow as [H _]; lia.
Qed.

Lemma leap_below_constant_resets_witness :
  let c' := ctx (gpsd_interpret_subframe 15 1 ctx20 7 (page56_words 5)) in
  leap_seconds c' = 15 /\ Z.land (valid c') 1 = 0.
Proof.
  destruct (leap_below_constant_resets 15 1 ctx20 7 (page56_words 5))
    as (_ & H & _).
  - lia.
  - left; reflexivity.
  - reflexivity.
  - reflexivity.
  - apply H. reflexivity.
Defined.

Lemma week_number_stored_witness :
  gps_week (ctx (gpsd_interpret_subframe 15 1 ctx20 7 week256_words)) = 256.
Proof.
  destruct (week_number_stored 15 1 ctx20 7 week256_words)
    as (_ & _ & _ & H).
  - left; reflexivity.
  - reflexivity.
  - apply H. reflexivity.
Defined.

(** The standard parity code reads bits 6 to 31 only: every mask has its
    low six bits clear. *)
Lemma isgps_parity_std_reads_bits_6_to_31 (w : Z) :
  isgps_parity_std w = isgps_parity_std (Z.land w 0xffffffc0).
Proof.
  unfold isgps_parity_std, parity_masks. cbn [fold_left].
  rewrite <- !Z.land_assoc.
  change (Z.land 0xffffffc0 0xbb1f3480) with 0xbb1f3480.
  change (Z.land 0xffffffc0 0x5d8f9a40) with 0x5d8f9a40.
  change (Z.land 0xffffffc0 0xaec7cd00) with 0xaec7cd00.
  change (Z.land 0xffffffc0 0x5763e680) with 0x5763e680.
  change (Z.land 0xffffffc0 0x6bb1f340) with 0x6bb1f340.
  change (Z.land 0xffffffc0 0x8b7a89c0) with 0x8b7a89c0.
  reflexivity.
Qed.

Lemma raw_page56_parity_ok (i : nat) :
  (1 <= i <= 9)%nat -> parity_ok isgps_parity_std (word raw_page56_words i).
Proof.
  intros Hi.
  assert (H : In i (seq 1 9)) by (apply in_seq; lia).
  cbn [seq In] in H.
  repeat (destruct H as [<-|H]; [reflexivity|]). contradiction.
Qed.

Lemma parity_failure_iff_bits_disagree_witness :
  (forall i p l,
      ~ In (LOG_IO, RawParityFail i p l)
          (log (snd (gpsd_interpret_subframe_raw 15 1 isgps_parity_std
                       ctx20 7 raw_page56_words))))
  /\
  (forall i k, (1 <= i <= 9)%nat -> 0 <= k < 6 ->
     let flipped :=
       upd i (Z.lxor (word raw_page56_words i) (2 ^ k)) raw_page56_words in
     exists p l,
       log (snd (gpsd_interpret_subframe_raw 15 1 isgps_parity_std
                   ctx20 7 flipped))
       = [(LOG_IO, RawWords flipped); (LOG_IO, RawParityFail i p l)]
       /\ ctx (snd (gpsd_interpret_subframe_raw 15 1 isgps_parity_std
                      ctx20 7 flipped)) = ctx20).
Proof.
  apply (parity_failure_iff_bits_disagree 15 1 isgps_parity_std
           isgps_parity_std_reads_bits_6_to_31 ctx20 7 raw_page56_words).
  - reflexivity.
  - left; reflexivity.
  - exact raw_page56_parity_ok.
Defined.

Lemma inverted_word0_decodes_alike_witness :
  let upright := 486539300 :: tl raw_page56_words in
  let inverted := Z.lxor 486539300 0x3fffffff :: tl raw_page56_words in
  let a := gpsd_interpret_subframe_raw 15 1 isgps_parity_std ctx20 7 upright in
  let b := gpsd_interpret_subframe_raw 15 1 isgps_parity_std ctx20 7 inverted in
  ctx (snd b) = ctx (snd a)
  /\ words_out (snd b) = words_out (snd a)
  /\ tl (log (snd b)) = tl (log (snd a)).
Proof.
  destruct (inverted_word0_decodes_alike 15 1 isgps_parity_std ctx20 7
              486539300 (tl raw_page56_words)) as [(_ & Hc & Hv) _].
  split; [exact Hc|]. apply Hv. left. reflexivity.
Defined.

(** C10 in the three outcomes: a decoded subframe, a rejected preamble and
    a parity failure hand the caller the same 0. *)
Example three_outcomes_one_return_value :
  let decoded :=
    gpsd_interpret_subframe_raw 15 1 isgps_parity_std ctx20 7
      raw_page56_words in
  let no_preamble :=
    gpsd_interpret_subframe_raw 15 1 isgps_parity_std ctx20 7
      (upd 0 0 raw_page56_words) in
  let bad_parity :=
    gpsd_interpret_subframe_raw 15 1 isgps_parity_std ctx20 7
      (upd 3 4 raw_page56_words) in
  fst decoded = 0 /\ fst no_preamble = 0 /\ fst bad_parity = 0
  /\ leap_seconds (ctx (snd decoded)) = 17
  /\ log (snd no_preamble)
     = [(LOG_IO, RawWords (upd 0 0 raw_page56_words));
        (LOG_IO, RawBadPreamble 0)]
  /\ log (snd bad_parity)
     = [(LOG_IO, RawWords (upd 3 4 raw_page56_words));
        (LOG_IO, RawParityFail 3 0 0)].
Proof. vm_compute. repeat split. Qed.

(** ** Beyond the claims: frame, invariant and the state of the array *)

Section Beyond.

Variable LEAP_SECONDS : Z.
Variable LEAP_SECOND_VALID : Z.

Local Abbreviation interpret :=
  (gpsd_interpret_subframe LEAP_SECONDS LEAP_SECOND_VALID).
Local Abbreviation switch :=
  (interpret_switch LEAP_SECONDS LEAP_SECOND_VALID).


(** Without a preamble in word 0 the decoder of stripped words gives up
    at once. *)
Lemma interpret_rejected (c : gps_context_t) (svid : Z) (words : list Z) :
  ~ valid_preamble24 (word words 0) ->
  interpret c svid words =
  mkOutcome c words
    [(LOG_IO, Words svid words);
     (LOG_WARN,
      BadPreamble (Z.land (Z.shiftr (word words 0) 16) 0xff) (word words 0))].
Proof.
  unfold valid_preamble24, gpsd_interpret_subframe. intros Hp.
  destruct (Z.eqb_spec (Z.land (Z.shiftr (word words 0) 16) 0xff) 0x8b)
    as [E|_]; [tauto|].
  destruct (Z.eqb_spec (Z.land (Z.shiftr (word words 0) 16) 0xff) 0x74)
    as [E|_]; [tauto|].
  reflexivity.
Qed.

Lemma valid_preamble24_dec (w : Z) :
  {valid_preamble24 w} + {~ valid_preamble24 w}.
Proof.
  unfold valid_preamble24.
  destruct (Z.eq_dec (Z.land (Z.shiftr w 16) 0xff) 0x74);
    destruct (Z.eq_dec (Z.land (Z.shiftr w 16) 0xff) 0x8b); tauto.
Qed.

(** The [switch] hands back the array it was given. *)
Lemma switch_words (c : gps_context_t) (svid subframe : Z) (words : list Z) :
  words_out (switch c svid subframe words) = words.
Proof.
  unfold interpret_switch, subframe1, subframe4.
  repeat match goal with
  | |- context [if ?b then _ else _] => destruct b
  | |- context [let '(_, _) := ?x in _] => destruct x
  end; reflexivity.
Qed.

(** What the [switch] does to the context, case by case. *)
Lemma switch_context (c : gps_context_t) (svid : Z) (words : list Z) :
  ctx (switch c svid (subframe_id words) words) =
  if subframe_id words =? 1
  then mkContext (week_field words) (leap_seconds c) (valid c)
  else if (subframe_id words =? 4) && (page_id words =? 56)
  then fst (page56 LEAP_SECONDS LEAP_SECOND_VALID c words)
  else c.
Proof.
  unfold interpret_switch, subframe4. fold (page_id words).
  destruct (Z.eqb_spec (subframe_id words) 1) as [E1|N1].
  - cbn [subframe1 ctx]. now rewrite ten_bits_fit.
  - destruct (Z.eqb_spec (subframe_id words) 4) as [E4|N4]; cbn [andb].
    + rewrite E4. cbn [Z.eqb Pos.eqb].
      destruct (Z.eqb_spec (page_id words) 55) as [E|_].
      * rewrite E. reflexivity.
      * destruct (page_id words =? 56); [|reflexivity].
        destruct (page56 _ _ c words). reflexivity.
    + destruct (subframe_id words =? 2); [reflexivity|].
      destruct (subframe_id words =? 3); [reflexivity|].
      destruct (subframe_id words =? 5); reflexivity.
Qed.

Lemma polarised24_ids (words : list Z) :
  subframe_id (polarised24 words) = subframe_id words
  /\ page_id (polarised24 words) = page_id words
  /\ week_field (polarised24 words) = week_field words
  /\ leap_field (polarised24 words) = leap_field words.
Proof.
  unfold subframe_id, page_id, week_field, leap_field.
  now rewrite !polarised24_other by lia.
Qed.

(** The context a call leaves, whatever the words. *)
Lemma interpret_context (c : gps_context_t) (svid : Z) (words : list Z) :
  ctx (interpret c svid words) =
  if (Z.land (Z.shiftr (word words 0) 16) 0xff =? 0x74)
     || (Z.land (Z.shiftr (word words 0) 16) 0xff =? 0x8b)
  then
    if subframe_id words =? 1
    then mkContext (week_field words) (leap_seconds c) (valid c)
    else if (subframe_id words =? 4) && (page_id words =? 56)
    then fst (page56 LEAP_SECONDS LEAP_SECOND_VALID c (polarised24 words))
    else c
  else c.
Proof.
  destruct (valid_preamble24_dec (word words 0)) as [Hv|Hn].
  - rewrite interpret_reaches_switch by exact Hv.
    cbn [say ctx].
    destruct (polarised24_ids words) as (Hs & Hg & Hw & _).
    rewrite <- Hs at 1. rewrite switch_context, Hs, Hg, Hw.
    destruct Hv as [E|E]; rewrite E; reflexivity.
  - rewrite interpret_rejected by exact Hn. cbn [ctx].
    unfold valid_preamble24 in Hn.
    destruct (Z.eqb_spec (Z.land (Z.shiftr (word words 0) 16) 0xff) 0x74);
      [tauto|].
    destruct (Z.eqb_spec (Z.land (Z.shiftr (word words 0) 16) 0xff) 0x8b);
      [tauto|].
    reflexivity.
Qed.

(** X1: the decoder of stripped words writes to the context in two places
    only, subframe 1 and subframe 4 page 56; any other subframe, and any
    array without a preamble, whatever ids it carries, leaves the context
    as it was. *)
Theorem context_written_by_sf1_and_page56_only
    (c : gps_context_t) (svid : Z) (words : list Z) :
  ~ valid_preamble24 (word words 0)
  \/ (subframe_id words <> 1
      /\ ~ (subframe_id words = 4 /\ page_id words = 56)) ->
  ctx (interpret c svid words) = c.
Proof.
  intros [Hn|[H1 H4]]; rewrite interpret_context.
  - unfold valid_preamble24 in Hn.
    destruct (Z.eqb_spec (Z.land (Z.shiftr (word words 0) 16) 0xff) 0x74);
      [tauto|].
    destruct (Z.eqb_spec (Z.land (Z.shiftr (word words 0) 16) 0xff) 0x8b);
      [tauto|].
    reflexivity.
  - destruct (_ || _); [|reflexivity].
    destruct (Z.eqb_spec (subframe_id words) 1); [contradiction|].
    destruct (Z.eqb_spec (subframe_id words) 4),
      (Z.eqb_spec (page_id words) 56); cbn [andb]; tauto.
Qed.

Lemma page56_leap (c : gps_context_t) (words : list Z) :
  0 <= LEAP_SECONDS < 2 ^ 31 ->
  leap_seconds (fst (page56 LEAP_SECONDS LEAP_SECOND_VALID c words))
  = Z.max LEAP_SECONDS (leap_field words).
Proof.
  intros HL.
  destruct (page56_context LEAP_SECONDS LEAP_SECOND_VALID c words HL)
    as (_ & Hlow & Hhigh).
  destruct (Z.lt_ge_cases (leap_field words) LEAP_SECONDS) as [Hc|Hc].
  - destruct (Hlow Hc) as [-> _]. lia.
  - destruct (Hhigh Hc) as [-> _]. lia.
Qed.

(** X2: whatever words arrive, with or without preamble, a context whose
    leap second count is at least [LEAP_SECONDS] keeps a count that is at
    least [LEAP_SECONDS]; after a subframe 4 page 56 the count is the
    larger of the constant and the decoded field. *)
Theorem leap_seconds_never_below_constant
    (c : gps_context_t) (svid : Z) (words : list Z) :
  0 <= LEAP_SECONDS < 2 ^ 31 ->
  LEAP_SECONDS <= leap_seconds c ->
  LEAP_SECONDS <= leap_seconds (ctx (interpret c svid words))
  /\ (valid_preamble24 (word words 0) ->
      subframe_id words = 4 -> page_id words = 56 ->
      leap_seconds (ctx (interpret c svid words))
      = Z.max LEAP_SECONDS (leap_field words)).
Proof.
  intros HL Hc. rewrite interpret_context. split.
  - destruct (_ || _); [|exact Hc].
    destruct (_ =? 1); [exact Hc|].
    destruct (_ && _); [|exact Hc].
    rewrite page56_leap by exact HL. lia.
  - intros [E|E] Hs Hg; rewrite E, Hs, Hg; cbn [Z.eqb Pos.eqb orb andb];
      rewrite page56_leap by exact HL;
      now destruct (polarised24_ids words) as (_ & _ & _ & ->).
Qed.


(** *** Decoding again *)

Lemma preamble_nonempty (words : list Z) (p : Z) :
  Z.land (Z.shiftr (word words 0) 16) 0xff = p -> p <> 0 ->
  (0 < length words)%nat.
Proof.
  destruct words as [|w t]; cbn [length]; [|lia].
  unfold word. cbn [nth]. intros <- H. now contradiction H.
Qed.

Lemma polarised24_upright (words : list Z) :
  valid_preamble24 (word words 0) ->
  Z.land (Z.shiftr (word (polarised24 words) 0) 16) 0xff = 0x74.
Proof.
  unfold polarised24. intros [E|E]; rewrite E.
  - exact E.
  - change (139 =? 139) with true. cbv iota.
    rewrite word_upd_same by (eapply preamble_nonempty; [exact E|lia]).
    now rewrite preamble24_of_inverted, E.
Qed.

Lemma polarised24_fixed (words : list Z) :
  Z.land (Z.shiftr (word words 0) 16) 0xff <> 0x8b ->
  polarised24 words = words.
Proof.
  intros N. unfold polarised24.
  destruct (Z.eqb_spec (Z.land (Z.shiftr (word words 0) 16) 0xff) 0x8b);
    [contradiction|reflexivity].
Qed.

Lemma polarised24_twice (words : list Z) :
  polarised24 (polarised24 words) = polarised24 words.
Proof.
  destruct (Z.eq_dec (Z.land (Z.shiftr (word words 0) 16) 0xff) 0x8b)
    as [E|N].
  - apply polarised24_fixed.
    rewrite polarised24_upright by (right; exact E). discriminate.
  - rewrite (polarised24_fixed words N). exact (polarised24_fixed words N).
Qed.

(** The array a call leaves: the array it was given, word 0 upright. *)
Lemma interpret_words (c : gps_context_t) (svid : Z) (words : list Z) :
  words_out (interpret c svid words) = polarised24 words.
Proof.
  destruct (valid_preamble24_dec (word words 0)) as [Hv|Hn].
  - rewrite interpret_reaches_switch by exact Hv.
    cbn [say words_out]. apply switch_words.
  - rewrite interpret_rejected by exact Hn. cbn [words_out].
    unfold polarised24, valid_preamble24 in *.
    destruct (Z.eqb_spec (Z.land (Z.shiftr (word words 0) 16) 0xff) 0x8b);
      [tauto|reflexivity].
Qed.

Lemma page56_twice (c : gps_context_t) (words : list Z) :
  fst (page56 LEAP_SECONDS LEAP_SECOND_VALID
         (fst (page56 LEAP_SECONDS LEAP_SECOND_VALID c words)) words)
  = fst (page56 LEAP_SECONDS LEAP_SECOND_VALID c words).
Proof.
  unfold page56.
  destruct (to_uint LEAP_SECONDS >? _);
    cbn [fst gps_week leap_seconds valid]; f_equal.
  - now rewrite <- Z.land_assoc, Z.land_diag.
  - now rewrite <- Z.lor_assoc, Z.lor_diag.
Qed.

(** X3: decoding is idempotent.  Handing the decoder the context and the
    array that a call has left gives the same context and the same array
    again. *)
Theorem decoding_again_changes_nothing
    (c : gps_context_t) (svid : Z) (words : list Z) :
  let r := interpret c svid words in
  let r' := interpret (ctx r) svid (words_out r) in
  ctx r' = ctx r /\ words_out r' = words_out r.
Proof.
  cbv zeta. rewrite !interpret_words, polarised24_twice.
  split; [|reflexivity].
  rewrite (interpret_context (ctx (interpret c svid words))).
  destruct (polarised24_ids words) as (Hs & Hg & Hw & _).
  rewrite Hs, Hg, Hw, polarised24_twice.
  rewrite (interpret_context c).
  destruct (valid_preamble24_dec (word words 0)) as [Hv|Hn].
  - rewrite (polarised24_upright words Hv).
    change ((116 =? 116) || (116 =? 139)) with true. cbv iota.
    assert (T : (Z.land (Z.shiftr (word words 0) 16) 0xff =? 0x74)
                || (Z.land (Z.shiftr (word words 0) 16) 0xff =? 0x8b) = true)
      by (destruct Hv as [E|E]; rewrite E; reflexivity).
    rewrite T.
    destruct (subframe_id words =? 1); [reflexivity|].
    destruct (_ && _); [apply page56_twice|reflexivity].
  - unfold valid_preamble24 in Hn.
    assert (P : polarised24 words = words).
    { unfold polarised24.
      destruct (Z.eqb_spec (Z.land (Z.shiftr (word words 0) 16) 0xff) 0x8b);
        [tauto|reflexivity]. }
    rewrite P.
    destruct (Z.eqb_spec (Z.land (Z.shiftr (word words 0) 16) 0xff) 0x74);
      [tauto|].
    destruct (Z.eqb_spec (Z.land (Z.shiftr (word words 0) 16) 0xff) 0x8b);
      [tauto|].
    reflexivity.
Qed.

(** *** The reports *)

Lemma c_string_bounds (bytes : list Z) :
  Forall (fun b => 0 <= b < 256) bytes ->
  (length (c_string bytes) <= length bytes)%nat
  /\ Forall (fun b => 0 < b < 256) (c_string bytes).
Proof.
  induction 1 as [|b t Hb Ht [IHl IHf]]; cbn [c_string length].
  - split; [lia|constructor].
  - destruct (Z.eqb_spec b 0); cbn [length]; split; try lia;
      constructor; [lia|assumption].
Qed.

Lemma c_string_terminated (bytes : list Z) :
  (length (c_string (bytes ++ [0%Z])) <= length bytes)%nat.
Proof.
  induction bytes as [|b t IH]; cbn [app c_string length].
  - reflexivity.
  - destruct (b =? 0); cbn [length]; lia.
Qed.

Lemma byte_range (z : Z) : 0 <= Z.land z 0xff < 256.
Proof.
  rewrite mask_ff, Z.land_ones by lia. apply Z.mod_pos_bound. reflexivity.
Qed.

(** The one report of [page55]. *)
Lemma page55_message (words : list Z) :
  exists bytes,
    page55 words = [(LOG_INF, SystemMessage (c_string (bytes ++ [0])))]
    /\ length bytes = 22%nat
    /\ Forall (fun b => 0 <= b < 256) bytes.
Proof.
  unfold page55. cbv zeta.
  eexists
    [_; _; _; _; _; _; _; _; _; _; _; _; _; _; _; _; _; _; _; _; _; _].
  split; [reflexivity|]. split; [reflexivity|].
  repeat (constructor; [apply byte_range|]). constructor.
Qed.

(** The system message is reported by [page55] and nowhere else. *)
Lemma message_comes_from_page55
    (c : gps_context_t) (svid : Z) (words msg : list Z) (level : loglevel) :
  In (level, SystemMessage msg) (log (interpret c svid words)) ->
  exists words', In (level, SystemMessage msg) (page55 words').
Proof.
  unfold gpsd_interpret_subframe, interpret_switch, subframe1, subframe2,
    subframe3, subframe4, subframe5, page56, say.
  repeat match goal with
  | |- context [if ?b then _ else _] => destruct b
  end; cbn [log app In]; try (intuition discriminate);
  rewrite ?app_nil_r; intros [X|[X|[X|X]]]; try discriminate X;
  eexists; exact X.
Qed.

(** X4: the system message of subframe 4 page 55 never overruns [str[24]]:
    whatever the words, the text that is reported has at most 22 bytes,
    none of them zero, each of them in 1..255. *)
Theorem system_message_fits
    (c : gps_context_t) (svid : Z) (words msg : list Z) (level : loglevel) :
  In (level, SystemMessage msg) (log (interpret c svid words)) ->
  (length msg <= 22)%nat /\ Forall (fun b => 0 < b < 256) msg.
Proof.
  intros Hin. apply message_comes_from_page55 in Hin as [w' Hin].
  destruct (page55_message w') as (bytes & E & Hl & Hb).
  rewrite E in Hin. destruct Hin as [[= _ <-]|[]].
  split.
  - rewrite <- Hl. apply c_string_terminated.
  - apply c_string_bounds.
    apply Forall_app. split; [exact Hb|]. repeat constructor; lia.
Qed.

Lemma switch_has_no_handover
    (c : gps_context_t) (svid sf : Z) (words : list Z) (level : loglevel)
    (subframe sv tow17 alert antispoof : Z) :
  ~ In (level, HandOver subframe sv tow17 alert antispoof)
       (log (switch c svid sf words)).
Proof.
  unfold interpret_switch, subframe1, subframe2, subframe3, subframe4,
    subframe5, page55, page56.
  repeat match goal with
  | |- context [if ?b then _ else _] => destruct b
  end; cbn [log app In]; intuition discriminate.
Qed.

(** X5: the anti-spoof flag that the hand-over report carries is the alert
    flag: both are read from bit 6 of word 1. *)
Theorem antispoof_report_repeats_alert
    (c : gps_context_t) (svid : Z) (words : list Z) (level : loglevel)
    (subframe sv tow17 alert antispoof : Z) :
  In (level, HandOver subframe sv tow17 alert antispoof)
     (log (interpret c svid words)) ->
  antispoof = alert /\ alert = Z.land (Z.shiftr (word words 1) 6) 0x01.
Proof.
  destruct (valid_preamble24_dec (word words 0)) as [Hv|Hn].
  - rewrite interpret_reaches_switch by exact Hv.
    cbn [say log app In]. intros [X|[X|X]].
    + discriminate X.
    + injection X as _ _ _ _ <- <-. split; reflexivity.
    + now apply switch_has_no_handover in X.
  - rewrite interpret_rejected by exact Hn.
    cbn [log In]. intuition discriminate.
Qed.

End Beyond.

Section BeyondRaw.

Variable LEAP_SECONDS : Z.
Variable LEAP_SECOND_VALID : Z.
Variable isgps_parity : Z -> Z.

Local Abbreviation interpret :=
  (gpsd_interpret_subframe LEAP_SECONDS LEAP_SECOND_VALID).
Local Abbreviation raw :=
  (gpsd_interpret_subframe_raw LEAP_SECONDS LEAP_SECOND_VALID isgps_parity).
Local Abbreviation checked :=
  (raw_checked LEAP_SECONDS LEAP_SECOND_VALID isgps_parity).

(** *** What the raw decoder leaves in the array *)

Lemma data_range (z : Z) : 0 <= Z.land z 0xffffff < 2 ^ 24.
Proof.
  rewrite mask_ffffff, Z.land_ones by lia.
  apply Z.mod_pos_bound. reflexivity.
Qed.

(** A word of 24 bits has no preamble where the raw decoder looks. *)
Lemma stripped_has_no_preamble30 (w : Z) :
  0 <= w < 2 ^ 24 -> 0 <= Z.land (Z.shiftr w 22) 0xff < 4.
Proof.
  intros Hw. rewrite mask_ff, Z.land_ones, Z.shiftr_div_pow2 by lia.
  assert (0 <= w / 2 ^ 22 < 4).
  { split; [apply Z.div_pos; lia|].
    apply Z.div_lt_upper_bound; lia. }
  rewrite Z.mod_small; lia.
Qed.

(** A raw subframe with a preamble and good parity throughout: the array
    that is handed over, in full. *)
Lemma raw_hands_over (c : gps_context_t) (svid : Z) (words : list Z) :
  length words = 10%nat ->
  valid_preamble30 (word words 0) ->
  (forall j, (1 <= j <= 9)%nat -> parity_ok isgps_parity (word words j)) ->
  exists words',
    raw c svid words
    = (0, say [(LOG_IO, RawWords words)] (interpret c svid words'))
    /\ length words' = 10%nat
    /\ Z.land (Z.shiftr (word words' 0) 16) 0xff = 0x74
    /\ 0 <= word words' 0 < 2 ^ 24
    /\ forall j, (1 <= j <= 9)%nat ->
         word words' j = data_bits (word words j).
Proof.
  intros Hlen Hpre Hok.
  destruct (raw_reaches_loop LEAP_SECONDS LEAP_SECOND_VALID isgps_parity
              c svid words) as (w0 & -> & Hl0 & Hp0 & Hw0);
    [lia|exact Hpre|].
  unfold raw_checked. change (10 - 1)%nat with 9%nat.
  destruct (check_words_pass isgps_parity 9 1
              (upd 0 (Z.land (Z.shiftr (word w0 0) 6) 0xffffff) w0))
    as (words' & Hw & Hl & Hin & Hout).
  - rewrite length_upd. lia.
  - intros j Hj. rewrite word_upd_other, Hw0 by lia. apply Hok. lia.
  - rewrite Hw. cbn [fst snd]. exists words'.
    rewrite length_upd in Hl.
    assert (H0 : word words' 0 = Z.land (Z.shiftr (word w0 0) 6) 0xffffff)
      by (rewrite Hout by lia; apply word_upd_same; lia).
    split; [reflexivity|]. split; [congruence|]. split.
    + rewrite H0, preamble_of_data. exact Hp0.
    + split; [rewrite H0; apply data_range|].
      intros j Hj. rewrite Hin by lia.
      now rewrite word_upd_other, Hw0 by lia.
Qed.

(** X8: the raw decoder uses up its input.  After a decode that passed the
    preamble and the parity tests, the caller's array holds the 24 data
    bits of each word, parity gone; handed to the raw decoder a second
    time, that array is rejected for its preamble, and the context stays
    as the first call left it. *)
Theorem raw_decoding_uses_up_the_words
    (c : gps_context_t) (svid : Z) (words : list Z) :
  length words = 10%nat ->
  valid_preamble30 (word words 0) ->
  (forall j, (1 <= j <= 9)%nat -> parity_ok isgps_parity (word words j)) ->
  let r := snd (raw c svid words) in
  let r' := snd (raw (ctx r) svid (words_out r)) in
  (forall j, (1 <= j <= 9)%nat ->
     word (words_out r) j = data_bits (word words j))
  /\ 0 <= word (words_out r) 0 < 2 ^ 24
  /\ (exists p,
        log r' = [(LOG_IO, RawWords (words_out r)); (LOG_IO, RawBadPreamble p)])
  /\ ctx r' = ctx r
  /\ words_out r' = words_out r.
Proof.
  intros Hlen Hpre Hok. cbv zeta.
  destruct (raw_hands_over c svid words Hlen Hpre Hok)
    as (w' & -> & Hl & Hp & H0 & Hj).
  cbn [snd say words_out ctx]. rewrite interpret_words.
  assert (P : polarised24 w' = w')
    by (unfold polarised24; rewrite Hp; reflexivity).
  rewrite P.
  pose proof (stripped_has_no_preamble30 _ H0) as Hs.
  rewrite raw_rejected by lia.
  cbn [snd say log app ctx words_out].
  split; [exact Hj|]. split; [exact H0|].
  split; [eexists; reflexivity|]. split; reflexivity.
Qed.

(** The parity loop up to the first word that fails: the words before it
    are stripped, the word itself has its inversion undone, the words
    after it are as they came. *)
Lemma check_words_fail_array (n : nat) : forall (i k : nat) (words : list Z),
  (i <= k < i + n)%nat ->
  (k < length words)%nat ->
  (forall j, (i <= j < k)%nat -> parity_ok isgps_parity (word words j)) ->
  ~ parity_ok isgps_parity (word words k) ->
  exists words' p l,
    check_words isgps_parity n i words = inr (words', (k, p, l))
    /\ (forall j, (i <= j < k)%nat ->
        word words' j = data_bits (word words j))
    /\ word words' k = uninvert (word words k)
    /\ (forall j, ~ (i <= j <= k)%nat -> word words' j = word words j).
Proof.
  induction n as [|n IH]; intros i k words Hk Hlen Hok Hbad; [lia|].
  rewrite check_words_step by lia.
  destruct (Nat.eq_dec i k) as [->|Hne].
  - destruct (Z.eqb_spec (isgps_parity (uninvert (word words k)))
                (Z.land (uninvert (word words k)) 0x3f)) as [E|_];
      [contradiction|].
    eexists _, _, _. split; [reflexivity|]. split; [intros j Hj; lia|].
    split; [apply word_upd_same; lia|].
    intros j Hj. apply word_upd_other. lia.
  - rewrite (Hok i) by lia. rewrite Z.eqb_refl.
    fold (data_bits (word words i)).
    destruct (IH (S i) k (upd i (data_bits (word words i)) words))
      as (words' & p & l & E & Hin & Hat & Hout).
    + lia.
    + rewrite length_upd. lia.
    + intros j Hj. rewrite word_upd_other by lia. apply Hok. lia.
    + rewrite word_upd_other by lia. exact Hbad.
    + exists words', p, l. split; [exact E|]. split; [|split].
      * intros j Hj. destruct (Nat.eq_dec j i) as [->|Hji].
        -- rewrite Hout by lia. apply word_upd_same. lia.
        -- rewrite Hin by lia. now rewrite word_upd_other by lia.
      * rewrite Hat. now rewrite word_upd_other by lia.
      * intros j Hj. rewrite Hout by lia. apply word_upd_other. lia.
Qed.

(** X9: a parity failure leaves the caller's array half converted.  When
    word [k] is the first with bad parity, word 0 and the words before
    [k] hold their 24 data bits, word [k] has had its inversion undone and
    nothing else, and the words after [k] are as they came. *)
Theorem parity_failure_leaves_array_half_stripped
    (c : gps_context_t) (svid : Z) (words : list Z) (k : nat) :
  length words = 10%nat ->
  valid_preamble30 (word words 0) ->
  (1 <= k <= 9)%nat ->
  (forall j, (1 <= j < k)%nat -> parity_ok isgps_parity (word words j)) ->
  ~ parity_ok isgps_parity (word words k) ->
  let w' := words_out (snd (raw c svid words)) in
  0 <= word w' 0 < 2 ^ 24
  /\ (forall j, (1 <= j < k)%nat -> word w' j = data_bits (word words j))
  /\ word w' k = uninvert (word words k)
  /\ (forall j, (k < j)%nat -> word w' j = word words j).
Proof.
  intros Hlen Hpre Hk Hok Hbad. cbv zeta.
  destruct (raw_reaches_loop LEAP_SECONDS LEAP_SECOND_VALID isgps_parity
              c svid words) as (w0 & -> & Hl0 & Hp0 & Hw0);
    [lia|exact Hpre|].
  unfold raw_checked. change (10 - 1)%nat with 9%nat.
  destruct (check_words_fail_array 9 1 k
              (upd 0 (Z.land (Z.shiftr (word w0 0) 6) 0xffffff) w0))
    as (words' & p & l & E & Hin & Hat & Hout).
  - lia.
  - rewrite length_upd. lia.
  - intros j Hj. rewrite word_upd_other, Hw0 by lia. apply Hok. lia.
  - rewrite word_upd_other, Hw0 by lia. exact Hbad.
  - rewrite E. cbn [snd say words_out]. split; [|split; [|split]].
    + rewrite Hout by lia. rewrite word_upd_same by lia. apply data_range.
    + intros j Hj. rewrite Hin by lia.
      now rewrite word_upd_other, Hw0 by lia.
    + rewrite Hat. now rewrite word_upd_other, Hw0 by lia.
    + intros j Hj. rewrite Hout by lia.
      now rewrite word_upd_other, Hw0 by lia.
Qed.

End BeyondRaw.

(** ** The properties above at the sample subframes *)

Lemma raw_week256_parity_ok (i : nat) :
  (1 <= i <= 9)%nat -> parity_ok isgps_parity_std (word raw_week256_words i).
Proof.
  intros Hi.
  assert (H : In i (seq 1 9)) by (apply in_seq; lia).
  cbn [seq In] in H.
  repeat (destruct H as [<-|H]; [reflexivity|]). contradiction.
Qed.

Lemma context_written_by_sf1_and_page56_only_witness :
  ctx (gpsd_interpret_subframe 15 1 ctx20 7 page55_words) = ctx20.
Proof.
  apply (context_written_by_sf1_and_page56_only 15 1 ctx20 7 page55_words).
  right. split.
  - discriminate.
  - intros [_ H]. discriminate H.
Defined.

Lemma leap_seconds_never_below_constant_witness :
  leap_seconds (ctx (gpsd_interpret_subframe 15 1 ctx20 7 (page56_words 17)))
  = 17.
Proof.
  destruct (leap_seconds_never_below_constant 15 1 ctx20 7 (page56_words 17))
    as [_ H].
  - lia.
  - cbn. lia.
  - apply H; [left|..]; reflexivity.
Defined.

Lemma raw_decoding_uses_up_the_words_witness :
  let r :=
    snd (gpsd_interpret_subframe_raw 15 1 isgps_parity_std ctx20 7
           raw_page56_words) in
  let r' :=
    snd (gpsd_interpret_subframe_raw 15 1 isgps_parity_std (ctx r) 7
           (words_out r)) in
  (forall j, (1 <= j <= 9)%nat ->
     word (words_out r) j = data_bits (word raw_page56_words j))
  /\ 0 <= word (words_out r) 0 < 2 ^ 24
  /\ (exists p,
        log r' = [(LOG_IO, RawWords (words_out r)); (LOG_IO, RawBadPreamble p)])
  /\ ctx r' = ctx r
  /\ words_out r' = words_out r.
Proof.
  apply (raw_decoding_uses_up_the_words 15 1 isgps_parity_std ctx20 7
           raw_page56_words).
  - reflexivity.
  - left; reflexivity.
  - exact raw_page56_parity_ok.
Defined.

Lemma parity_failure_leaves_array_half_stripped_witness :
  let words := upd 3 4 raw_page56_words in
  let w' :=
    words_out (snd (gpsd_interpret_subframe_raw 15 1 isgps_parity_std
                      ctx20 7 words)) in
  0 <= word w' 0 < 2 ^ 24
  /\ (forall j, (1 <= j < 3)%nat -> word w' j = data_bits (word words j))
  /\ word w' 3 = uninvert (word words 3)
  /\ (forall j, (3 < j)%nat -> word w' j = word words j).
Proof.
  apply (parity_failure_leaves_array_half_stripped 15 1 isgps_parity_std
           ctx20 7 (upd 3 4 raw_page56_words) 3).
  - reflexivity.
  - left; reflexivity.
  - lia.
  - intros j Hj.
    assert (H : In j (seq 1 2)) by (apply in_seq; lia).
    cbn [seq In] in H.
    repeat (destruct H as [<-|H]; [reflexivity|]). contradiction.
  - discriminate.
Defined.

Lemma system_message_fits_witness :
  (length [72; 73] <= 22)%nat /\ Forall (fun b => 0 < b < 256) [72; 73].
Proof.
  apply (system_message_fits 15 1 ctx20 7 page55_words [72; 73] LOG_INF).
  vm_compute. tauto.
Defined.

Lemma antispoof_report_repeats_alert_witness :
  1 = 1 /\ 1 = Z.land (Z.shiftr (word (upd 1 0x50 (page56_words 17)) 1) 6) 0x01.
Proof.
  apply (antispoof_report_repeats_alert 15 1 ctx20 7
           (upd 1 0x50 (page56_words 17)) LOG_PROG 4 7 0 1 1).
  vm_compute. tauto.
Defined.

Lemma raw_week_number_stored_witness :
  ctx (snd (gpsd_interpret_subframe_raw 15 1 isgps_parity_std ctx20 7
              raw_week256_words))
  = mkContext 256 20 1.
Proof.
  apply (raw_week_number_stored 15 1 isgps_parity_std ctx20 7
           raw_week256_words).
  - reflexivity.
  - left; reflexivity.
  - exact raw_week256_parity_ok.
  - reflexivity.
Defined.

Lemma raw_leap_seconds_stored_witness :
  let c' :=
    ctx (snd (gpsd_interpret_subframe_raw 15 1 isgps_parity_std ctx20 7
                raw_page56_words)) in
  leap_seconds c' = 17 /\ Z.land (valid c') 1 = 1.
Proof.
  destruct (raw_leap_seconds_stored 15 1 isgps_parity_std ctx20 7
              raw_page56_words) as [_ H].
  - lia.
  - reflexivity.
  - left; reflexivity.
  - exact raw_page56_parity_ok.
  - reflexivity.
  - reflexivity.
  - apply H. cbn. lia.
Defined.

End SubframeSpec.

(** * Properties of the protocol unpacker *)

Module LibgpsSpec.
Import Libgps.

(** ** Running the unpacker *)

(** The example of the specification: one position fragment sets the
    position and exactly the position bit. *)
Example unpack_position :
  exists st,
    unpack (line "GPSD,P=37.1 -122.3") session3d = Done st
    /\ latitude (fix_ (gpsdata st)) = mkDecimal 371 (-1)
    /\ longitude (fix_ (gpsdata st)) = mkDecimal (-1223) (-1)
    /\ changed st = LATLON_SET gps_h_sample.
Proof. vm_compute. eexists. repeat split. Qed.

(** C6 at a failing input: a device identifier fragment releases the old
    identifier and stores the new one, and then runs on into the rule of
    the fix mode: a 3D fix becomes mode [atoi("GPS9")] = 0, and the mask
    that comes back is the mode bit. *)
Theorem device_id_runs_into_mode :
  exists st,
    unpack (line "GPSD,I=GPS9") session3d = Done st
    /\ gps_id (gpsdata st) = Some (chars "GPS9")
    /\ events st = [Free (chars "SiRF")]
    /\ mode (fix_ session3d) = 3
    /\ mode (fix_ (gpsdata st)) = 0
    /\ changed st = MODE_SET gps_h_sample.
Proof. vm_compute. eexists. repeat split. Qed.

(** C9 at a failing input: with twelve channels, a satellite sentence that
    lists thirteen makes the first loop of the ['Y'] case write element 12
    of arrays that end at element 11. *)
Theorem satellite_count_overruns_arrays :
  MAXCHANNELS gps_h_sample = 12
  /\ unpack thirteen_satellites session3d = Crash (ArrayOverrun 12).
Proof. vm_compute. split; reflexivity. Qed.

(** A sentence with fewer groups than it announces sends the second loop
    past the last colon. *)
Example satellite_groups_missing :
  unpack (line "GPSD,Y=2:3 40 100 30 1") session3d = Crash NullPointer.
Proof. reflexivity. Qed.

(** C3 at a failing input: the same line unpacked twice.  The second call
    changes no member of the session and still returns the mode bit. *)
Theorem same_line_twice_reports_change :
  exists st1 st2,
    unpack (line "GPSD,M=3") session3d = Done st1
    /\ unpack (line "GPSD,M=3") (gpsdata st1) = Done st2
    /\ gpsdata st2 = gpsdata st1
    /\ changed st2 = MODE_SET gps_h_sample
    /\ changed st2 <> 0.
Proof.
  vm_compute. eexists. eexists.
  split; [reflexivity|]. split; [reflexivity|]. split; [reflexivity|].
  split; [reflexivity|]. discriminate.
Qed.

(** C5, the claim as worded, fails: the hook is called once, at the end,
    with the caller's array, but by then both delimiters of the line have
    been overwritten with NUL; the bytes are not those that were passed in,
    and the string the hook is handed ends after the first fragment. *)
Theorem raw_hook_sees_cut_buffer :
  let input := line "GPSD,A=1,M=3" in
  exists st seen,
    unpack input (gps_set_raw_hook decimal session3d 7) = Done st
    /\ events st = [RawHook 7 seen]
    /\ seen = chars "GPSD,A=1" ++ [NUL] ++ chars "M=3" ++ [NUL; NUL]
    /\ seen <> input
    /\ c_str seen 0 = Done (chars "GPSD,A=1").
Proof.
  vm_compute. eexists. eexists.
  split; [reflexivity|]. split; [reflexivity|]. split; [reflexivity|].
  split; [discriminate|reflexivity].
Qed.

(** C2, the claim as worded, fails: the fragment [M=x] has no number in
    it, and unpacking it turns the stored mode 3 into 0 and reports the
    mode as changed. *)
Lemma failed_parse_overwrites_mode :
  exists st,
    scan_int (skip_space (chars "x")) = None
    /\ unpack (line "GPSD,M=x") session3d = Done st
    /\ mode (fix_ session3d) = 3
    /\ ~ (mode (fix_ (gpsdata st)) = mode (fix_ session3d)
          /\ Z.land (changed st) (MODE_SET gps_h_sample) = 0).
Proof.
  vm_compute. eexists.
  split; [reflexivity|]. split; [reflexivity|]. split; [reflexivity|].
  intros [H _]. discriminate H.
Qed.

(** ** The C library layer *)

Lemma length_poke (p : nat) (c : ascii) (mem : buffer) :
  length (poke p c mem) = length mem.
Proof.
  revert p; induction mem as [|h t IH]; intros [|p]; simpl; auto.
Qed.

Lemma until_nul_length (l s : list ascii) :
  until_nul l = Some s -> (length s < length l)%nat.
Proof.
  revert s; induction l as [|c t IH]; intros s; simpl; [discriminate|].
  destruct (c =? NUL)%char.
  - intros [= <-]. simpl. lia.
  - destruct (until_nul t) as [s'|]; [|discriminate].
    intros [= <-]. simpl. specialize (IH s' eq_refl). lia.
Qed.

(** A string inside an array ends inside the array. *)
Lemma c_str_bounds (mem : buffer) (p : nat) (s : list ascii) :
  c_str mem p = Done s -> (p + length s < length mem)%nat.
Proof.
  unfold c_str. destruct (until_nul (skipn p mem)) as [s'|] eqn:E;
    [|discriminate].
  intros [= <-]. apply until_nul_length in E.
  rewrite length_skipn in E. lia.
Qed.

Lemma index_of_bounds (c : ascii) (s : list ascii) (i : nat) :
  index_of c s = Some i -> (i < length s)%nat.
Proof.
  revert i; induction s as [|a t IH]; intros i; simpl; [discriminate|].
  destruct (a =? c)%char.
  - intros [= <-]. lia.
  - destruct (index_of c t) as [k|]; [|discriminate].
    intros [= <-]. specialize (IH k eq_refl). lia.
Qed.

Lemma strchr_bounds (mem : buffer) (p q : nat) (c : ascii) :
  strchr mem p c = Done (Some q) -> (p <= q < length mem)%nat.
Proof.
  unfold strchr. destruct (c_str mem p) as [s|] eqn:E; [|discriminate].
  cbn [bind]. destruct (index_of c s) as [i|] eqn:Ei; [|discriminate].
  intros [= <-]. apply c_str_bounds in E. apply index_of_bounds in Ei. lia.
Qed.

Lemma find_tp_bounds (b : buffer) (sp tp : nat) :
  find_tp b sp = Done (Some tp) -> (sp <= tp < length b)%nat.
Proof.
  unfold find_tp. destruct (strchr b sp ","%char) as [[q|]|] eqn:E;
    cbn [bind]; try discriminate.
  - intros [= <-]. eapply strchr_bounds; eassumption.
  - apply strchr_bounds.
Qed.

Lemma starts_with_length (needle s : list ascii) :
  starts_with needle s = true -> (length needle <= length s)%nat.
Proof.
  revert s; induction needle as [|n needle IH]; intros [|a s]; simpl;
    try lia; try discriminate.
  intros H. apply andb_prop in H as [_ H]. specialize (IH s H). lia.
Qed.

Lemma find_sub_bounds (needle s : list ascii) (i : nat) :
  find_sub needle s = Some i -> (i + length needle <= length s)%nat.
Proof.
  revert i; induction s as [|a t IH]; intros i; simpl.
  - destruct (starts_with needle []) eqn:E; [|discriminate].
    intros [= <-]. apply starts_with_length in E. simpl in *. lia.
  - destruct (starts_with needle (a :: t)) eqn:E.
    + intros [= <-]. apply starts_with_length in E. simpl in *. lia.
    + destruct (find_sub needle t) as [k|]; [|discriminate].
      intros [= <-]. specialize (IH k eq_refl). simpl. lia.
Qed.

Lemma strstr_bounds (mem : buffer) (p q : nat) (needle : list ascii) :
  needle <> [] ->
  strstr mem p needle = Done (Some q) -> (p <= q < length mem)%nat.
Proof.
  intros Hn. unfold strstr.
  destruct (c_str mem p) as [s|] eqn:E; [|discriminate].
  cbn [bind]. destruct (find_sub needle s) as [i|] eqn:Ei; [|discriminate].
  intros [= <-]. apply c_str_bounds in E. apply find_sub_bounds in Ei.
  destruct needle; [contradiction|]. simpl in Ei. lia.
Qed.

(** ** The loops of the model never run out of turns *)

Lemma finishes_done {A : Type} (a : A) : finishes (Done a).
Proof. discriminate. Qed.

Lemma finishes_bind {A B : Type} (r : result A) (k : A -> result B) :
  finishes r -> (forall a, r = Done a -> finishes (k a)) ->
  finishes (bind r k).
Proof.
  unfold finishes. destruct r as [a|f]; cbn [bind]; intros Hr Hk.
  - apply Hk. reflexivity.
  - intros [= E]. apply Hr. now rewrite E.
Qed.

Lemma c_str_finishes (mem : buffer) (p : nat) : finishes (c_str mem p).
Proof. unfold c_str. destruct (until_nul _); discriminate. Qed.

Lemma peek_finishes (mem : buffer) (p : nat) : finishes (peek mem p).
Proof. unfold peek. destruct (nth_error _ _); discriminate. Qed.

Lemma strchr_finishes (mem : buffer) (p : nat) (c : ascii) :
  finishes (strchr mem p c).
Proof.
  unfold strchr. apply finishes_bind; [apply c_str_finishes|].
  intros; apply finishes_done.
Qed.

Lemma strstr_finishes (mem : buffer) (p : nat) (needle : list ascii) :
  finishes (strstr mem p needle).
Proof.
  unfold strstr. apply finishes_bind; [apply c_str_finishes|].
  intros; apply finishes_done.
Qed.

Lemma find_tp_finishes (b : buffer) (sp : nat) : finishes (find_tp b sp).
Proof.
  unfold find_tp. apply finishes_bind; [apply strchr_finishes|].
  intros [q|] _; [apply finishes_done | apply strchr_finishes].
Qed.

Lemma strncmp_eq_finishes (lit : list ascii) : forall (mem : buffer) (p : nat),
  finishes (strncmp_eq mem p lit).
Proof.
  induction lit as [|l lit IH]; intros mem p; cbn [strncmp_eq].
  - apply finishes_done.
  - apply finishes_bind; [apply peek_finishes|].
    intros c _. destruct (c =? l)%char; [apply IH | apply finishes_done].
Qed.

Lemma strcpy_finishes (size : nat) (s : list ascii) :
  finishes (strcpy size s).
Proof. unfold strcpy. destruct (_ <? _)%nat; discriminate. Qed.

Section Unpacker.

Variable double : Type.
Variable strtod : list ascii -> option (double * list ascii).
Variable H : gps_h.

Local Abbreviation state := (unpack_state double).
Local Abbreviation session := (gps_data_t double).

Lemma store_done (j : Z) (v : option Z) (a a' : list (option Z)) :
  store H j v a = Done a' -> 0 <= j < MAXCHANNELS H.
Proof.
  unfold store. destruct (Z.leb_spec 0 j), (Z.ltb_spec j (MAXCHANNELS H));
    cbn [andb]; try discriminate. lia.
Qed.

Lemma store_finishes (j : Z) (v : option Z) (a : list (option Z)) :
  finishes (store H j v a).
Proof. unfold store. destruct (_ && _); discriminate. Qed.

Lemma store_row_done (j : Z) (i1 i2 i3 i4 i5 : option Z) (t t' : tables) :
  store_row H j i1 i2 i3 i4 i5 t = Done t' -> 0 <= j < MAXCHANNELS H.
Proof.
  unfold store_row. destruct (store H j i1 (t_PRN t)) eqn:E; [|discriminate].
  intros _. eapply store_done; eassumption.
Qed.

Lemma store_row_finishes (j : Z) (i1 i2 i3 i4 i5 : option Z) (t : tables) :
  finishes (store_row H j i1 i2 i3 i4 i5 t).
Proof.
  unfold store_row.
  repeat (apply finishes_bind; [apply store_finishes|intros ? _]).
  apply finishes_done.
Qed.

(** The loops over the local arrays: [fuel] turns are left at row [j], and
    each turn that does not crash stays below [MAXCHANNELS]. *)
Lemma zero_rows_finishes (n : Z) : forall (fuel : nat) (j : Z) (t : tables),
  0 <= j <= Z.max 0 (MAXCHANNELS H) ->
  Z.of_nat fuel + j = Z.max 0 (MAXCHANNELS H) + 1 ->
  finishes (zero_rows H fuel j n t).
Proof.
  induction fuel as [|fuel IH]; intros j t Hj Hf.
  - lia.
  - cbn [zero_rows]. destruct (j <? n); [|apply finishes_done].
    apply finishes_bind; [apply store_row_finishes|].
    intros t' Ht. apply store_row_done in Ht. apply IH; lia.
Qed.

Lemma fill_rows_finishes (n : Z) :
  forall (fuel : nat) (j : Z) (sp : list ascii) (i : ints) (t : tables),
  0 <= j <= Z.max 0 (MAXCHANNELS H) ->
  Z.of_nat fuel + j = Z.max 0 (MAXCHANNELS H) + 1 ->
  finishes (fill_rows double strtod H fuel j n sp i t).
Proof.
  induction fuel as [|fuel IH]; intros j sp i t Hj Hf.
  - lia.
  - cbn [fill_rows]. destruct (j <? n); [|apply finishes_done].
    destruct (index_of ":"%char sp) as [k|]; [|discriminate].
    apply finishes_bind; [apply store_row_finishes|].
    intros t' Ht. apply store_row_done in Ht. apply IH; lia.
Qed.

Lemma case_Y_finishes (sp : nat) (st : state) :
  finishes (case_Y double strtod H sp st).
Proof.
  unfold case_Y. apply finishes_bind; [apply c_str_finishes|]. intros arg _.
  apply finishes_bind; [|intros; apply finishes_done].
  destruct (negb _); [|apply finishes_done].
  apply finishes_bind; [apply c_str_finishes|]. intros frag _.
  assert (F : Z.of_nat (S (Z.to_nat (MAXCHANNELS H))) + 0
              = Z.max 0 (MAXCHANNELS H) + 1) by lia.
  apply finishes_bind; [apply zero_rows_finishes; lia|]. intros t _.
  apply finishes_bind; [apply fill_rows_finishes; lia|]. intros t' _.
  apply finishes_done.
Qed.

Lemma case_scan_finishes (sp : nat) (format : string)
    (assign : list (item double) -> session -> session) (bit : Z) (st : state) :
  finishes (case_scan double strtod sp format assign bit st).
Proof.
  unfold case_scan. apply finishes_bind; [apply c_str_finishes|].
  intros; apply finishes_done.
Qed.

Lemma case_atoi_finishes (sp : nat) (set : Z -> session -> session)
    (bit : Z) (st : state) :
  finishes (case_atoi double sp set bit st).
Proof.
  unfold case_atoi. apply finishes_bind; [apply c_str_finishes|].
  intros; apply finishes_done.
Qed.

Lemma case_M_finishes (sp : nat) (st : state) :
  finishes (case_M double H sp st).
Proof.
  unfold case_M. apply finishes_bind; [apply c_str_finishes|].
  intros; apply finishes_done.
Qed.

Lemma switch_finishes (sp : nat) (st : state) :
  finishes (switch double strtod H sp st).
Proof.
  unfold switch. apply finishes_bind; [apply peek_finishes|]. intros c _.
  repeat match goal with
  | |- finishes (if ?b then _ else _) => destruct b
  end;
  lazymatch goal with
  | |- finishes (case_scan _ _ _ _ _ _ _) => apply case_scan_finishes
  | |- finishes (case_atoi _ _ _ _ _) => apply case_atoi_finishes
  | |- finishes (case_M _ _ _ _) => apply case_M_finishes
  | |- finishes (case_Y _ _ _ _ _) => apply case_Y_finishes
  | |- finishes (Done _) => apply finishes_done
  | |- _ => idtac
  end.
  - apply finishes_bind; [apply c_str_finishes|]. intros arg _.
    apply finishes_bind; [apply strcpy_finishes|].
    intros; apply finishes_done.
  - unfold case_I. apply finishes_bind; [apply c_str_finishes|].
    intros; apply case_M_finishes.
  - unfold case_dollar. apply finishes_bind; [apply c_str_finishes|].
    intros frag _. apply finishes_bind; [|intros; apply finishes_done].
    destruct (nth_error _ 0) as [[z|d|w]|]; try apply finishes_done.
    apply finishes_bind; [apply strcpy_finishes|].
    intros; apply finishes_done.
Qed.

(** Take apart the hypotheses that say a computation in [result] is
    [Done]. *)
Ltac run :=
  repeat match goal with
  | H : bind ?r _ = Done _ |- _ =>
      let E := fresh "E" in
      destruct r eqn:E; cbn [bind] in H; [|discriminate H]
  | H : (if ?b then _ else _) = Done _ |- _ => destruct b
  | H : match ?x with _ => _ end = Done _ |- _ => destruct x
  | H : Crash _ = Done _ |- _ => discriminate H
  | H : Done _ = Done _ |- _ => injection H as <-
  end.

(** No case of the [switch] writes to the buffer. *)
Lemma case_scan_buf (sp : nat) (format : string)
    (assign : list (item double) -> session -> session) (bit : Z)
    (st st' : state) :
  case_scan double strtod sp format assign bit st = Done st' ->
  buf st' = buf st.
Proof. unfold case_scan. intros E. run. reflexivity. Qed.

Lemma case_atoi_buf (sp : nat) (set : Z -> session -> session) (bit : Z)
    (st st' : state) :
  case_atoi double sp set bit st = Done st' -> buf st' = buf st.
Proof. unfold case_atoi. intros E. run. reflexivity. Qed.

Lemma case_M_buf (sp : nat) (st st' : state) :
  case_M double H sp st = Done st' -> buf st' = buf st.
Proof. unfold case_M. intros E. run. reflexivity. Qed.

Lemma case_I_buf (sp : nat) (st st' : state) :
  case_I double H sp st = Done st' -> buf st' = buf st.
Proof.
  unfold case_I. intros E. run. apply case_M_buf in E. rewrite E.
  destruct (gps_id (gpsdata st)); reflexivity.
Qed.

Lemma case_Y_buf (sp : nat) (st st' : state) :
  case_Y double strtod H sp st = Done st' -> buf st' = buf st.
Proof. unfold case_Y. intros E. run; reflexivity. Qed.

Lemma case_dollar_buf (sp : nat) (st st' : state) :
  case_dollar double strtod H sp st = Done st' -> buf st' = buf st.
Proof.
  unfold case_dollar.
  destruct (c_str (buf st) sp) as [frag|]; cbn [bind]; [|discriminate].
  generalize (sscanf double strtod frag "$=%s %d %lf %lf %lf %lf %lf %lf").
  intros items.
  destruct (nth_error items 0) as [[z|d|w]|]; cbn [bind];
    try (intros [= <-]; reflexivity).
  destruct (strcpy _ w); cbn [bind]; [|discriminate].
  intros [= <-]. reflexivity.
Qed.

Lemma switch_buf (sp : nat) (st st' : state) :
  switch double strtod H sp st = Done st' -> buf st' = buf st.
Proof.
  unfold switch. destruct (peek (buf st) sp) as [c|]; cbn [bind];
    [|discriminate].
  repeat match goal with
  | |- (if ?b then _ else _) = Done _ -> _ => destruct b
  end;
  lazymatch goal with
  | |- case_scan _ _ _ _ _ _ _ = _ -> _ => apply case_scan_buf
  | |- case_atoi _ _ _ _ _ = _ -> _ => apply case_atoi_buf
  | |- case_M _ _ _ _ = _ -> _ => apply case_M_buf
  | |- case_I _ _ _ _ = _ -> _ => apply case_I_buf
  | |- case_Y _ _ _ _ _ = _ -> _ => apply case_Y_buf
  | |- case_dollar _ _ _ _ _ = _ -> _ => apply case_dollar_buf
  | |- _ => idtac
  end.
  - intros E. run. reflexivity.
  - now intros [= <-].
Qed.

Lemma fragments_length (fuel : nat) : forall (sp : nat) (st st' : state),
  fragments double strtod H fuel sp st = Done st' ->
  length (buf st') = length (buf st).
Proof.
  induction fuel as [|fuel IH]; intros sp st st'; cbn [fragments];
    [discriminate|].
  destruct (find_tp (buf st) sp) as [[tp|]|]; cbn [bind]; try discriminate.
  - destruct (peek _ _) as [c|]; cbn [bind]; [|discriminate].
    destruct (c =? "?")%char.
    + intros E. apply IH in E. rewrite E. cbn [with_buf buf].
      apply length_poke.
    + destruct (switch _ _ _ _ _) as [st1|] eqn:Es; cbn [bind];
        [|discriminate].
      intros E. apply IH in E. rewrite E. apply switch_buf in Es.
      rewrite Es. cbn [with_buf buf]. apply length_poke.
  - now intros [= <-].
Qed.

Lemma fragments_finishes_from (fuel : nat) : forall (sp : nat) (st : state),
  (sp <= length (buf st))%nat ->
  (length (buf st) < sp + fuel)%nat ->
  finishes (fragments double strtod H fuel sp st).
Proof.
  induction fuel as [|fuel IH]; intros sp st Hsp Hf; [lia|].
  cbn [fragments]. apply finishes_bind; [apply find_tp_finishes|].
  intros [tp|] Etp; [|apply finishes_done].
  apply find_tp_bounds in Etp.
  apply finishes_bind; [apply peek_finishes|]. intros c _.
  destruct (c =? "?")%char.
  - apply IH; cbn [with_buf buf]; rewrite length_poke; lia.
  - apply finishes_bind; [apply switch_finishes|]. intros st1 Es.
    apply switch_buf in Es. cbn [with_buf buf] in Es.
    apply IH; rewrite Es, length_poke; lia.
Qed.

Lemma skipn_beyond (A : Type) (l : list A) (p : nat) :
  (length l <= p)%nat -> skipn p l = [].
Proof. intros Hp. apply skipn_all2. exact Hp. Qed.

(** The inner loop as [gps_unpack] starts it, wherever [ns + 5] lies. *)
Lemma fragments_finishes (sp : nat) (st : state) :
  finishes (fragments double strtod H (S (length (buf st))) sp st).
Proof.
  destruct (Nat.le_gt_cases sp (length (buf st))) as [Hle|Hgt].
  - apply fragments_finishes_from; lia.
  - cbn [fragments]. unfold find_tp, strchr, c_str.
    rewrite skipn_beyond by lia. cbn [until_nul bind]. discriminate.
Qed.

Lemma sentences_finishes (fuel : nat) : forall (ns : nat) (st : state),
  (ns <= length (buf st))%nat ->
  (length (buf st) < ns + fuel)%nat ->
  finishes (sentences double strtod H fuel ns st).
Proof.
  induction fuel as [|fuel IH]; intros ns st Hns Hf; [lia|].
  cbn [sentences]. apply finishes_bind; [apply strncmp_eq_finishes|].
  intros hit _. apply finishes_bind.
  - destruct hit; [apply fragments_finishes | apply finishes_done].
  - intros st1 E1.
    assert (Hlen : length (buf st1) = length (buf st)).
    { destruct hit; [eapply fragments_length; eassumption|].
      now injection E1 as <-. }
    apply finishes_bind; [apply strstr_finishes|].
    intros [ns'|] En; [|apply finishes_done].
    apply strstr_bounds in En; [|discriminate].
    apply IH; lia.
Qed.

(** X10: every call of [gps_unpack] ends: with a result, or with one of the
    faults that stand for undefined behaviour of the C code. *)
Theorem gps_unpack_terminates (buf0 : buffer) (gpsdata0 : session) :
  finishes (gps_unpack double strtod H buf0 gpsdata0).
Proof.
  unfold gps_unpack. apply finishes_bind.
  - apply sentences_finishes; cbn [buf]; lia.
  - intros; apply finishes_done.
Qed.

(** ** A fragment whose number cannot be read *)

Lemma skipn_cons (A : Type) (p : nat) : forall (l : list A) (a : A) (r : list A),
  skipn p l = a :: r -> nth_error l p = Some a /\ skipn (S p) l = r.
Proof.
  induction p as [|p IH]; intros [|h t] a r; cbn [skipn]; try discriminate.
  - intros [= -> ->]. split; reflexivity.
  - intros E. apply IH in E. exact E.
Qed.

(** The first character of a string, and the string after it. *)
Lemma c_str_head (mem : buffer) (p : nat) (a : ascii) (s : list ascii) :
  c_str mem p = Done (a :: s) ->
  peek mem p = Done a /\ c_str mem (S p) = Done s.
Proof.
  unfold c_str, peek.
  destruct (skipn p mem) as [|c r] eqn:E; cbn [until_nul]; [discriminate|].
  apply skipn_cons in E as [-> E]. rewrite E.
  destruct (c =? NUL)%char; [discriminate|].
  destruct (until_nul r) as [s'|]; [|discriminate].
  intros [= -> ->]. split; reflexivity.
Qed.

Lemma c_str_first (mem : buffer) (p : nat) (s : list ascii) :
  c_str mem p = Done s -> peek mem p = Done (hd NUL s).
Proof.
  destruct s as [|a s]; [|intros E; apply c_str_head in E; apply E].
  unfold c_str, peek.
  destruct (skipn p mem) as [|c r] eqn:E; cbn [until_nul]; [discriminate|].
  apply skipn_cons in E as [-> _].
  destruct (Ascii.eqb_spec c NUL) as [->|_]; [reflexivity|].
  destruct (until_nul r); discriminate.
Qed.

Lemma atoi_no_number (text : list ascii) :
  scan_int (skip_space text) = None -> atoi text = 0.
Proof. unfold atoi. now intros ->. Qed.

(** Decide the comparisons of the [switch] once the tag is known. *)
Ltac decide_tags :=
  repeat match goal with
  | |- context [(?a =? ?b)%char] =>
      let v := eval vm_compute in (a =? b)%char in
      change (a =? b)%char with v; cbv iota
  end.

(** The [switch] on such a fragment. *)
Lemma switch_failed_parse (sp : nat) (st : state) (tag : ascii)
    (text : list ascii) :
  c_str (buf st) sp = Done (tag :: "="%char :: text) ->
  (In tag lf_tags -> strtod (skip_space text) = None) ->
  (In tag (d_tags ++ atoi_tags) -> scan_int (skip_space text) = None) ->
  In tag (lf_tags ++ d_tags ++ atoi_tags) ->
  exists st',
    switch double strtod H sp st = Done st'
    /\ buf st' = buf st
    /\ events st' = events st
    /\ gpsdata st' = after_failed_parse tag (gpsdata st).
Proof.
  intros Hs Hlf Hd Hin.
  pose proof (c_str_head _ _ _ _ Hs) as [Hp Hs1].
  pose proof (c_str_head _ _ _ _ Hs1) as [_ Hs2].
  replace (S (S sp)) with (sp + 2)%nat in Hs2 by lia.
  unfold switch. rewrite Hp. cbn [bind].
  unfold lf_tags, d_tags, atoi_tags in *. cbn [app In] in Hin, Hlf, Hd.
  unfold after_failed_parse.
  repeat (destruct Hin as [<-|Hin]); try contradiction; decide_tags;
    unfold case_scan, case_atoi, case_M, case_Y;
    rewrite ?Hs, ?Hs2; cbn [bind];
    try (rewrite atoi_no_number by (apply Hd; tauto));
    try (unfold sscanf;
         match goal with
         | |- context [parse_format (chars ?f)] =>
             let v := eval vm_compute in (parse_format (chars f)) in
             change (parse_format (chars f)) with v
         end;
         cbn [scan]; decide_tags;
         first [rewrite Hlf by tauto | rewrite Hd by tauto]);
    eexists; (split; [reflexivity|]); repeat split.
Qed.

(** C2, as the code has it.  Let the inner loop stand at a fragment
    [tag=text] that ends at [tp], for a tag with a numeric value, and let
    [text] hold no number of the kind its case reads.  Then the loop goes
    on with the fragment after [tp], the delimiter at [tp] overwritten and
    nothing released; a member read with [sscanf] keeps its value, a
    member read with [atoi] (fix mode, driver mode, status, satellite
    count) becomes 0. *)
Theorem failed_parse_not_fatal
    (fuel sp tp : nat) (st : state) (tag : ascii) (text : list ascii) :
  find_tp (buf st) sp = Done (Some tp) ->
  c_str (poke tp NUL (buf st)) sp = Done (tag :: "="%char :: text) ->
  hd NUL text <> "?"%char ->
  (In tag lf_tags -> strtod (skip_space text) = None) ->
  (In tag (d_tags ++ atoi_tags) -> scan_int (skip_space text) = None) ->
  In tag (lf_tags ++ d_tags ++ atoi_tags) ->
  exists st',
    fragments double strtod H (S fuel) sp st
    = fragments double strtod H fuel (tp + 1) st'
    /\ buf st' = poke tp NUL (buf st)
    /\ events st' = events st
    /\ gpsdata st' = after_failed_parse tag (gpsdata st).
Proof.
  intros Htp Hs Hq Hlf Hd Hin.
  cbn [fragments]. rewrite Htp. cbn [bind].
  set (st1 := with_buf double (poke tp NUL (buf st)) st).
  change (poke tp NUL (buf st)) with (buf st1) in Hs.
  pose proof (c_str_head _ _ _ _ Hs) as [_ Hs1].
  pose proof (c_str_head _ _ _ _ Hs1) as [_ Hs2].
  replace (S (S sp)) with (sp + 2)%nat in Hs2 by lia.
  rewrite (c_str_first _ _ _ Hs2). cbn [bind].
  destruct (Ascii.eqb_spec (hd NUL text) "?"%char) as [E|_]; [contradiction|].
  destruct (switch_failed_parse sp st1 tag text Hs Hlf Hd Hin)
    as (st' & -> & Hb & He & Hg).
  cbn [bind]. exists st'. repeat split; assumption.
Qed.

(** ** The device identifier *)

(** X16: whatever the session holds, [case 'I':] goes on into [case 'M':]:
    the mode becomes [atoi] of the identifier and the mode bit is set. *)
Lemma case_I_sets_mode (sp : nat) (st : state) (arg : list ascii) :
  c_str (buf st) (sp + 2) = Done arg ->
  exists st',
    case_I double H sp st = Done st'
    /\ gps_id (gpsdata st') = Some arg
    /\ mode (fix_ (gpsdata st')) = atoi arg
    /\ changed st' = Z.lor (changed st) (MODE_SET H).
Proof.
  intros Hs. unfold case_I, case_M.
  assert (Hb : buf (match gps_id (gpsdata st) with
                    | Some old => emit double (Free old) st
                    | None => st
                    end) = buf st)
    by (destruct (gps_id (gpsdata st)); reflexivity).
  rewrite Hb, Hs. cbn [bind on_data buf]. rewrite Hb, Hs. cbn [bind].
  eexists. split; [reflexivity|].
  destruct (gps_id (gpsdata st)); repeat split.
Qed.

(** ** The satellite table *)

Lemma store_inside (j : Z) (v : option Z) (a : list (option Z)) :
  0 <= j < MAXCHANNELS H -> exists a', store H j v a = Done a'.
Proof.
  intros Hj. unfold store.
  destruct (Z.leb_spec 0 j), (Z.ltb_spec j (MAXCHANNELS H)); try lia.
  eexists; reflexivity.
Qed.

Lemma store_row_inside (j : Z) (i1 i2 i3 i4 i5 : option Z) (t : tables) :
  0 <= j < MAXCHANNELS H ->
  exists t', store_row H j i1 i2 i3 i4 i5 t = Done t'.
Proof.
  intros Hj. unfold store_row.
  destruct (store_inside j i1 (t_PRN t) Hj) as [p ->].
  destruct (store_inside j i2 (t_elevation t) Hj) as [e ->].
  destruct (store_inside j i3 (t_azimuth t) Hj) as [a ->].
  destruct (store_inside j i4 (t_ss t) Hj) as [u ->].
  destruct (store_inside j i5 (t_used t) Hj) as [w ->].
  eexists; reflexivity.
Qed.

Lemma store_row_outside (i1 i2 i3 i4 i5 : option Z) (t : tables) :
  store_row H (MAXCHANNELS H) i1 i2 i3 i4 i5 t
  = Crash (ArrayOverrun (MAXCHANNELS H)).
Proof.
  unfold store_row, store. rewrite Z.ltb_irrefl, andb_false_r. reflexivity.
Qed.

(** The first loop writes row [MAXCHANNELS] as soon as the count is
    larger. *)
Lemma zero_rows_overrun (n : Z) : forall (fuel : nat) (j : Z) (t : tables),
  MAXCHANNELS H < n ->
  0 <= j <= MAXCHANNELS H ->
  Z.of_nat fuel + j = MAXCHANNELS H + 1 ->
  zero_rows H fuel j n t = Crash (ArrayOverrun (MAXCHANNELS H)).
Proof.
  induction fuel as [|fuel IH]; intros j t Hn Hj Hf; [lia|].
  cbn [zero_rows]. destruct (Z.ltb_spec j n); [|lia].
  destruct (Z.eq_dec j (MAXCHANNELS H)) as [->|Hne].
  - rewrite store_row_outside. reflexivity.
  - destruct (store_row_inside j (Some 0) (Some 0) (Some 0) (Some 0)
                (Some 0) t) as [t' ->]; [lia|].
    cbn [bind]. apply IH; lia.
Qed.

(** X17: whatever the session holds, a satellite fragment whose count
    exceeds [MAXCHANNELS] makes the ['Y'] case write outside its arrays. *)
Lemma case_Y_overruns (sp : nat) (st : state) (frag arg : list ascii) :
  c_str (buf st) sp = Done frag ->
  c_str (buf st) (sp + 2) = Done arg ->
  0 <= MAXCHANNELS H < atoi arg ->
  case_Y double strtod H sp st = Crash (ArrayOverrun (MAXCHANNELS H)).
Proof.
  intros Hf Ha Hn. unfold case_Y. rewrite Ha. cbn [bind].
  cbn [on_data gpsdata buf set_satellites satellites].
  destruct (Z.eqb_spec (atoi arg) 0) as [E|_]; [lia|]. cbn [negb].
  rewrite Hf. cbn [bind].
  rewrite zero_rows_overrun by lia. reflexivity.
Qed.

(** ** The mask is a function of the buffer *)

Lemma case_scan_alike (sp : nat) (format : string)
    (assign : list (item double) -> session -> session) (bit : Z)
    (a b : state) :
  alike a b ->
  end_alike (case_scan double strtod sp format assign bit a)
    (case_scan double strtod sp format assign bit b).
Proof.
  intros [Hb Hc]. unfold case_scan. rewrite Hb.
  destruct (c_str (buf b) sp); cbn [bind end_alike]; [|reflexivity].
  split; cbn [flag on_data buf changed]; congruence.
Qed.

Lemma case_atoi_alike (sp : nat) (set : Z -> session -> session) (bit : Z)
    (a b : state) :
  alike a b ->
  end_alike (case_atoi double sp set bit a) (case_atoi double sp set bit b).
Proof.
  intros [Hb Hc]. unfold case_atoi. rewrite Hb.
  destruct (c_str (buf b) (sp + 2)); cbn [bind end_alike]; [|reflexivity].
  split; cbn [flag on_data buf changed]; congruence.
Qed.

Lemma case_M_alike (sp : nat) (a b : state) :
  alike a b ->
  end_alike (case_M double H sp a) (case_M double H sp b).
Proof.
  intros [Hb Hc]. unfold case_M. rewrite Hb.
  destruct (c_str (buf b) (sp + 2)); cbn [bind end_alike]; [|reflexivity].
  split; cbn [flag on_data buf changed]; congruence.
Qed.

Lemma case_I_alike (sp : nat) (a b : state) :
  alike a b ->
  end_alike (case_I double H sp a) (case_I double H sp b).
Proof.
  intros [Hb Hc]. unfold case_I.
  set (a1 := match gps_id (gpsdata a) with
             | Some old => emit double (Free old) a
             | None => a
             end).
  set (b1 := match gps_id (gpsdata b) with
             | Some old => emit double (Free old) b
             | None => b
             end).
  assert (H1 : alike a1 b1).
  { unfold a1, b1, alike.
    destruct (gps_id (gpsdata a)), (gps_id (gpsdata b));
      cbn [emit buf changed]; auto. }
  destruct H1 as [Hb1 Hc1]. rewrite Hb1.
  destruct (c_str (buf b1) (sp + 2)); cbn [bind end_alike]; [|reflexivity].
  apply case_M_alike. split; cbn [on_data buf changed]; assumption.
Qed.

Lemma case_Y_alike (sp : nat) (a b : state) :
  alike a b ->
  end_alike (case_Y double strtod H sp a) (case_Y double strtod H sp b).
Proof.
  intros [Hb Hc]. unfold case_Y. rewrite Hb.
  destruct (c_str (buf b) (sp + 2)) as [arg|]; cbn [bind end_alike];
    [|reflexivity].
  cbn [on_data gpsdata buf set_satellites satellites]. rewrite Hb.
  destruct (negb (atoi arg =? 0)).
  - destruct (c_str (buf b) sp) as [frag|]; cbn [bind end_alike];
      [|reflexivity].
    destruct (zero_rows H _ 0 (atoi arg) (fresh_tables H)) as [t|];
      cbn [bind end_alike]; [|reflexivity].
    destruct (fill_rows double strtod H _ 0 (atoi arg) frag _ t) as [t'|];
      cbn [bind end_alike]; [|reflexivity].
    split; cbn [flag on_data buf changed]; congruence.
  - cbn [bind end_alike]. split; cbn [flag on_data buf changed]; congruence.
Qed.

Lemma case_dollar_alike (sp : nat) (a b : state) :
  alike a b ->
  end_alike (case_dollar double strtod H sp a)
    (case_dollar double strtod H sp b).
Proof.
  intros [Hb Hc]. unfold case_dollar. rewrite Hb.
  destruct (c_str (buf b) sp) as [frag|]; cbn [bind end_alike];
    [|reflexivity].
  generalize (sscanf double strtod frag "$=%s %d %lf %lf %lf %lf %lf %lf").
  intros items.
  destruct (nth_error items 0) as [[z|d|w]|]; cbn [bind end_alike];
    try (split; cbn [on_data buf changed]; assumption).
  destruct (strcpy (sizeof_tag H) w); cbn [bind end_alike]; [|reflexivity].
  split; cbn [on_data buf changed]; assumption.
Qed.

Lemma switch_alike (sp : nat) (a b : state) :
  alike a b ->
  end_alike (switch double strtod H sp a) (switch double strtod H sp b).
Proof.
  intros Hab. pose proof Hab as [Hb Hc]. unfold switch. rewrite Hb.
  destruct (peek (buf b) sp) as [c|]; cbn [bind end_alike]; [|reflexivity].
  repeat match goal with
  | |- end_alike (if ?x then _ else _) _ => destruct x
  end;
  lazymatch goal with
  | |- end_alike (case_scan _ _ _ _ _ _ _) _ => now apply case_scan_alike
  | |- end_alike (case_atoi _ _ _ _ _) _ => now apply case_atoi_alike
  | |- end_alike (case_M _ _ _ _) _ => now apply case_M_alike
  | |- end_alike (case_I _ _ _ _) _ => now apply case_I_alike
  | |- end_alike (case_Y _ _ _ _ _) _ => now apply case_Y_alike
  | |- end_alike (case_dollar _ _ _ _ _) _ => now apply case_dollar_alike
  | |- _ => idtac
  end.
  - destruct (c_str (buf b) (sp + 2)) as [arg|]; cbn [bind end_alike];
      [|reflexivity].
    destruct (strcpy (sizeof_utc H) arg); cbn [bind end_alike];
      [|reflexivity].
    split; cbn [on_data buf changed]; assumption.
  - exact Hab.
Qed.

Lemma end_alike_bind (r1 r2 : result state) (k1 k2 : state -> result state) :
  end_alike r1 r2 ->
  (forall a b, alike a b -> end_alike (k1 a) (k2 b)) ->
  end_alike (bind r1 k1) (bind r2 k2).
Proof.
  destruct r1, r2; cbn [end_alike bind]; intros Hr Hk; auto; contradiction.
Qed.

Lemma fragments_alike (fuel : nat) : forall (sp : nat) (a b : state),
  alike a b ->
  end_alike (fragments double strtod H fuel sp a)
    (fragments double strtod H fuel sp b).
Proof.
  induction fuel as [|fuel IH]; intros sp a b Hab; cbn [fragments];
    [reflexivity|].
  pose proof Hab as [Hb Hc]. rewrite Hb.
  destruct (find_tp (buf b) sp) as [[tp|]|]; cbn [bind end_alike];
    [|exact Hab|reflexivity].
  cbn [with_buf buf].
  destruct (peek (poke tp NUL (buf b)) (sp + 2)) as [c|];
    cbn [bind end_alike]; [|reflexivity].
  assert (H1 : alike (with_buf double (poke tp NUL (buf b)) a)
                 (with_buf double (poke tp NUL (buf b)) b))
    by (split; cbn [with_buf buf changed]; auto).
  destruct (c =? "?")%char.
  - apply IH, H1.
  - apply end_alike_bind; [apply switch_alike, H1|]. intros; now apply IH.
Qed.

Lemma sentences_alike (fuel : nat) : forall (ns : nat) (a b : state),
  alike a b ->
  end_alike (sentences double strtod H fuel ns a)
    (sentences double strtod H fuel ns b).
Proof.
  induction fuel as [|fuel IH]; intros ns a b Hab; cbn [sentences];
    [reflexivity|].
  pose proof Hab as [Hb Hc]. rewrite Hb.
  destruct (strncmp_eq (buf b) ns (chars "GPSD")) as [hit|];
    cbn [bind end_alike]; [|reflexivity].
  apply end_alike_bind.
  - destruct hit; [apply fragments_alike, Hab | exact Hab].
  - intros a1 b1 H1. pose proof H1 as [Hb1 _]. rewrite Hb1.
    destruct (strstr (buf b1) (ns + 1) (chars "GPSD")) as [[ns'|]|];
      cbn [bind end_alike]; [now apply IH | exact H1 | reflexivity].
Qed.

(** The mask and the buffer that [gps_unpack] leaves are those of the
    same call on any other session: [changed] starts at 0 in every call,
    and what goes into it is decided by the buffer alone. *)
Theorem mask_ignores_session (buf0 : buffer) (g1 g2 : session) :
  end_alike (gps_unpack double strtod H buf0 g1)
    (gps_unpack double strtod H buf0 g2).
Proof.
  unfold gps_unpack. apply end_alike_bind.
  - apply sentences_alike. split; reflexivity.
  - intros a b [Hb Hc]. cbn [end_alike].
    destruct (raw_hook (gpsdata a)), (raw_hook (gpsdata b));
      split; cbn [emit buf changed]; assumption.
Qed.

(** Hence a line unpacked twice returns the same mask twice: the second
    mask is empty only if the first one was. *)
Corollary second_call_same_mask (text : buffer) (g : session) (st1 st2 : state) :
  gps_unpack double strtod H text g = Done st1 ->
  gps_unpack double strtod H text (gpsdata st1) = Done st2 ->
  changed st2 = changed st1.
Proof.
  intros E1 E2.
  pose proof (mask_ignores_session text g (gpsdata st1)) as A.
  rewrite E1, E2 in A. symmetry. apply A.
Qed.

(** ** The raw hook *)

Lemma quiet_refl (a : state) : quiet a a.
Proof. split; [reflexivity|]. exists []. cbn [map]. now rewrite app_nil_r. Qed.

Lemma quiet_trans (a b c : state) : quiet a b -> quiet b c -> quiet a c.
Proof.
  intros [H1 [f1 E1]] [H2 [f2 E2]]. split; [congruence|].
  exists (f1 ++ f2). rewrite E2, E1, map_app, app_assoc. reflexivity.
Qed.

Lemma quiet_on_data (f : session -> session) (a : state) :
  keeps_hook f -> quiet a (on_data double f a).
Proof.
  intros Hf. split; [apply Hf|]. exists []. cbn [on_data events map].
  now rewrite app_nil_r.
Qed.

Lemma quiet_flag (bit : Z) (a : state) : quiet a (flag double bit a).
Proof. split; [reflexivity|]. exists []. cbn. now rewrite app_nil_r. Qed.

Lemma quiet_with_buf (b : buffer) (a : state) : quiet a (with_buf double b a).
Proof. split; [reflexivity|]. exists []. cbn. now rewrite app_nil_r. Qed.

Lemma arg_int_keeps (items : list (item double)) (i : nat)
    (set : Z -> session -> session) :
  (forall z, keeps_hook (set z)) -> keeps_hook (arg_int double items i set).
Proof.
  intros Hs s. unfold arg_int.
  destruct (nth_error items i) as [[z|d|w]|]; try reflexivity. apply Hs.
Qed.

Lemma arg_double_keeps (items : list (item double)) (i : nat)
    (set : double -> session -> session) :
  (forall d, keeps_hook (set d)) -> keeps_hook (arg_double double items i set).
Proof.
  intros Hs s. unfold arg_double.
  destruct (nth_error items i) as [[z|d|w]|]; try reflexivity. apply Hs.
Qed.

(** The assignments that the cases of the [switch] make. *)
Ltac keeps :=
  intros; intros ?; cbv beta;
  repeat first
    [ rewrite arg_double_keeps by (intros ? ?; reflexivity)
    | rewrite arg_int_keeps by (intros ? ?; reflexivity) ];
  reflexivity.

Lemma case_scan_quiet (sp : nat) (format : string)
    (assign : list (item double) -> session -> session) (bit : Z)
    (a b : state) :
  (forall items, keeps_hook (assign items)) ->
  case_scan double strtod sp format assign bit a = Done b -> quiet a b.
Proof.
  intros Hk. unfold case_scan.
  destruct (c_str (buf a) sp) as [frag|]; cbn [bind]; [|discriminate].
  intros [= <-]. eapply quiet_trans; [apply quiet_on_data, Hk|].
  apply quiet_flag.
Qed.

Lemma case_atoi_quiet (sp : nat) (set : Z -> session -> session) (bit : Z)
    (a b : state) :
  (forall z, keeps_hook (set z)) ->
  case_atoi double sp set bit a = Done b -> quiet a b.
Proof.
  intros Hk. unfold case_atoi.
  destruct (c_str (buf a) (sp + 2)) as [arg|]; cbn [bind]; [|discriminate].
  intros [= <-]. eapply quiet_trans; [apply quiet_on_data, Hk|].
  apply quiet_flag.
Qed.

Lemma case_M_quiet (sp : nat) (a b : state) :
  case_M double H sp a = Done b -> quiet a b.
Proof.
  unfold case_M.
  destruct (c_str (buf a) (sp + 2)) as [arg|]; cbn [bind]; [|discriminate].
  intros [= <-]. eapply quiet_trans; [apply quiet_on_data|apply quiet_flag].
  intros s; reflexivity.
Qed.

Lemma case_I_quiet (sp : nat) (a b : state) :
  case_I double H sp a = Done b -> quiet a b.
Proof.
  unfold case_I.
  set (a1 := match gps_id (gpsdata a) with
             | Some old => emit double (Free old) a
             | None => a
             end).
  assert (H1 : quiet a a1).
  { unfold a1. destruct (gps_id (gpsdata a)) as [old|]; [|apply quiet_refl].
    split; [reflexivity|]. exists [old]. reflexivity. }
  destruct (c_str (buf a1) (sp + 2)) as [arg|]; cbn [bind]; [|discriminate].
  intros E. apply case_M_quiet in E.
  eapply quiet_trans; [exact H1|]. eapply quiet_trans; [|exact E].
  apply quiet_on_data. intros s; reflexivity.
Qed.

Lemma case_Y_quiet (sp : nat) (a b : state) :
  case_Y double strtod H sp a = Done b -> quiet a b.
Proof.
  unfold case_Y.
  destruct (c_str (buf a) (sp + 2)) as [arg|]; cbn [bind]; [|discriminate].
  set (a1 := on_data double (set_satellites double (atoi arg)) a).
  assert (H1 : quiet a a1) by (apply quiet_on_data; intros s; reflexivity).
  destruct (negb (satellites (gpsdata a1) =? 0)).
  - destruct (c_str (buf a1) sp) as [frag|]; cbn [bind]; [|discriminate].
    destruct (zero_rows H _ 0 _ (fresh_tables H)) as [t|]; cbn [bind];
      [|discriminate].
    destruct (fill_rows double strtod H _ 0 _ frag _ t) as [t'|]; cbn [bind];
      [|discriminate].
    intros [= <-]. eapply quiet_trans; [exact H1|].
    eapply quiet_trans; [apply quiet_on_data|apply quiet_flag].
    intros s; reflexivity.
  - cbn [bind]. intros [= <-].
    eapply quiet_trans; [exact H1|apply quiet_flag].
Qed.

Lemma case_dollar_quiet (sp : nat) (a b : state) :
  case_dollar double strtod H sp a = Done b -> quiet a b.
Proof.
  unfold case_dollar.
  destruct (c_str (buf a) sp) as [frag|]; cbn [bind]; [|discriminate].
  generalize (sscanf double strtod frag "$=%s %d %lf %lf %lf %lf %lf %lf").
  intros items.
  assert (K : forall a1, quiet a a1 ->
              quiet a
                (on_data double
                   (fun s =>
                      arg_double double items 7 (set_emit_time double)
                        (arg_double double items 6 (set_poll_time double)
                           (arg_double double items 5
                              (set_d_decode_time double)
                              (arg_double double items 4
                                 (set_d_recv_time double)
                                 (arg_double double items 3
                                    (set_d_xmit_time double)
                                    (arg_double double items 2
                                       (set_time double)
                                       (arg_int double items 1
                                          (set_sentence_length double)
                                          s))))))) a1)).
  { intros a1 H1. eapply quiet_trans; [exact H1|]. apply quiet_on_data.
    intros s.
    repeat (rewrite arg_double_keeps by (intros ? ?; reflexivity)).
    rewrite arg_int_keeps by (intros ? ?; reflexivity). reflexivity. }
  destruct (nth_error items 0) as [[z|d|w]|]; cbn [bind];
    try (intros [= <-]; apply K, quiet_refl).
  destruct (strcpy (sizeof_tag H) w) as [w'|]; cbn [bind]; [|discriminate].
  intros [= <-]. apply K. apply quiet_on_data. intros s; reflexivity.
Qed.

Lemma switch_quiet (sp : nat) (a b : state) :
  switch double strtod H sp a = Done b -> quiet a b.
Proof.
  unfold switch.
  destruct (peek (buf a) sp) as [c|]; cbn [bind]; [|discriminate].
  repeat match goal with
  | |- (if ?x then _ else _) = Done _ -> _ => destruct x
  end;
  lazymatch goal with
  | |- case_scan _ _ _ _ _ _ _ = _ -> _ => apply case_scan_quiet; keeps
  | |- case_atoi _ _ _ _ _ = _ -> _ => apply case_atoi_quiet; keeps
  | |- case_M _ _ _ _ = _ -> _ => apply case_M_quiet
  | |- case_I _ _ _ _ = _ -> _ => apply case_I_quiet
  | |- case_Y _ _ _ _ _ = _ -> _ => apply case_Y_quiet
  | |- case_dollar _ _ _ _ _ = _ -> _ => apply case_dollar_quiet
  | |- _ => idtac
  end.
  - destruct (c_str (buf a) (sp + 2)) as [arg|]; cbn [bind]; [|discriminate].
    destruct (strcpy (sizeof_utc H) arg) as [u|]; cbn [bind]; [|discriminate].
    intros [= <-]. apply quiet_on_data. intros s; reflexivity.
  - intros [= <-]. apply quiet_refl.
Qed.

Lemma fragments_quiet (fuel : nat) : forall (sp : nat) (a b : state),
  fragments double strtod H fuel sp a = Done b -> quiet a b.
Proof.
  induction fuel as [|fuel IH]; intros sp a b; cbn [fragments];
    [discriminate|].
  destruct (find_tp (buf a) sp) as [[tp|]|]; cbn [bind]; try discriminate.
  - destruct (peek _ _) as [c|]; cbn [bind]; [|discriminate].
    destruct (c =? "?")%char.
    + intros E. apply IH in E.
      eapply quiet_trans; [apply quiet_with_buf|exact E].
    + destruct (switch _ _ _ _ _) as [a1|] eqn:Es; cbn [bind];
        [|discriminate].
      intros E. apply IH in E. apply switch_quiet in Es.
      eapply quiet_trans; [apply quiet_with_buf|].
      eapply quiet_trans; eassumption.
  - intros [= <-]. apply quiet_refl.
Qed.

Lemma sentences_quiet (fuel : nat) : forall (ns : nat) (a b : state),
  sentences double strtod H fuel ns a = Done b -> quiet a b.
Proof.
  induction fuel as [|fuel IH]; intros ns a b; cbn [sentences];
    [discriminate|].
  destruct (strncmp_eq (buf a) ns (chars "GPSD")) as [hit|]; cbn [bind];
    [|discriminate].
  destruct (if hit then _ else _) as [a1|] eqn:E1; cbn [bind];
    [|discriminate].
  assert (H1 : quiet a a1).
  { destruct hit; [eapply fragments_quiet; eassumption|].
    injection E1 as <-. apply quiet_refl. }
  destruct (strstr (buf a1) (ns + 1) (chars "GPSD")) as [[ns'|]|];
    cbn [bind]; try discriminate.
  - intros E. apply IH in E. eapply quiet_trans; eassumption.
  - now intros [= <-].
Qed.

(** *** What the loops do to the buffer *)

Lemma tokenised_refl (b : buffer) : tokenised b b.
Proof. split; auto. Qed.

Lemma nth_error_poke (p : nat) (c : ascii) : forall (mem : buffer) (i : nat),
  nth_error (poke p c mem) i
  = if (i =? p)%nat then option_map (fun _ => c) (nth_error mem i)
    else nth_error mem i.
Proof.
  induction p as [|p IH]; intros [|h t] [|i]; cbn [poke nth_error Nat.eqb];
    try reflexivity; [destruct (i =? p)%nat; reflexivity | apply IH].
Qed.

Lemma tokenised_poke (b0 b : buffer) (tp : nat) :
  tokenised b0 b ->
  nth_error b tp = Some ","%char \/ nth_error b tp = Some CR ->
  tokenised b0 (poke tp NUL b).
Proof.
  intros [Hl Hc] Htp. split; [now rewrite length_poke|].
  intros i c. rewrite nth_error_poke.
  destruct (Nat.eqb_spec i tp) as [->|_]; [|apply Hc].
  destruct Htp as [E|E]; rewrite E; cbn [option_map]; intros [= <-];
    right; (split; [reflexivity|]);
    destruct (Hc _ _ E) as [E0|[X _]]; try discriminate X; auto.
Qed.

Lemma until_nul_prefix (l s : list ascii) :
  until_nul l = Some s ->
  forall i, (i < length s)%nat -> nth_error l i = nth_error s i.
Proof.
  revert s; induction l as [|c t IH]; intros s; cbn [until_nul];
    [discriminate|].
  destruct (c =? NUL)%char.
  - intros [= <-] i Hi. cbn in Hi. lia.
  - destruct (until_nul t) as [s'|]; [|discriminate].
    intros [= <-] [|i] Hi; cbn [nth_error]; [reflexivity|].
    apply IH; [reflexivity|]. cbn in Hi. lia.
Qed.

Lemma index_of_char (c : ascii) (s : list ascii) (i : nat) :
  index_of c s = Some i -> nth_error s i = Some c.
Proof.
  revert i; induction s as [|a t IH]; intros i; cbn [index_of];
    [discriminate|].
  destruct (Ascii.eqb_spec a c) as [->|_].
  - now intros [= <-].
  - destruct (index_of c t) as [k|]; [|discriminate].
    intros [= <-]. cbn [nth_error]. now apply IH.
Qed.

(** [strchr] returns a pointer to the character it was asked for. *)
Lemma strchr_char (mem : buffer) (p q : nat) (c : ascii) :
  strchr mem p c = Done (Some q) -> nth_error mem q = Some c.
Proof.
  unfold strchr, c_str.
  destruct (until_nul (skipn p mem)) as [s|] eqn:E; cbn [bind];
    [|discriminate].
  destruct (index_of c s) as [i|] eqn:Ei; [|discriminate].
  intros [= <-]. rewrite <- nth_error_skipn.
  rewrite (until_nul_prefix _ _ E) by (eapply index_of_bounds; eassumption).
  now apply index_of_char.
Qed.

Lemma find_tp_char (b : buffer) (sp tp : nat) :
  find_tp b sp = Done (Some tp) ->
  nth_error b tp = Some ","%char \/ nth_error b tp = Some CR.
Proof.
  unfold find_tp. destruct (strchr b sp ","%char) as [[q|]|] eqn:E;
    cbn [bind]; try discriminate.
  - intros [= <-]. left. eapply strchr_char; eassumption.
  - intros E'. right. eapply strchr_char; eassumption.
Qed.

Lemma fragments_tokenised (b0 : buffer) (fuel : nat) :
  forall (sp : nat) (a b : state),
  fragments double strtod H fuel sp a = Done b ->
  tokenised b0 (buf a) -> tokenised b0 (buf b).
Proof.
  induction fuel as [|fuel IH]; intros sp a b; cbn [fragments];
    [discriminate|].
  destruct (find_tp (buf a) sp) as [[tp|]|] eqn:Etp; cbn [bind];
    try discriminate.
  - apply find_tp_char in Etp.
    destruct (peek _ _) as [c|]; cbn [bind]; [|discriminate].
    destruct (c =? "?")%char.
    + intros E Ht. apply IH in E; [exact E|].
      cbn [with_buf buf]. now apply tokenised_poke.
    + destruct (switch _ _ _ _ _) as [a1|] eqn:Es; cbn [bind];
        [|discriminate].
      intros E Ht. apply IH in E; [exact E|]. apply switch_buf in Es.
      rewrite Es. cbn [with_buf buf]. now apply tokenised_poke.
  - now intros [= <-].
Qed.

Lemma sentences_tokenised (b0 : buffer) (fuel : nat) :
  forall (ns : nat) (a b : state),
  sentences double strtod H fuel ns a = Done b ->
  tokenised b0 (buf a) -> tokenised b0 (buf b).
Proof.
  induction fuel as [|fuel IH]; intros ns a b; cbn [sentences];
    [discriminate|].
  destruct (strncmp_eq (buf a) ns (chars "GPSD")) as [hit|]; cbn [bind];
    [|discriminate].
  destruct (if hit then _ else _) as [a1|] eqn:E1; cbn [bind];
    [|discriminate].
  intros E Ht.
  assert (H1 : tokenised b0 (buf a1)).
  { destruct hit; [eapply fragments_tokenised; eassumption|].
    now injection E1 as <-. }
  destruct (strstr (buf a1) (ns + 1) (chars "GPSD")) as [[ns'|]|];
    cbn [bind] in E; try discriminate.
  - eapply IH; eassumption.
  - now injection E as <-.
Qed.

(** ** Where the fragments end *)

Lemma strncmp_eq_prefix (lit : list ascii) :
  forall (mem : buffer) (p : nat) (s : list ascii),
  c_str mem p = Done s ->
  ~ In NUL lit ->
  strncmp_eq mem p lit = Done (starts_with lit s).
Proof.
  induction lit as [|l lit IH]; intros mem p s Hs Hn; cbn [strncmp_eq].
  - destruct s; reflexivity.
  - destruct s as [|a s].
    + rewrite (c_str_first _ _ _ Hs). cbn [hd bind starts_with].
      destruct (Ascii.eqb_spec NUL l) as [E|_]; [|reflexivity].
      exfalso. apply Hn. left. now symmetry.
    + apply c_str_head in Hs as [-> Hs]. cbn [bind starts_with].
      destruct (a =? l)%char; [|reflexivity].
      cbn [andb]. apply IH; [exact Hs|].
      intros X. apply Hn. now right.
Qed.

Lemma index_of_split (c : ascii) : forall (t : list ascii) (i : nat),
  index_of c t = Some i ->
  exists t1 t2, t = t1 ++ c :: t2 /\ length t1 = i /\ ~ In c t1.
Proof.
  induction t as [|a t IH]; intros i; cbn [index_of]; [discriminate|].
  destruct (Ascii.eqb_spec a c) as [->|N].
  - intros [= <-]. exists [], t. repeat split. intros [].
  - destruct (index_of c t) as [j|]; [|discriminate].
    intros [= <-]. destruct (IH j eq_refl) as (t1 & t2 & -> & Hl & Hn).
    exists (a :: t1), t2. cbn [app length]. repeat split; [congruence|].
    intros [E|X]; [congruence|contradiction].
Qed.

Lemma index_of_none (c : ascii) : forall t : list ascii,
  index_of c t = None -> ~ In c t.
Proof.
  induction t as [|a t IH]; cbn [index_of]; [intros _ []|].
  destruct (Ascii.eqb_spec a c) as [->|N]; [discriminate|].
  destruct (index_of c t); [discriminate|].
  intros _ [E|X]; [congruence|]. now apply IH.
Qed.

Lemma existsb_comma (t : list ascii) :
  existsb (Ascii.eqb ","%char) t = true <-> In ","%char t.
Proof.
  rewrite existsb_exists. split.
  - intros (x & Hx & E). apply Ascii.eqb_eq in E. now subst.
  - intros Hin. exists ","%char. split; [exact Hin|apply Ascii.eqb_refl].
Qed.

(** A fragment that ends at a comma. *)
Lemma ended_comma : forall t1 t2 : list ascii,
  ~ In ","%char t1 ->
  ended (t1 ++ ","%char :: t2) = t1 ++ NUL :: ended t2.
Proof.
  induction t1 as [|a t1 IH]; intros t2 Hn; cbn [app ended].
  - reflexivity.
  - rewrite IH by (intros X; apply Hn; now right). f_equal.
    destruct (Ascii.eqb_spec a ","%char) as [->|_];
      [exfalso; apply Hn; now left|].
    assert (E : existsb (Ascii.eqb ","%char) (t1 ++ ","%char :: t2) = true)
      by (apply existsb_comma, in_elt).
    rewrite E. now rewrite andb_false_r.
Qed.

(** A fragment that ends at a carriage return: no comma is left. *)
Lemma ended_cr : forall t1 t2 : list ascii,
  ~ In ","%char (t1 ++ CR :: t2) ->
  ~ In CR t1 ->
  ended (t1 ++ CR :: t2) = t1 ++ NUL :: ended t2.
Proof.
  induction t1 as [|a t1 IH]; intros t2 Hn Hc; cbn [app ended].
  - assert (E : existsb (Ascii.eqb ","%char) t2 = false).
    { destruct (existsb _ t2) eqn:E; [|reflexivity].
      exfalso. apply Hn. right. now apply existsb_comma. }
    rewrite E. reflexivity.
  - rewrite IH; [|intros X; apply Hn; now right|intros X; apply Hc; now right].
    f_equal.
    destruct (Ascii.eqb_spec a ","%char) as [->|_];
      [exfalso; apply Hn; now left|].
    destruct (Ascii.eqb_spec a CR) as [->|_];
      [exfalso; apply Hc; now left|].
    reflexivity.
Qed.

(** Text without a delimiter holds no fragment end. *)
Lemma ended_none : forall t : list ascii,
  ~ In ","%char t -> ~ In CR t -> ended t = t.
Proof.
  induction t as [|a t IH]; intros Hn Hc; cbn [ended]; [reflexivity|].
  rewrite IH; [|intros X; apply Hn; now right|intros X; apply Hc; now right].
  destruct (Ascii.eqb_spec a ","%char) as [->|_];
    [exfalso; apply Hn; now left|].
  destruct (Ascii.eqb_spec a CR) as [->|_];
    [exfalso; apply Hc; now left|].
  reflexivity.
Qed.

Lemma until_nul_string : forall (t post : list ascii),
  ~ In NUL t -> until_nul (t ++ NUL :: post) = Some t.
Proof.
  induction t as [|a t IH]; intros post Hn; cbn [app until_nul].
  - reflexivity.
  - destruct (Ascii.eqb_spec a NUL) as [->|_];
      [exfalso; apply Hn; now left|].
    rewrite IH; [reflexivity|]. intros X. apply Hn. now right.
Qed.

Lemma c_str_app (pre t post : list ascii) :
  ~ In NUL t -> c_str (pre ++ t ++ NUL :: post) (length pre) = Done t.
Proof.
  intros Hn. unfold c_str. rewrite skipn_app, skipn_all, Nat.sub_diag.
  cbn [skipn app]. now rewrite until_nul_string.
Qed.

Lemma until_nul_split : forall (l s : list ascii),
  until_nul l = Some s ->
  exists post, l = s ++ NUL :: post /\ ~ In NUL s.
Proof.
  induction l as [|a l IH]; intros s; cbn [until_nul]; [discriminate|].
  destruct (Ascii.eqb_spec a NUL) as [->|N].
  - intros [= <-]. exists l. split; [reflexivity|intros []].
  - destruct (until_nul l) as [s'|]; [|discriminate].
    intros [= <-]. destruct (IH s' eq_refl) as (post & -> & Hn).
    exists post. split; [reflexivity|].
    intros [E|X]; [congruence|contradiction].
Qed.

Lemma c_str_split (b : buffer) (p : nat) (s : list ascii) :
  c_str b p = Done s ->
  exists post, b = firstn p b ++ s ++ NUL :: post /\ ~ In NUL s
               /\ length (firstn p b) = p.
Proof.
  unfold c_str. destruct (until_nul (skipn p b)) as [s'|] eqn:E;
    [|discriminate].
  intros [= <-]. destruct (until_nul_split _ _ E) as (post & Hs & Hn).
  exists post. split; [|split; [exact Hn|]].
  - rewrite <- Hs. symmetry. apply firstn_skipn.
  - apply firstn_length_le.
    apply until_nul_length in E. rewrite length_skipn in E. lia.
Qed.

Lemma poke_app (pre : list ascii) (c : ascii) : forall (i : nat) (l : buffer),
  poke (length pre + i) c (pre ++ l) = pre ++ poke i c l.
Proof.
  induction pre as [|a pre IH]; intros i l; cbn [length app Nat.add poke].
  - reflexivity.
  - now rewrite IH.
Qed.

Lemma poke_at (t1 : list ascii) (d c : ascii) (l : list ascii) :
  poke (length t1) c (t1 ++ d :: l) = t1 ++ c :: l.
Proof.
  induction t1 as [|a t1 IH]; cbn [length app poke]; congruence.
Qed.

(** The inner loop ends the fragments of the string it starts in, and
    leaves the rest of the array alone. *)
Lemma fragments_ended_from (fuel : nat) :
  forall (pre t post : list ascii) (st st' : state),
  buf st = pre ++ t ++ NUL :: post ->
  ~ In NUL t ->
  fragments double strtod H fuel (length pre) st = Done st' ->
  buf st' = pre ++ ended t ++ NUL :: post.
Proof.
  induction fuel as [|fuel IH]; intros pre t post st st' Hb Hn;
    cbn [fragments]; [discriminate|].
  assert (Step : forall (d : ascii) (t1 t2 : list ascii) (st1 : state),
            t = t1 ++ d :: t2 ->
            buf st1 = poke (length pre + length t1) NUL (buf st) ->
            fragments double strtod H fuel (length pre + length t1 + 1) st1
            = Done st' ->
            buf st' = pre ++ (t1 ++ NUL :: ended t2) ++ NUL :: post).
  { intros d t1 t2 st1 -> Hb1 E.
    rewrite Hb, poke_app, <- app_assoc in Hb1. cbn [app] in Hb1.
    rewrite poke_at in Hb1.
    replace (length pre + length t1 + 1)%nat
      with (length (pre ++ t1 ++ [NUL])) in E
      by (rewrite !length_app; cbn [length]; lia).
    apply IH with (t := t2) (post := post) in E.
    - rewrite E, <- !app_assoc. cbn [app]. reflexivity.
    - rewrite Hb1, <- !app_assoc. reflexivity.
    - intros X. apply Hn. apply in_or_app. right. now right. }
  unfold find_tp, strchr. rewrite Hb, (c_str_app pre t post Hn).
  cbn [bind]. rewrite <- Hb.
  destruct (index_of ","%char t) as [i|] eqn:Ec; cbn [bind].
  - destruct (index_of_split _ _ _ Ec) as (t1 & t2 & Ht & Hl & Hc).
    subst i. rewrite Ht. rewrite ended_comma by exact Hc.
    destruct (peek _ _) as [c|]; cbn [bind]; [|discriminate].
    destruct (c =? "?")%char.
    + intros E. eapply Step; [exact Ht| |exact E]. reflexivity.
    + destruct (switch _ _ _ _ _) as [st1|] eqn:Es; cbn [bind];
        [|discriminate].
      intros E. eapply Step; [exact Ht| |exact E].
      now rewrite (switch_buf _ _ _ Es).
  - apply index_of_none in Ec.
    destruct (index_of CR t) as [i|] eqn:Er; cbn [bind].
    + destruct (index_of_split _ _ _ Er) as (t1 & t2 & Ht & Hl & Hr).
      subst i. rewrite Ht.
      rewrite ended_cr by (try rewrite <- Ht; assumption).
      destruct (peek _ _) as [c|]; cbn [bind]; [|discriminate].
      destruct (c =? "?")%char.
      * intros E. eapply Step; [exact Ht| |exact E]. reflexivity.
      * destruct (switch _ _ _ _ _) as [st1|] eqn:Es; cbn [bind];
          [|discriminate].
        intros E. eapply Step; [exact Ht| |exact E].
        now rewrite (switch_buf _ _ _ Es).
    + apply index_of_none in Er. intros [= <-].
      now rewrite ended_none.
Qed.

Lemma until_nul_pre : forall (h l u : list ascii),
  ~ In NUL h -> until_nul l = Some u -> until_nul (h ++ l) = Some (h ++ u).
Proof.
  induction h as [|a h IH]; intros l u Hn Hu; cbn [app until_nul];
    [exact Hu|].
  destruct (Ascii.eqb_spec a NUL) as [->|_];
    [exfalso; apply Hn; now left|].
  rewrite (IH l u); [reflexivity| |exact Hu].
  intros X. apply Hn. now right.
Qed.

(** The string that is left where fragments have been ended is the start
    of the string that was there. *)
Lemma until_nul_ended : forall (t post : list ascii),
  ~ In NUL t ->
  exists u w, until_nul (ended t ++ NUL :: post) = Some u /\ t = u ++ w.
Proof.
  induction t as [|a t IH]; intros post Hn; cbn [ended app until_nul].
  - exists [], []. split; reflexivity.
  - destruct (_ || _).
    + exists [], (a :: t). split; reflexivity.
    + destruct (Ascii.eqb_spec a NUL) as [->|_];
        [exfalso; apply Hn; now left|].
      destruct (IH post) as (u & w & -> & Ht);
        [intros X; apply Hn; now right|].
      exists (a :: u), w. split; [reflexivity|]. cbn [app]. congruence.
Qed.

Lemma starts_with_app (n : list ascii) : forall u w : list ascii,
  starts_with n u = true -> starts_with n (u ++ w) = true.
Proof.
  induction n as [|c n IH]; intros u w; [reflexivity|].
  destruct u as [|a u]; cbn [starts_with app]; [discriminate|].
  intros E. apply andb_prop in E as [-> E]. cbn [andb]. now apply IH.
Qed.

Lemma find_sub_start (n : list ascii) : forall u w : list ascii,
  find_sub n (u ++ w) = None -> find_sub n u = None.
Proof.
  induction u as [|a u IH]; intros w.
  - cbn [app]. intros E.
    cbn [find_sub]. destruct (starts_with n []) eqn:S0; [|reflexivity].
    apply starts_with_app with (w := w) in S0. cbn [app] in S0.
    destruct w; cbn [find_sub] in E; rewrite S0 in E; discriminate.
  - cbn [app find_sub].
    destruct (starts_with n (a :: u ++ w)) eqn:S1; [discriminate|].
    destruct (starts_with n (a :: u)) eqn:S2.
    + apply starts_with_app with (w := w) in S2. cbn [app] in S2. congruence.
    + destruct (find_sub n (u ++ w)) eqn:F; [discriminate|].
      intros _. now rewrite (IH w F).
Qed.

Lemma tokenised_keeps_nul (b0 b : buffer) (p : nat) :
  tokenised b0 b -> nth_error b0 p = Some NUL -> nth_error b p = Some NUL.
Proof.
  intros [Hl Hc] Hp.
  destruct (nth_error b p) as [c|] eqn:E.
  - destruct (Hc p c E) as [E0|[-> _]]; congruence.
  - apply nth_error_None in E.
    assert (p < length b0)%nat by (apply nth_error_Some; congruence). lia.
Qed.

(** The outer loop on a buffer that starts with a header and one more
    character: the first turn ends the fragments of the string; the turns
    that follow can only add to the NULs; there is no such turn when the
    string holds no other [GPSD]. *)
Lemma sentences_fragments_ended
    (fuel : nat) (buf0 : buffer) (g : session) (st : state) :
  sentences double strtod H (S fuel) 0 (mkState buf0 g 0 []) = Done st ->
  fragments_ended buf0 (buf st).
Proof.
  intros E s Hs Hst H5.
  destruct (c_str_split _ _ _ Hs) as (post & Hb & Hn & _).
  cbn [firstn app] in Hb.
  assert (Hsplit : s = firstn 5 s ++ skipn 5 s)
    by (symmetry; apply firstn_skipn).
  assert (Hh : length (firstn 5 s) = 5%nat) by (apply firstn_length_le, H5).
  assert (Hnh : ~ In NUL (firstn 5 s))
    by (intros X; apply Hn; rewrite Hsplit; apply in_or_app; now left).
  assert (Hnt : ~ In NUL (skipn 5 s))
    by (intros X; apply Hn; rewrite Hsplit; apply in_or_app; now right).
  assert (Hb1 : first_sentence_ended buf0 s
                = firstn 5 s ++ ended (skipn 5 s) ++ NUL :: post).
  { unfold first_sentence_ended. rewrite Hb.
    rewrite firstn_app, skipn_app, skipn_all, Nat.sub_diag.
    replace (5 - length s)%nat with 0%nat by lia.
    cbn [firstn skipn app]. now rewrite app_nil_r. }
  rewrite Hb1.
  revert E. cbn [sentences buf].
  rewrite (strncmp_eq_prefix _ _ _ _ Hs) by (cbn; intuition discriminate).
  rewrite Hst. cbn [bind Nat.add].
  destruct (fragments _ _ _ _ _ _) as [st1|] eqn:E1; cbn [bind];
    [|discriminate].
  rewrite <- Hh in E1 at 1.
  apply fragments_ended_from
    with (t := skipn 5 s) (post := post) in E1;
    [|cbn [buf]; rewrite Hb at 1; rewrite Hsplit at 1;
      now rewrite <- app_assoc|exact Hnt].
  unfold strstr. rewrite E1.
  assert (Hu : exists u w, c_str (firstn 5 s ++ ended (skipn 5 s)
                                    ++ NUL :: post) 1 = Done u
                           /\ tl s = u ++ w).
  { destruct (until_nul_ended (skipn 5 s) post Hnt) as (u & w & Eu & Ew).
    destruct (firstn 5 s) as [|a h] eqn:Eh; [discriminate Hh|].
    unfold c_str. cbn [app skipn].
    rewrite (until_nul_pre h _ u); [|intros X; apply Hnh; now right|exact Eu].
    exists (h ++ u), w. split; [reflexivity|].
    rewrite Hsplit. cbn [app tl]. now rewrite Ew, app_assoc. }
  destruct Hu as (u & w & -> & Hw). cbn [bind].
  destruct (find_sub (chars "GPSD") u) as [i|] eqn:Ef.
  - intros E. split.
    + intros p Hp. eapply tokenised_keeps_nul; [|exact Hp].
      rewrite <- E1.
      eapply sentences_tokenised; [exact E|].
      apply tokenised_refl.
    + intros F. rewrite Hw in F. apply find_sub_start in F. congruence.
  - intros [= <-]. rewrite E1. split; [intros p Hp; exact Hp|reflexivity].
Qed.

(** C5, as the code has it: when a call of [gps_unpack] on a session with
    a hook returns, it has released strings and then called the hook, once,
    as the last thing it did, on the caller's array as the loops have left
    it.  The array has the length it had, and a byte differs from the byte
    passed in only where a comma or a carriage return has become NUL.
    When the buffer starts with [GPSD] and at least one more character,
    every comma after these five and every carriage return after the last
    comma has become NUL; and when the string holds no other [GPSD], these
    are the only bytes that differ. *)
Theorem raw_hook_called_last
    (buf0 : buffer) (gpsdata0 : session) (hook : nat) (st : state) :
  raw_hook gpsdata0 = Some hook ->
  gps_unpack double strtod H buf0 gpsdata0 = Done st ->
  (exists freed, events st = map Free freed ++ [RawHook hook (buf st)])
  /\ tokenised buf0 (buf st)
  /\ fragments_ended buf0 (buf st).
Proof.
  intros Hh. unfold gps_unpack.
  destruct (sentences _ _ _ _ _ _) as [st1|] eqn:E; cbn [bind];
    [|discriminate].
  pose proof (sentences_tokenised buf0 _ _ _ _ E (tokenised_refl buf0)) as Ht.
  pose proof (sentences_fragments_ended _ _ _ _ E) as He.
  apply sentences_quiet in E as [Hk [freed Hf]].
  cbn [gpsdata events app] in Hk, Hf. rewrite Hk, Hh.
  intros [= <-]. cbn [emit events buf].
  split; [|split; [exact Ht|exact He]].
  exists freed. now rewrite Hf.
Qed.

End Unpacker.

Lemma failed_parse_not_fatal_witness :
  let st := mkState (line "GPSD,M=x,S=1") session3d 0 [] in
  exists st',
    fragments decimal read_decimal gps_h_sample 14 5 st
    = fragments decimal read_decimal gps_h_sample 13 (8 + 1) st'
    /\ buf st' = poke 8 NUL (buf st)
    /\ events st' = events st
    /\ gpsdata st' = set_mode decimal 0 session3d.
Proof.
  apply (failed_parse_not_fatal decimal read_decimal gps_h_sample
           13 5 8 (mkState (line "GPSD,M=x,S=1") session3d 0 [])
           "M"%char (chars "x")).
  - reflexivity.
  - reflexivity.
  - discriminate.
  - cbn. intuition discriminate.
  - reflexivity.
  - cbn. tauto.
Defined.

Lemma raw_hook_called_last_witness :
  (exists freed,
      events unpacked_with_hook
      = map Free freed ++ [RawHook 7 (buf unpacked_with_hook)])
  /\ tokenised (line "GPSD,I=GPS9,M=3") (buf unpacked_with_hook)
  /\ fragments_ended (line "GPSD,I=GPS9,M=3") (buf unpacked_with_hook).
Proof.
  apply (raw_hook_called_last decimal read_decimal gps_h_sample
           (line "GPSD,I=GPS9,M=3") (gps_set_raw_hook decimal session3d 7)
           7 unpacked_with_hook).
  - reflexivity.
  - reflexivity.
Defined.

(** ** Beyond the claims: the mask, the bounds and the hook *)

Section Further.

Variable double : Type.
Variable strtod : list ascii -> option (double * list ascii).
Variable H : gps_h.

Local Abbreviation state := (unpack_state double).
Local Abbreviation session := (gps_data_t double).

Ltac run :=
  repeat match goal with
  | H : bind ?r _ = Done _ |- _ =>
      let E := fresh "E" in
      destruct r eqn:E; cbn [bind] in H; [|discriminate H]
  | H : (if ?b then _ else _) = Done _ |- _ => destruct b
  | H : match ?x with _ => _ end = Done _ |- _ => destruct x
  | H : Crash _ = Done _ |- _ => discriminate H
  | H : Done _ = Done _ |- _ => injection H as <-
  end.

Ltac decide_tags :=
  repeat match goal with
  | |- context [(?a =? ?b)%char] =>
      let v := eval vm_compute in (a =? b)%char in
      change (a =? b)%char with v; cbv iota
  end.

(** ** What goes into the mask *)

Lemma case_scan_changed (sp : nat) (format : string)
    (assign : list (item double) -> session -> session) (bit : Z)
    (st st' : state) :
  case_scan double strtod sp format assign bit st = Done st' ->
  changed st' = Z.lor (changed st) bit.
Proof. unfold case_scan. intros E. run. reflexivity. Qed.

Lemma case_atoi_changed (sp : nat) (set : Z -> session -> session) (bit : Z)
    (st st' : state) :
  case_atoi double sp set bit st = Done st' ->
  changed st' = Z.lor (changed st) bit.
Proof. unfold case_atoi. intros E. run. reflexivity. Qed.

Lemma case_M_changed (sp : nat) (st st' : state) :
  case_M double H sp st = Done st' ->
  changed st' = Z.lor (changed st) (MODE_SET H).
Proof. unfold case_M. intros E. run. reflexivity. Qed.

Lemma case_I_changed (sp : nat) (st st' : state) :
  case_I double H sp st = Done st' ->
  changed st' = Z.lor (changed st) (MODE_SET H).
Proof.
  unfold case_I. intros E. run. apply case_M_changed in E. rewrite E.
  destruct (gps_id (gpsdata st)); reflexivity.
Qed.

Lemma case_Y_changed (sp : nat) (st st' : state) :
  case_Y double strtod H sp st = Done st' ->
  changed st' = Z.lor (changed st) (SATELLITE_SET H).
Proof. unfold case_Y. intros E. run; reflexivity. Qed.

Lemma case_dollar_changed (sp : nat) (st st' : state) :
  case_dollar double strtod H sp st = Done st' -> changed st' = changed st.
Proof.
  unfold case_dollar.
  destruct (c_str (buf st) sp) as [frag|]; cbn [bind]; [|discriminate].
  generalize (sscanf double strtod frag "$=%s %d %lf %lf %lf %lf %lf %lf").
  intros items.
  destruct (nth_error items 0) as [[z|d|w]|]; cbn [bind];
    try (intros [= <-]; reflexivity).
  destruct (strcpy _ w); cbn [bind]; [|discriminate].
  intros [= <-]. reflexivity.
Qed.

(** One fragment puts at most one flag into the mask. *)
Lemma switch_changed (sp : nat) (st st' : state) :
  switch double strtod H sp st = Done st' ->
  exists bit,
    In bit (0 :: flag_bits H) /\ changed st' = Z.lor (changed st) bit.
Proof.
  unfold switch. destruct (peek (buf st) sp) as [c|]; cbn [bind];
    [|discriminate].
  repeat match goal with
  | |- (if ?b then _ else _) = Done _ -> _ => destruct b
  end;
  lazymatch goal with
  | |- case_scan _ _ _ _ _ ?bit _ = _ -> _ =>
      intros E; apply case_scan_changed in E; exists bit
  | |- case_atoi _ _ _ ?bit _ = _ -> _ =>
      intros E; apply case_atoi_changed in E; exists bit
  | |- case_M _ _ _ _ = _ -> _ =>
      intros E; apply case_M_changed in E; exists (MODE_SET H)
  | |- case_I _ _ _ _ = _ -> _ =>
      intros E; apply case_I_changed in E; exists (MODE_SET H)
  | |- case_Y _ _ _ _ _ = _ -> _ =>
      intros E; apply case_Y_changed in E; exists (SATELLITE_SET H)
  | |- case_dollar _ _ _ _ _ = _ -> _ =>
      intros E; apply case_dollar_changed in E; exists 0;
      rewrite Z.lor_0_r
  | |- _ =>
      intros E; run; exists 0; rewrite Z.lor_0_r; cbn [on_data changed]
  end;
  (split; [unfold flag_bits; cbn [In]; tauto | assumption || reflexivity]).
Qed.


(** A property of [changed] that holds of 0 and is kept by each
    [changed |= bit] holds when [gps_unpack] returns. *)
Section MaskInvariant.

Variable P : Z -> Prop.
Hypothesis P_lor :
  forall m bit, P m -> In bit (0 :: flag_bits H) -> P (Z.lor m bit).

Lemma fragments_mask (fuel : nat) : forall (sp : nat) (st st' : state),
  fragments double strtod H fuel sp st = Done st' ->
  P (changed st) -> P (changed st').
Proof.
  induction fuel as [|fuel IH]; intros sp st st'; cbn [fragments];
    [discriminate|].
  destruct (find_tp (buf st) sp) as [[tp|]|]; cbn [bind]; try discriminate.
  - destruct (peek _ _) as [c|]; cbn [bind]; [|discriminate].
    destruct (c =? "?")%char.
    + intros E Hp. apply IH in E; [exact E|exact Hp].
    + destruct (switch _ _ _ _ _) as [st1|] eqn:Es; cbn [bind];
        [|discriminate].
      intros E Hp. apply IH in E; [exact E|].
      apply switch_changed in Es as (bit & Hb & ->).
      apply P_lor; assumption.
  - now intros [= <-].
Qed.

Lemma sentences_mask (fuel : nat) : forall (ns : nat) (st st' : state),
  sentences double strtod H fuel ns st = Done st' ->
  P (changed st) -> P (changed st').
Proof.
  induction fuel as [|fuel IH]; intros ns st st'; cbn [sentences];
    [discriminate|].
  destruct (strncmp_eq (buf st) ns (chars "GPSD")) as [hit|]; cbn [bind];
    [|discriminate].
  destruct (if hit then _ else _) as [st1|] eqn:E1; cbn [bind];
    [|discriminate].
  intros E Hp.
  assert (H1 : P (changed st1)).
  { destruct hit; [eapply fragments_mask; eassumption|].
    now injection E1 as <-. }
  destruct (strstr (buf st1) (ns + 1) (chars "GPSD")) as [[ns'|]|];
    cbn [bind] in E; try discriminate.
  - eapply IH; eassumption.
  - now injection E as <-.
Qed.

Lemma gps_unpack_mask (buf0 : buffer) (g : session) (st : state) :
  gps_unpack double strtod H buf0 g = Done st -> P 0 -> P (changed st).
Proof.
  unfold gps_unpack.
  destruct (sentences _ _ _ _ _ _) as [st1|] eqn:E; cbn [bind];
    [|discriminate].
  intros [= <-] P0. apply sentences_mask in E; [|exact P0].
  destruct (raw_hook (gpsdata st1)); exact E.
Qed.

End MaskInvariant.

Lemma flag_within_known (bit : Z) :
  In bit (0 :: flag_bits H) -> Z.ldiff bit (known_flags H) = 0.
Proof.
  unfold known_flags. generalize (flag_bits H). intros l.
  intros [<-|Hin]; [apply Z.ldiff_0_l|].
  induction l as [|b l IH]; [contradiction|].
  cbn [fold_right]. apply Z.bits_inj'. intros n Hn.
  rewrite Z.ldiff_spec, Z.lor_spec, Z.bits_0.
  destruct Hin as [->|Hin].
  - destruct (Z.testbit bit n); reflexivity.
  - specialize (IH Hin).
    apply (f_equal (fun z => Z.testbit z n)) in IH.
    rewrite Z.ldiff_spec, Z.bits_0 in IH.
    destruct (Z.testbit bit n), (Z.testbit b n),
      (Z.testbit (fold_right Z.lor 0 l) n); auto.
Qed.

Lemma ldiff_lor (m bit all : Z) :
  Z.ldiff m all = 0 -> Z.ldiff bit all = 0 -> Z.ldiff (Z.lor m bit) all = 0.
Proof.
  intros Hm Hb. apply Z.bits_inj'. intros n Hn.
  apply (f_equal (fun z => Z.testbit z n)) in Hm, Hb.
  rewrite Z.ldiff_spec, Z.bits_0 in Hm, Hb.
  rewrite Z.ldiff_spec, Z.lor_spec, Z.bits_0.
  destruct (Z.testbit m n), (Z.testbit bit n), (Z.testbit all n); auto.
Qed.


(** X13: the cases of the tags B, C, D, N, Z and $, and the fragments of
    any tag the [switch] does not know, leave the mask alone: what they
    store in the session is not reported as a change. *)
Theorem silent_tags_set_no_bit (sp : nat) (st st' : state) (c : ascii) :
  peek (buf st) sp = Done c ->
  ~ In c flagged_tags ->
  switch double strtod H sp st = Done st' ->
  changed st' = changed st.
Proof.
  intros Hp Hn. unfold switch. rewrite Hp. cbn [bind].
  repeat match goal with
  | |- (if (c =? ?t)%char then _ else _) = _ -> _ =>
      destruct (Ascii.eqb_spec c t) as [E|_];
      [try solve [exfalso; apply Hn; rewrite E; unfold flagged_tags;
                  cbn [In]; repeat first [left; reflexivity | right]]|]
  end;
  lazymatch goal with
  | |- case_scan _ _ _ _ _ _ _ = _ -> _ =>
      intros E'; apply case_scan_changed in E'; rewrite E'; apply Z.lor_0_r
  | |- case_atoi _ _ _ _ _ = _ -> _ =>
      intros E'; apply case_atoi_changed in E'; rewrite E'; apply Z.lor_0_r
  | |- case_dollar _ _ _ _ _ = _ -> _ => apply case_dollar_changed
  | |- _ => intros E'; run; reflexivity
  end.
Qed.

Lemma on_data_same (st : state) : on_data double (fun s => s) st = st.
Proof. destruct st; reflexivity. Qed.

(** X14: the case of the tag X reads its fragment with the format of the
    tag V.  The fragment starts with an X, so nothing is converted: no
    member of the session is written, and the online bit is set all the
    same. *)
Theorem online_fragment_stores_nothing
    (sp : nat) (st : state) (text : list ascii) :
  c_str (buf st) sp = Done ("X"%char :: text) ->
  switch double strtod H sp st = Done (flag double (ONLINE_SET H) st).
Proof.
  intros Hs. pose proof (c_str_head _ _ _ _ Hs) as [Hp _].
  unfold switch. rewrite Hp. cbn [bind]. decide_tags.
  unfold case_scan. rewrite Hs. cbn [bind].
  unfold sscanf.
  change (parse_format (chars "V=%lf"))
    with [Lit "V"%char; Lit "="%char; Conv_lf].
  cbn [scan]. decide_tags.
  unfold arg_double. cbn [nth_error].
  now rewrite on_data_same.
Qed.

(** X15: the case of the tag D copies the text after [D=] into [utc] with
    [strcpy]: a text shorter than the array is stored as it is, any other
    is written past the end of the array. *)
Theorem utc_copy_bounds (sp : nat) (st : state) (text : list ascii) :
  peek (buf st) sp = Done "D"%char ->
  c_str (buf st) (sp + 2) = Done text ->
  ((length text < sizeof_utc H)%nat ->
   switch double strtod H sp st
   = Done (on_data double (set_utc double text) st))
  /\ ((sizeof_utc H <= length text)%nat ->
      switch double strtod H sp st
      = Crash (StringOverrun (length text) (sizeof_utc H))).
Proof.
  intros Hp Hs. unfold switch. rewrite Hp. cbn [bind]. decide_tags.
  rewrite Hs. cbn [bind]. unfold strcpy.
  destruct (Nat.ltb_spec (length text) (sizeof_utc H)); split; intros;
    try lia; reflexivity.
Qed.


(** ** The satellite table inside its bounds *)

Lemma length_set_nth (j : nat) (v : option Z) (a : list (option Z)) :
  length (set_nth j v a) = length a.
Proof.
  revert j; induction a as [|h t IH]; intros [|j]; cbn [set_nth length];
    auto.
Qed.

Lemma nth_error_set_nth (j : nat) (v : option Z) :
  forall (a : list (option Z)) (k : nat),
  k <> j -> nth_error (set_nth j v a) k = nth_error a k.
Proof.
  induction j as [|j IH]; intros [|h t] [|k] Hk;
    cbn [set_nth nth_error]; try reflexivity; try lia.
  apply IH. lia.
Qed.

Lemma store_blank (n : nat) (j : Z) (v : option Z) (a a' : list (option Z)) :
  store H j v a = Done a' ->
  (Z.to_nat j < n)%nat ->
  blank_from n a ->
  length a' = length a /\ blank_from n a'.
Proof.
  unfold store. destruct (_ && _); [|discriminate].
  intros [= <-] Hj Hb. split; [apply length_set_nth|].
  intros k Hk. rewrite length_set_nth in Hk.
  rewrite nth_error_set_nth by lia. apply Hb. exact Hk.
Qed.

Lemma store_row_blank (n : nat) (j : Z) (i1 i2 i3 i4 i5 : option Z)
    (t : tables) :
  0 <= j < MAXCHANNELS H ->
  (Z.to_nat j < n)%nat ->
  blank_tables H n t ->
  exists t', store_row H j i1 i2 i3 i4 i5 t = Done t' /\ blank_tables H n t'.
Proof.
  intros Hj Hn ((L1 & L2 & L3 & L4 & L5) & B1 & B2 & B3 & B4 & B5).
  unfold store_row.
  destruct (store_inside H j i1 (t_PRN t) Hj) as [a1 E1].
  destruct (store_inside H j i2 (t_elevation t) Hj) as [a2 E2].
  destruct (store_inside H j i3 (t_azimuth t) Hj) as [a3 E3].
  destruct (store_inside H j i4 (t_ss t) Hj) as [a4 E4].
  destruct (store_inside H j i5 (t_used t) Hj) as [a5 E5].
  rewrite E1, E2, E3, E4, E5. cbn [bind]. eexists. split; [reflexivity|].
  destruct (store_blank n _ _ _ _ E1 Hn B1) as [? ?].
  destruct (store_blank n _ _ _ _ E2 Hn B2) as [? ?].
  destruct (store_blank n _ _ _ _ E3 Hn B3) as [? ?].
  destruct (store_blank n _ _ _ _ E4 Hn B4) as [? ?].
  destruct (store_blank n _ _ _ _ E5 Hn B5) as [? ?].
  unfold blank_tables. cbn [t_PRN t_elevation t_azimuth t_ss t_used].
  repeat split; try assumption; congruence.
Qed.

Lemma zero_rows_blank (n : Z) : forall (fuel : nat) (j : Z) (t : tables),
  n <= MAXCHANNELS H ->
  0 <= j ->
  Z.of_nat fuel + j = Z.max 0 (MAXCHANNELS H) + 1 ->
  blank_tables H (Z.to_nat n) t ->
  exists t', zero_rows H fuel j n t = Done t' /\ blank_tables H (Z.to_nat n) t'.
Proof.
  induction fuel as [|fuel IH]; intros j t Hn Hj Hf Hb.
  - cbn [zero_rows]. destruct (Z.ltb_spec j n); [lia|].
    exists t. split; [reflexivity|exact Hb].
  - cbn [zero_rows]. destruct (Z.ltb_spec j n);
      [|exists t; split; [reflexivity|exact Hb]].
    destruct (store_row_blank (Z.to_nat n) j (Some 0) (Some 0) (Some 0)
                (Some 0) (Some 0) t) as (t1 & -> & Hb1);
      [lia|lia|exact Hb|].
    cbn [bind]. apply IH; try lia. exact Hb1.
Qed.

Lemma colons_found (s : list ascii) :
  (0 < colons s)%nat ->
  exists k, index_of ":"%char s = Some k
            /\ colons (skipn (S k) s) = (colons s - 1)%nat.
Proof.
  unfold colons. induction s as [|a s IH]; cbn [count_occ]; [lia|].
  cbn [index_of]. destruct (Ascii.eqb_spec a ":"%char) as [->|N].
  - intros _. exists 0%nat. split; [reflexivity|].
    destruct (ascii_dec ":"%char ":"%char); [|contradiction].
    cbn [skipn]. lia.
  - destruct (ascii_dec a ":"%char); [contradiction|].
    intros Hc. destruct (IH Hc) as (k & -> & Hk).
    exists (S k). split; [reflexivity|]. exact Hk.
Qed.

Lemma fill_rows_blank (n : Z) :
  forall (fuel : nat) (j : Z) (sp : list ascii) (i : ints) (t : tables),
  n <= MAXCHANNELS H ->
  0 <= j ->
  Z.of_nat fuel + j = Z.max 0 (MAXCHANNELS H) + 1 ->
  (Z.to_nat (n - j) <= colons sp)%nat ->
  blank_tables H (Z.to_nat n) t ->
  exists t',
    fill_rows double strtod H fuel j n sp i t = Done t'
    /\ blank_tables H (Z.to_nat n) t'.
Proof.
  induction fuel as [|fuel IH]; intros j sp i t Hn Hj Hf Hc Hb.
  - cbn [fill_rows]. destruct (Z.ltb_spec j n); [lia|].
    exists t. split; [reflexivity|exact Hb].
  - cbn [fill_rows]. destruct (Z.ltb_spec j n);
      [|exists t; split; [reflexivity|exact Hb]].
    destruct (colons_found sp) as (k & -> & Hk); [lia|].
    match goal with
    | |- context [store_row H j ?a ?b ?c ?d ?e t] =>
        destruct (store_row_blank (Z.to_nat n) j a b c d e t)
          as (t1 & -> & Hb1); [lia|lia|exact Hb|]
    end.
    cbn [bind]. apply IH; try lia. exact Hb1.
Qed.

Lemma fresh_tables_blank (n : nat) : blank_tables H n (fresh_tables H).
Proof.
  unfold blank_tables, fresh_tables.
  cbn [t_PRN t_elevation t_azimuth t_ss t_used].
  rewrite repeat_length.
  assert (B : blank_from n (repeat None (Z.to_nat (MAXCHANNELS H)))).
  { intros k Hk. rewrite repeat_length in Hk.
    rewrite nth_error_repeat by lia. reflexivity. }
  repeat split; auto.
Qed.

(** X18: the ['Y'] case inside its bounds.  With a count other than 0 and
    not above [MAXCHANNELS], and with at least as many colons in the
    fragment as the count says, the case runs to its [break] without a
    fault; it stores the count and sets the satellite bit.  The five
    arrays of the session are overwritten in full: their elements from the
    count on (all of them, for a negative count) get the indeterminate
    values of the local arrays. *)
Theorem satellite_table_within_bounds
    (sp : nat) (st : state) (frag arg : list ascii) :
  c_str (buf st) sp = Done frag ->
  c_str (buf st) (sp + 2) = Done arg ->
  atoi arg <> 0 ->
  atoi arg <= MAXCHANNELS H ->
  (Z.to_nat (atoi arg) <= colons frag)%nat ->
  exists st',
    case_Y double strtod H sp st = Done st'
    /\ satellites (gpsdata st') = atoi arg
    /\ changed st' = Z.lor (changed st) (SATELLITE_SET H)
    /\ blank_from (Z.to_nat (atoi arg)) (PRN (gpsdata st'))
    /\ blank_from (Z.to_nat (atoi arg)) (elevation (gpsdata st'))
    /\ blank_from (Z.to_nat (atoi arg)) (azimuth (gpsdata st'))
    /\ blank_from (Z.to_nat (atoi arg)) (ss (gpsdata st'))
    /\ blank_from (Z.to_nat (atoi arg)) (used (gpsdata st')).
Proof.
  intros Hf Ha Hz Hn Hc. unfold case_Y. rewrite Ha. cbn [bind].
  cbn [on_data gpsdata buf set_satellites satellites].
  destruct (Z.eqb_spec (atoi arg) 0) as [E|_]; [contradiction|].
  cbn [negb]. rewrite Hf. cbn [bind].
  destruct (zero_rows_blank (atoi arg) (S (Z.to_nat (MAXCHANNELS H))) 0
              (fresh_tables H)) as (t1 & -> & Hb1);
    [exact Hn|lia|lia|apply fresh_tables_blank|].
  cbn [bind].
  destruct (fill_rows_blank (atoi arg) (S (Z.to_nat (MAXCHANNELS H))) 0
              frag [None; None; None; None; None] t1)
    as (t2 & -> & Hb2);
    [exact Hn|lia|lia|rewrite Z.sub_0_r; exact Hc|exact Hb1|].
  cbn [bind]. eexists. split; [reflexivity|].
  destruct Hb2 as (_ & B1 & B2 & B3 & B4 & B5).
  cbn. repeat split; assumption.
Qed.

(** ** A buffer without a sentence *)

Lemma find_sub_none (needle : list ascii) (a : ascii) (s : list ascii) :
  find_sub needle (a :: s) = None ->
  starts_with needle (a :: s) = false /\ find_sub needle s = None.
Proof.
  cbn [find_sub]. destruct (starts_with needle (a :: s)); [discriminate|].
  destruct (find_sub needle s); [discriminate|]. auto.
Qed.

(** X19: a buffer that holds a string other than the empty one, with no
    [GPSD] in it, is left as it is; so is the session, the mask is 0, and
    the hook, if there is one, is called with the buffer. *)
Theorem no_sentence_no_change
    (buf0 : buffer) (g : session) (s : list ascii) :
  c_str buf0 0 = Done s ->
  s <> [] ->
  find_sub (chars "GPSD") s = None ->
  gps_unpack double strtod H buf0 g =
  Done (match raw_hook g with
        | Some hook => mkState buf0 g 0 [RawHook hook buf0]
        | None => mkState buf0 g 0 []
        end).
Proof.
  intros Hs Hne Hf. destruct s as [|a s]; [contradiction|].
  apply find_sub_none in Hf as [Hst Hf].
  unfold gps_unpack. cbn [sentences].
  rewrite (strncmp_eq_prefix _ _ _ _ Hs)
    by (cbn; intuition discriminate).
  rewrite Hst. cbn [bind buf].
  apply c_str_head in Hs as [_ Hs1].
  unfold strstr. cbn [Nat.add]. rewrite Hs1. cbn [bind]. rewrite Hf.
  cbn [bind gpsdata]. destruct (raw_hook g); reflexivity.
Qed.

(** A header at the very end.  When the outer loop stands at a [GPSD]
    that is followed by the closing NUL and the NUL is the last element
    of the array, the inner loop starts at [ns + 5], one element past the
    array, and [strchr] reads there. *)
Lemma sentences_header_at_end (fuel ns : nat) (st : state) :
  c_str (buf st) ns = Done (chars "GPSD") ->
  length (buf st) = (ns + 5)%nat ->
  sentences double strtod H (S fuel) ns st = Crash (ReadOutside (ns + 5)).
Proof.
  intros Hs Hl. cbn [sentences].
  rewrite (strncmp_eq_prefix _ _ _ _ Hs)
    by (cbn; intuition discriminate).
  cbn [starts_with chars list_ascii_of_string Ascii.eqb Bool.eqb andb bind].
  cbn [fragments]. unfold find_tp, strchr, c_str.
  rewrite skipn_all2 by lia. cbn [until_nul bind].
  rewrite Hl, Nat.max_id. reflexivity.
Qed.

Lemma until_nul_skipn (k : nat) : forall (l s : list ascii),
  until_nul l = Some s -> (k <= length s)%nat ->
  until_nul (skipn k l) = Some (skipn k s).
Proof.
  induction k as [|k IH]; intros l s Hs Hk; [exact Hs|].
  destruct l as [|c l]; cbn [until_nul] in Hs; [discriminate|].
  destruct (c =? NUL)%char.
  - injection Hs as <-. cbn [length] in Hk. lia.
  - destruct (until_nul l) as [s'|] eqn:E; [|discriminate].
    injection Hs as <-. cbn [skipn]. apply IH; [exact E|].
    cbn [length] in Hk. lia.
Qed.

(** The string that starts [k] characters into a string. *)
Lemma c_str_skip (mem : buffer) (p k : nat) (s : list ascii) :
  c_str mem p = Done s -> (k <= length s)%nat ->
  c_str mem (p + k) = Done (skipn k s).
Proof.
  unfold c_str. intros Hs Hk.
  destruct (until_nul (skipn p mem)) as [s'|] eqn:E; [|discriminate].
  injection Hs as ->.
  rewrite Nat.add_comm, <- skipn_skipn.
  now rewrite (until_nul_skipn k _ _ E Hk).
Qed.

Lemma find_sub_found (needle : list ascii) :
  forall (s : list ascii) (k : nat),
  find_sub needle s = Some k ->
  starts_with needle (skipn k s) = true
  /\ (k <= length s)%nat
  /\ (k <> 0%nat -> starts_with needle s = false
                    /\ find_sub needle (tl s) = Some (k - 1)%nat).
Proof.
  induction s as [|a s IH]; intros k; cbn [find_sub].
  - destruct (starts_with needle []) eqn:E; [|discriminate].
    intros [= <-]. cbn [skipn]. repeat split; auto; congruence.
  - destruct (starts_with needle (a :: s)) eqn:E.
    + intros [= <-]. cbn [skipn length].
      repeat split; auto; try lia; congruence.
    + destruct (find_sub needle s) as [i|] eqn:Ei; [|discriminate].
      intros [= <-]. destruct (IH i eq_refl) as (H1 & H2 & _).
      cbn [skipn length tl]. rewrite Nat.sub_1_r. cbn [Nat.pred].
      repeat split; auto. lia.
Qed.

Lemma starts_with_all (needle s : list ascii) :
  starts_with needle s = true -> length s = length needle -> s = needle.
Proof.
  revert s; induction needle as [|n needle IH]; intros [|a s];
    cbn [starts_with length]; try discriminate; auto.
  intros Hs Hl. apply andb_prop in Hs as [Ha Hs].
  apply Ascii.eqb_eq in Ha. subst a. f_equal. apply IH; [exact Hs|lia].
Qed.

(** The outer loop at a place where no header stands moves on to the next
    [GPSD] that [strstr] finds. *)
Lemma sentences_skip (fuel ns i : nat) (st : state) (s : list ascii) :
  c_str (buf st) ns = Done s ->
  s <> [] ->
  starts_with (chars "GPSD") s = false ->
  find_sub (chars "GPSD") (tl s) = Some i ->
  sentences double strtod H (S fuel) ns st
  = sentences double strtod H fuel (ns + 1 + i) st.
Proof.
  intros Hs Hne Hns Hf. cbn [sentences].
  rewrite (strncmp_eq_prefix _ _ _ _ Hs)
    by (cbn; intuition discriminate).
  rewrite Hns. cbn [bind]. unfold strstr.
  assert (Ht : c_str (buf st) (ns + 1) = Done (tl s)).
  { destruct s as [|a s]; [contradiction|].
    apply c_str_head in Hs. rewrite Nat.add_1_r. apply Hs. }
  rewrite Ht. cbn [bind]. rewrite Hf. reflexivity.
Qed.

(** A buffer whose string breaks off right after its first [GPSD], in an
    array that ends with the string: [gps_unpack] reads the element after
    the array. *)
Lemma unpack_header_at_end (buf0 : buffer) (g : session) (s : list ascii) :
  c_str buf0 0 = Done s ->
  (4 <= length s)%nat ->
  find_sub (chars "GPSD") s = Some (length s - 4)%nat ->
  length buf0 = S (length s) ->
  gps_unpack double strtod H buf0 g = Crash (ReadOutside (length buf0)).
Proof.
  intros Hs H4 Hf Hl.
  destruct (find_sub_found _ _ _ Hf) as (Hst & _ & Hnz).
  assert (Hk : c_str buf0 (length s - 4)%nat = Done (chars "GPSD")).
  { pose proof (c_str_skip buf0 0 (length s - 4) s Hs) as Hsk.
    cbn [Nat.add] in Hsk. rewrite Hsk by lia.
    f_equal. apply starts_with_all; [exact Hst|].
    rewrite length_skipn. cbn [chars list_ascii_of_string length]. lia. }
  unfold gps_unpack. rewrite Hl.
  destruct (Nat.eq_dec (length s - 4) 0) as [E|N].
  - rewrite E in Hk.
    rewrite (sentences_header_at_end _ 0 (mkState buf0 g 0 []) Hk)
      by (cbn [buf]; lia).
    cbn [bind]. do 2 f_equal. lia.
  - destruct (Hnz N) as [Hns Hft].
    rewrite (sentences_skip _ 0 (length s - 4 - 1) (mkState buf0 g 0 []) s Hs);
      [|intros ->; cbn in H4; lia|exact Hns|exact Hft].
    replace (0 + 1 + (length s - 4 - 1))%nat with (length s - 4)%nat by lia.
    rewrite (sentences_header_at_end _ _ (mkState buf0 g 0 []) Hk)
      by (cbn [buf]; lia).
    cbn [bind]. do 2 f_equal. lia.
Qed.

(** ** The mask and the hook *)

(** X12: the outcome of a call depends on the session in what is stored
    only.  On the same buffer, a call on any other session ends with the
    same fault, or returns the same mask and leaves the same buffer. *)
Theorem mask_is_a_function_of_the_buffer
    (buf0 : buffer) (g1 g2 : session) :
  (forall st1, gps_unpack double strtod H buf0 g1 = Done st1 ->
     exists st2, gps_unpack double strtod H buf0 g2 = Done st2
                 /\ changed st2 = changed st1 /\ buf st2 = buf st1)
  /\ (forall f, gps_unpack double strtod H buf0 g1 = Crash f ->
        gps_unpack double strtod H buf0 g2 = Crash f).
Proof.
  pose proof (mask_ignores_session double strtod H buf0 g1 g2) as A.
  destruct (gps_unpack double strtod H buf0 g1) as [a|f1],
    (gps_unpack double strtod H buf0 g2) as [b|f2];
    cbn [end_alike] in A; try contradiction; split;
    try discriminate.
  - intros st1 [= <-]. exists b. destruct A as [Hb Hc].
    split; [reflexivity|]. split; congruence.
  - intros f [= <-]. congruence.
Qed.

(** X20: a call that returns without a fault leaves the hook alone.  When
    [gps_unpack] has run to its end (no overlong [D] text, no satellite
    count above the arrays, no read outside the buffer, where C leaves
    the behaviour undefined), the session holds the hook it held before,
    whatever the buffer held; and on a session without a hook none has
    been called: all the call has done besides writing to the session and
    the buffer is to release strings. *)
Theorem gps_unpack_keeps_hook (buf0 : buffer) (g : session) (st : state) :
  gps_unpack double strtod H buf0 g = Done st ->
  raw_hook (gpsdata st) = raw_hook g
  /\ (raw_hook g = None -> exists freed, events st = map Free freed).
Proof.
  unfold gps_unpack.
  destruct (sentences _ _ _ _ _ _) as [st1|] eqn:E; cbn [bind];
    [|discriminate].
  apply sentences_quiet in E as [Hk [freed Hf]].
  cbn [gpsdata events app] in Hk, Hf. rewrite Hk. intros [= <-]. split.
  - destruct (raw_hook g); [|exact Hk]. exact Hk.
  - intros ->. exists freed. exact Hf.
Qed.

End Further.

(** * Properties of the rest of the library *)

Section Polling.

Variable double : Type.
Variable strtod : list ascii -> option (double * list ascii).
Variable H : gps_h.
Variable dsub : double -> double -> double.
Variable dzero : double.
Variable MODE_NOT_SEEN : Z.
Variable STATUS_NO_FIX : Z.
Variable TRACK_NOT_VALID : double.
Variable ALTITUDE_NOT_VALID : double.
Variable DEFAULT_GPSD_PORT : list ascii.

Local Abbreviation poll := (gps_poll double strtod H dsub dzero).
Local Abbreviation query := (gps_query double strtod H dsub dzero).
Local Abbreviation open :=
  (gps_open double H dzero MODE_NOT_SEEN STATUS_NO_FIX TRACK_NOT_VALID
     ALTITUDE_NOT_VALID DEFAULT_GPSD_PORT).


Lemma poke_end (l : list ascii) (x c : ascii) :
  poke (length l) c (l ++ [x]) = l ++ [c].
Proof. induction l as [|a l IH]; cbn [length poke app]; congruence. Qed.

Lemma until_nul_app (l : list ascii) :
  ~ In NUL l -> until_nul (l ++ [NUL]) = Some l.
Proof.
  induction l as [|a l IH]; intros Hn; cbn [app until_nul]; [reflexivity|].
  destruct (Ascii.eqb_spec a NUL) as [->|_]; [exfalso; apply Hn; now left|].
  rewrite IH; [reflexivity|]. intros X. apply Hn. now right.
Qed.

(** X22: a read that fills the buffer and breaks off after a header.  When
    [read] returns all the [sizeof(buf)-1] bytes it was asked for, with no
    NUL among them and the first [GPSD] in their last four, then
    [gps_unpack] starts its inner loop at [buf + sizeof(buf)] and reads
    there, past the end of the array on the stack of [gps_poll]. *)
Theorem full_read_ending_in_header_overruns
    (stack : buffer) (n : Z) (bytes : list ascii) (now1 now2 : double)
    (c : connection double) :
  n = Z.of_nat (length bytes) ->
  length stack = S (length bytes) ->
  (4 <= length bytes)%nat ->
  ~ In NUL bytes ->
  find_sub (chars "GPSD") bytes = Some (length bytes - 4)%nat ->
  poll stack n bytes now1 now2 c = Crash (ReadOutside (length stack)).
Proof.
  intros -> Hl H4 Hnul Hf. unfold gps_poll.
  destruct (Z.ltb_spec (Z.of_nat (length bytes)) 0); [lia|].
  destruct (Z.eqb_spec (Z.of_nat (length bytes)) 0); [lia|].
  cbv zeta. rewrite Nat2Z.id.
  assert (Hs : exists x, skipn (length bytes) stack = [x]).
  { pose proof (length_skipn (length bytes) stack) as L. rewrite Hl in L.
    destruct (skipn (length bytes) stack) as [|x [|y r]];
      cbn [length] in L; try lia. now exists x. }
  destruct Hs as [x ->]. rewrite poke_end.
  rewrite (unpack_header_at_end double strtod H _ (session c) bytes);
    try assumption.
  - cbn [bind]. do 2 f_equal. rewrite length_app. cbn [length]. lia.
  - unfold c_str. cbn [skipn]. now rewrite until_nul_app.
  - rewrite length_app. cbn [length]. lia.
Qed.

(** X23: a connection just opened.  [gps_open] returns a connection only
    with a descriptor that is not negative; the session has no hook and no
    device identifier.  A poll of it then calls no hook: besides writing
    to the session, all it does is release strings; and it leaves the
    descriptor and the absence of a hook as they are. *)
Theorem first_poll_calls_no_hook
    (allocated : bool)
    (netlib_connectsock : list ascii -> list ascii -> list ascii -> Z)
    (host port : option (list ascii)) (errno : option Z)
    (stack : buffer) (n : Z) (bytes : list ascii) (now1 now2 : double)
    (c c' : connection double) (ret : Z) (ev : list event) :
  open allocated netlib_connectsock host port = (Some c, errno) ->
  poll stack n bytes now1 now2 c = Done (ret, c', ev) ->
  0 <= gps_fd c
  /\ gps_id (session c) = None
  /\ gps_fd c' = gps_fd c
  /\ raw_hook (session c') = None
  /\ exists freed, ev = map Free freed.
Proof.
  unfold gps_open. destruct allocated; cbn [negb]; [|discriminate].
  cbv zeta.
  destruct (Z.ltb_spec
              (netlib_connectsock
                 match host with Some h => h | None => chars "localhost" end
                 match port with Some p => p | None => DEFAULT_GPSD_PORT end
                 (chars "tcp")) 0) as [Hneg|Hfd]; [discriminate|].
  intros [= <- _] Hpoll. cbn [gps_fd session] in *.
  split; [exact Hfd|]. split; [reflexivity|].
  revert Hpoll. unfold gps_poll.
  destruct (n <? 0);
    [intros [= <- <- <-]; repeat split; now exists []|].
  destruct (n =? 0);
    [intros [= <- <- <-]; repeat split; now exists []|].
  cbv zeta. cbn [session gps_fd].
  unfold gps_unpack.
  destruct (sentences _ _ _ _ _ _) as [st1|] eqn:E; cbn [bind];
    [|discriminate].
  apply sentences_quiet in E as [Hk [freed Hfr]].
  cbn [gpsdata events app] in Hk, Hfr.
  assert (Hk' : raw_hook (gpsdata st1) = None) by (rewrite Hk; reflexivity).
  rewrite Hk'. intros [= <- <- <-].
  split; [destruct (negb _); reflexivity|].
  split; [destruct (negb _); exact Hk'|].
  exists freed. exact Hfr.
Qed.

End Polling.

(** ** The properties above at the sample sessions *)


Lemma silent_tags_set_no_bit_witness :
  let st := mkState (poke 8 NUL (line "GPSD,C=5")) session3d 0 [] in
  changed (on_data decimal (set_cycle decimal 5) st) = changed st.
Proof.
  apply (silent_tags_set_no_bit decimal read_decimal gps_h_sample 5
           (mkState (poke 8 NUL (line "GPSD,C=5")) session3d 0 [])
           (on_data decimal (set_cycle decimal 5)
              (mkState (poke 8 NUL (line "GPSD,C=5")) session3d 0 []))
           "C"%char).
  - reflexivity.
  - cbn. intuition discriminate.
  - reflexivity.
Defined.

Lemma online_fragment_stores_nothing_witness :
  let st := mkState (poke 8 NUL (line "GPSD,X=1")) session3d 0 [] in
  switch decimal read_decimal gps_h_sample 5 st
  = Done (flag decimal (ONLINE_SET gps_h_sample) st).
Proof.
  apply (online_fragment_stores_nothing decimal read_decimal gps_h_sample 5
           (mkState (poke 8 NUL (line "GPSD,X=1")) session3d 0 [])
           (chars "=1")).
  reflexivity.
Defined.

Lemma utc_copy_bounds_witness :
  let st := mkState (poke 12 NUL (line "GPSD,D=12:30")) session3d 0 [] in
  switch decimal read_decimal gps_h_sample 5 st
  = Done (on_data decimal (set_utc decimal (chars "12:30")) st).
Proof.
  destruct (utc_copy_bounds decimal read_decimal gps_h_sample 5
              (mkState (poke 12 NUL (line "GPSD,D=12:30")) session3d 0 [])
              (chars "12:30")) as [H _].
  - reflexivity.
  - reflexivity.
  - apply H. cbn. lia.
Defined.

Lemma satellite_table_within_bounds_witness :
  let st :=
    mkState (poke 36 NUL (line "GPSD,Y=2:3 40 100 30 1:7 20 200 25 0"))
      session3d 0 [] in
  exists st',
    case_Y decimal read_decimal gps_h_sample 5 st = Done st'
    /\ satellites (gpsdata st') = 2
    /\ changed st' = Z.lor (changed st) (SATELLITE_SET gps_h_sample)
    /\ blank_from 2 (PRN (gpsdata st'))
    /\ blank_from 2 (elevation (gpsdata st'))
    /\ blank_from 2 (azimuth (gpsdata st'))
    /\ blank_from 2 (ss (gpsdata st'))
    /\ blank_from 2 (used (gpsdata st')).
Proof.
  apply (satellite_table_within_bounds decimal read_decimal gps_h_sample 5
           (mkState (poke 36 NUL (line "GPSD,Y=2:3 40 100 30 1:7 20 200 25 0"))
              session3d 0 [])
           (chars "Y=2:3 40 100 30 1:7 20 200 25 0")
           (chars "2:3 40 100 30 1:7 20 200 25 0")).
  - reflexivity.
  - reflexivity.
  - vm_compute. discriminate.
  - vm_compute. discriminate.
  - vm_compute. lia.
Defined.

Lemma no_sentence_no_change_witness :
  unpack (line "$GPGGA") session3d
  = Done (mkState (line "$GPGGA") session3d 0 []).
Proof.
  apply (no_sentence_no_change decimal read_decimal gps_h_sample
           (line "$GPGGA") session3d (chars "$GPGGA" ++ [CR])).
  - reflexivity.
  - discriminate.
  - reflexivity.
Defined.

Lemma gps_unpack_keeps_hook_witness :
  raw_hook (gpsdata unpacked_with_hook) = Some 7%nat
  /\ (Some 7%nat = None ->
      exists freed, events unpacked_with_hook = map Free freed).
Proof.
  apply (gps_unpack_keeps_hook decimal read_decimal gps_h_sample
           (line "GPSD,I=GPS9,M=3") (gps_set_raw_hook decimal session3d 7)
           unpacked_with_hook).
  reflexivity.
Defined.

Lemma case_I_sets_mode_witness :
  let st := mkState (poke 11 NUL (line "GPSD,I=GPS9")) session3d 0 [] in
  exists st',
    case_I decimal gps_h_sample 5 st = Done st'
    /\ gps_id (gpsdata st') = Some (chars "GPS9")
    /\ mode (fix_ (gpsdata st')) = 0
    /\ changed st' = MODE_SET gps_h_sample.
Proof.
  apply (case_I_sets_mode decimal gps_h_sample 5
           (mkState (poke 11 NUL (line "GPSD,I=GPS9")) session3d 0 [])
           (chars "GPS9")).
  reflexivity.
Defined.

Lemma case_Y_overruns_witness :
  case_Y decimal read_decimal gps_h_sample 5
    (mkState thirteen_satellites session3d 0 [])
  = Crash (ArrayOverrun 12).
Proof.
  eapply (case_Y_overruns decimal read_decimal gps_h_sample 5
            (mkState thirteen_satellites session3d 0 [])).
  - reflexivity.
  - reflexivity.
  - vm_compute. split; [discriminate|reflexivity].
Defined.


Lemma full_read_ending_in_header_overruns_witness :
  gps_poll decimal read_decimal gps_h_sample decimal_sub zero
    (repeat "x"%char 9) 8 (chars "M=3,GPSD") zero zero connected
  = Crash (ReadOutside 9).
Proof.
  apply (full_read_ending_in_header_overruns decimal read_decimal
           gps_h_sample decimal_sub zero (repeat "x"%char 9) 8
           (chars "M=3,GPSD") zero zero connected).
  - reflexivity.
  - reflexivity.
  - cbn. lia.
  - cbn. intuition discriminate.
  - reflexivity.
Defined.

Lemma first_poll_calls_no_hook_witness :
  0 <= gps_fd connected
  /\ gps_id (session connected) = None
  /\ gps_fd (snd (fst polled)) = gps_fd connected
  /\ raw_hook (session (snd (fst polled))) = None
  /\ exists freed, snd polled = map Free freed.
Proof.
  apply (first_poll_calls_no_hook decimal read_decimal gps_h_sample
           decimal_sub zero 0 0 (mkDecimal (-1) 0) (mkDecimal (-999) 0)
           (chars "2947") true (fun _ _ _ => 3) None None None
           stack32 16 (chars "GPSD,I=GPS9,M=3" ++ [CR]) zero zero
           connected (snd (fst polled)) (fst (fst polled)) (snd polled)).
  - reflexivity.
  - reflexivity.
Defined.

End LibgpsSpec.

(** * Properties of the track logger *)

Module GpxloggerSpec.
Import Gpxlogger.

(** ** Neighbours *)

Lemma neighbours_cons {A : Type} (a b : A) (l : list A) :
  neighbours (a :: b :: l) = (a, b) :: neighbours (b :: l).
Proof. reflexivity. Qed.

Lemma neighbours_snoc {A : Type} (l : list A) (a b : A) :
  neighbours (l ++ [a; b]) = neighbours (l ++ [a]) ++ [(a, b)].
Proof.
  induction l as [|x l IH]; [reflexivity|].
  destruct l as [|y l]; [reflexivity|].
  change ((x :: y :: l) ++ [a; b]) with (x :: y :: (l ++ [a; b])).
  change ((x :: y :: l) ++ [a]) with (x :: y :: (l ++ [a])).
  rewrite !neighbours_cons.
  change (y :: l ++ [a; b]) with ((y :: l) ++ [a; b]).
  change (y :: l ++ [a]) with ((y :: l) ++ [a]).
  rewrite IH. reflexivity.
Qed.

(** The neighbours of a reversed list are the neighbours of the list, each
    pair turned round. *)
Lemma neighbours_rev {A : Type} (P : A * A -> Prop) (l : list A) :
  Forall (fun p => P (snd p, fst p)) (neighbours l) ->
  Forall P (neighbours (rev l)).
Proof.
  induction l as [|a l IH]; [constructor|].
  destruct l as [|b l]; [constructor|].
  rewrite neighbours_cons. intros Hf.
  apply Forall_cons_iff in Hf as [Hab Hf]. specialize (IH Hf).
  change (rev (a :: b :: l)) with ((rev l ++ [b]) ++ [a]).
  rewrite <- app_assoc. change ([b] ++ [a]) with [b; a].
  rewrite neighbours_snoc. apply Forall_app. split; [exact IH|].
  constructor; [exact Hab|constructor].
Qed.

Lemma concat_rev_rev {A : Type} (l : list (list A)) :
  concat (rev (map (@rev A) l)) = rev (concat l).
Proof.
  induction l as [|c l IH]; [reflexivity|].
  cbn [map rev concat]. rewrite concat_app, IH, rev_app_distr.
  cbn [concat]. now rewrite app_nil_r.
Qed.

Lemma hd_rev {A : Type} (l : list A) (d : A) : hd d (rev l) = last l d.
Proof.
  induction l as [|a l IH]; [reflexivity|].
  cbn [rev]. destruct l as [|b l]; [reflexivity|].
  change (last (a :: b :: l) d) with (last (b :: l) d). rewrite <- IH.
  destruct (rev (b :: l)) eqn:E; [|reflexivity].
  apply (f_equal (@length A)) in E. rewrite length_rev in E. discriminate.
Qed.

Lemma last_rev {A : Type} (l : list A) (d : A) : last (rev l) d = hd d l.
Proof. rewrite <- (rev_involutive l) at 2. now rewrite hd_rev. Qed.

Section Tracks.

Variable double : Type.
Variable floor_time : double -> option Z.
Variable dlt : double -> double -> bool.
Variable dabs : double -> double.
Variable of_int : Z -> double.
Variable TIME_MAX : Z.
Variable earth_distance : double -> double -> double -> double -> double.
Variable gmtime : Z -> option tm.
Variable MODE_NO_FIX : Z.
Variable MODE_2D : Z.
Variable SIGINT : Z.

Local Abbreviation fix_t := (gps_fix_t double).
Local Abbreviation state := (logger double).
Local Abbreviation log_fix :=
  (conditionally_log_fix double floor_time dlt dabs of_int TIME_MAX
     earth_distance gmtime MODE_NO_FIX MODE_2D).
Local Abbreviation stamp := (stamp double floor_time).
Local Abbreviation point := (point double floor_time gmtime MODE_NO_FIX).
Local Abbreviation track :=
  (track double floor_time of_int gmtime MODE_NO_FIX).
Local Abbreviation header := (header double of_int).
Local Abbreviation trk_start := (trk_start double of_int).
Local Abbreviation trk_end := (trk_end double of_int).
Local Abbreviation footer := (footer double of_int).
Local Abbreviation rendered :=
  (rendered double floor_time of_int gmtime MODE_NO_FIX).
Local Abbreviation tracking :=
  (tracking double floor_time dlt dabs of_int earth_distance gmtime
     MODE_NO_FIX).
Local Abbreviation jump := (jump double floor_time dlt dabs of_int).
Local Abbreviation steady := (steady double floor_time dlt dabs of_int).
Local Abbreviation apart := (apart double floor_time dlt dabs of_int).
Local Abbreviation far := (far double dlt earth_distance).

Lemma tracks_of_cons (c : list fix_t) (h : history double) :
  tracks_of double (c :: h) = tracks_of double h ++ [rev c].
Proof. reflexivity. Qed.

(** With a track open, closing it completes the tracks of the file. *)
Lemma rendered_closed (c : list fix_t) (h : history double) :
  rendered (c :: h) ++ trk_end = flat_map track (tracks_of double (c :: h)).
Proof.
  cbn [Gpxlogger.rendered]. rewrite tracks_of_cons, flat_map_app.
  cbn [flat_map]. unfold Gpxlogger.track.
  now rewrite app_nil_r, <- !app_assoc.
Qed.

Lemma rendered_more (f : fix_t) (c : list fix_t) (h : history double) :
  rendered (c :: h) ++ point f = rendered ((f :: c) :: h).
Proof.
  cbn [Gpxlogger.rendered rev]. rewrite flat_map_app. cbn [flat_map].
  now rewrite app_nil_r, <- !app_assoc.
Qed.

Lemma rendered_new (f : fix_t) (h : history double) :
  flat_map track (tracks_of double h) ++ trk_start ++ point f
  = rendered ([f] :: h).
Proof.
  cbn [Gpxlogger.rendered rev app flat_map]. now rewrite app_nil_r.
Qed.

Lemma neighbours_nonempty_head {A : Type} (P : A * A -> Prop) (a b : A)
    (l : list A) :
  P (a, b) -> Forall P (neighbours (b :: l)) ->
  Forall P (neighbours (a :: b :: l)).
Proof. intros H1 H2. rewrite neighbours_cons. now constructor. Qed.

(** Push the projections through the assignments. *)
Ltac push0 :=
  cbn [logfile intrack timeout minmove int_time old_int_time old_lat old_lon
       first device syslog stderr exited set_int_time set_intrack set_first
       set_old_int_time set_old_position negb andb orb no_history].

Ltac push :=
  cbn [logfile intrack timeout minmove int_time old_int_time old_lat old_lon
       first device syslog stderr exited set_int_time set_intrack set_first
       set_old_int_time set_old_position write print_gpx_trk_start
       print_gpx_trk_end negb andb orb no_history].

Lemma time_sub_done (a b x : Z) :
  time_sub TIME_MAX a b = Done x -> x = a - b.
Proof. unfold time_sub. destruct (_ && _); [|discriminate]. congruence. Qed.

(** A call of [print_fix] that returns has written the point. *)
Lemma print_fix_done (f : fix_t) (s s' : state) :
  print_fix double MODE_NO_FIX f (gmtime (stamp f)) s = Done s' ->
  s' = write double (point f) s.
Proof.
  unfold print_fix, Gpxlogger.point.
  destruct (gmtime (stamp f)) as [tmv|]; [|discriminate].
  destruct (_ || _); [discriminate|]. now intros [= <-].
Qed.

Lemma logfile_point (f : fix_t) (s : state) :
  logfile (write double (point f) s) = logfile s ++ point f.
Proof. reflexivity. Qed.

Lemma logfile_trk_start (s : state) :
  logfile (print_gpx_trk_start double s) = logfile s ++ trk_start.
Proof. reflexivity. Qed.

Lemma logfile_trk_end (s : state) :
  logfile (print_gpx_trk_end double s) = logfile s ++ trk_end.
Proof. reflexivity. Qed.

(** What has been appended to the file. *)
Ltac appended :=
  repeat first
    [ rewrite logfile_point | rewrite logfile_trk_start
    | rewrite logfile_trk_end | progress push0 ].

(** The point is written: what is left to show of a call. *)
Ltac written_point s' :=
  let E := fresh "E" in
  intros E; apply print_fix_done in E; subst s'.

(** A call that returns keeps the logger in agreement with a history: the
    one it had, or that one with the new point, in the open track or in a
    new one. *)
Lemma log_fix_tracking (Q : fix_t -> Prop) (t : Z) (m : double)
    (d : option string) (f : fix_t) (s s' : state) (h : history double) :
  tracking Q t m d s h ->
  (MODE_2D <= mode f -> Q f) ->
  log_fix f s = Done s' ->
  exists h', tracking Q t m d s' h'.
Proof.
  intros (Hlog & Ht & Hm & Hd & Hi & Hf & Hne & Hlast & HQ & HC1 & HC2 & HD)
    Hq.
  unfold conditionally_log_fix.
  destruct (floor_time (time f)) as [z|] eqn:Ez; [|discriminate].
  assert (Hz : stamp f = z) by (unfold Gpxlogger.stamp; now rewrite Ez).
  subst z. clear Ez. cbv zeta. push0.
  assert (Skip : tracking Q t m d (set_int_time double (stamp f) s) h).
  { unfold Gpxlogger.tracking. push0.
    repeat split; try assumption; apply (Hlast _ _ _ H); assumption. }
  destruct (Z.eqb_spec (stamp f) (old_int_time s)) as [E|N];
    [intros [= <-]; exists h; exact Skip|].
  destruct (Z.ltb_spec (mode f) MODE_2D) as [Hmode|Hmode];
    [intros [= <-]; exists h; exact Skip|].
  push0. specialize (Hq Hmode).
  rewrite Hf, Ht, Hm.
  destruct h as [|[|g c] older].
  - (* nothing logged so far: the first track starts *)
    push0. rewrite !andb_false_r.
    destruct (time_sub TIME_MAX (stamp f) (old_int_time s)) as [df|];
      cbn [bind]; [|discriminate].
    rewrite !andb_false_r. push. rewrite Hi. push.
    rewrite Hf. push. rewrite Hm.
    destruct (dlt (of_int 0) m) eqn:Hmin; push; written_point s';
      exists [[f]]; unfold Gpxlogger.tracking;
      (split; [appended; rewrite Hlog, <- !app_assoc; f_equal;
               exact (rendered_new f [])|]);
      push; rewrite ?Hmin;
      (split; [exact Ht|]); (split; [exact Hm|]); (split; [exact Hd|]);
      (split; [reflexivity|]); (split; [reflexivity|]);
      (split; [repeat constructor; discriminate|]);
      (split; [intros f0 c0 o0 [= <- <- <-]; split;
               [reflexivity|intros X; try discriminate X; split; reflexivity]|]);
      (split; [repeat constructor; exact Hq|]);
      (split; [repeat constructor|]);
      (split; [constructor|]);
      intros _; constructor.
  - (* an empty track is no track *)
    apply Forall_cons_iff in Hne as [X _]. now contradiction X.
  - (* a track is open *)
    destruct (Hlast g c older eq_refl) as [Ho Hpos]. rewrite Ho in *.
    push0. rewrite !andb_true_r.
    assert (Hfar : dlt (of_int 0) m = true ->
                   dlt (of_int 0) m
                   && dlt (earth_distance (latitude f) (longitude f)
                             (old_lat s) (old_lon s)) m = false ->
                   far m (g, f)).
    { intros Hmin Hc. rewrite Hmin in Hc. cbn [andb] in Hc.
      unfold Gpxlogger.far. cbn [fst snd].
      destruct (Hpos Hmin) as [<- <-]. exact Hc. }
    destruct (dlt (of_int 0) m
              && dlt (earth_distance (latitude f) (longitude f)
                        (old_lat s) (old_lon s)) m) eqn:Hc;
      [intros [= <-]; exists ((g :: c) :: older); exact Skip|].
    specialize (fun X => Hfar X eq_refl).
    apply Forall_cons_iff in HC1 as [HC1g HC1o].
    destruct (time_sub TIME_MAX (stamp f) (stamp g)) as [df|] eqn:Ed;
      cbn [bind]; [|discriminate].
    apply time_sub_done in Ed. subst df.
    change (dlt (of_int t) (dabs (of_int (stamp f - stamp g))))
      with (jump t g f).
    destruct (jump t g f) eqn:Hj.
    + (* a jump in time: the track ends, the next one starts *)
      push. rewrite Hf. push. rewrite Hm.
      destruct (dlt (of_int 0) m) eqn:Hmin; push; written_point s';
        exists ([f] :: (g :: c) :: older); unfold Gpxlogger.tracking;
        (split; [appended; rewrite Hlog, <- !app_assoc; f_equal;
                 rewrite app_assoc, rendered_closed; apply rendered_new|]);
        push; rewrite ?Hmin;
        (split; [exact Ht|]); (split; [exact Hm|]); (split; [exact Hd|]);
        (split; [reflexivity|]); (split; [exact Hf|]);
        (split; [constructor; [discriminate|exact Hne]|]);
        (split; [intros f0 c0 o0 [= <- <- <-]; split;
                 [reflexivity
                 |intros X; try discriminate X; split; reflexivity]|]);
        (split; [constructor; [exact Hq|exact HQ]|]);
        (split; [constructor; [exact (Forall_nil _)
                              |constructor; assumption]|]);
        (split;
         [rewrite neighbours_cons; constructor; [|exact HC2];
          intros d0; cbn [fst snd rev app hd];
          change (rev c ++ [g]) with (rev (g :: c));
          rewrite last_rev; cbn [hd]; exact Hj|]);
        intros X; try discriminate X;
        cbn [concat app]; apply neighbours_nonempty_head;
        [apply Hfar; reflexivity|apply HD; reflexivity].
    + (* the open track goes on *)
      push. rewrite Hi. push. rewrite Hm.
      apply Forall_cons_iff in Hne as [_ Hne].
      assert (HC2' : Forall (fun p => apart t (rev (snd p), rev (fst p)))
                       (neighbours ((f :: g :: c) :: older))).
      { destruct older as [|o older]; [constructor|].
        rewrite neighbours_cons in HC2 |- *.
        apply Forall_cons_iff in HC2 as [Hgo HC2].
        constructor; [|exact HC2].
        intros d0. specialize (Hgo d0). cbn [fst snd] in Hgo |- *.
        rewrite hd_rev in Hgo |- *. exact Hgo. }
      destruct (dlt (of_int 0) m) eqn:Hmin; push; written_point s';
        exists ((f :: g :: c) :: older); unfold Gpxlogger.tracking;
        (split; [appended; rewrite Hlog, <- !app_assoc; f_equal;
                 apply rendered_more|]);
        push; rewrite ?Hmin;
        (split; [exact Ht|]); (split; [exact Hm|]); (split; [exact Hd|]);
        (split; [exact Hi|]); (split; [exact Hf|]);
        (split; [constructor; [discriminate|exact Hne]|]);
        (split; [intros f0 c0 o0 [= <- <- <-]; split;
                 [reflexivity
                 |intros X; try discriminate X; split; reflexivity]|]);
        (split; [constructor; [exact Hq|exact HQ]|]);
        (split;
         [constructor; [|exact HC1o];
          apply neighbours_nonempty_head; [|exact HC1g];
          split; cbn [fst snd]; [congruence|exact Hj]|]);
        (split; [exact HC2'|]);
        intros X; try discriminate X;
        cbn [concat app]; apply neighbours_nonempty_head;
        [apply Hfar; reflexivity|apply HD; reflexivity].
Qed.

Local Abbreviation process :=
  (process double floor_time dlt dabs of_int TIME_MAX earth_distance gmtime
     MODE_NO_FIX MODE_2D).
Local Abbreviation mainloop :=
  (mainloop double floor_time dlt dabs of_int TIME_MAX earth_distance gmtime
     MODE_NO_FIX MODE_2D).
Local Abbreviation socket_mainloop :=
  (socket_mainloop double floor_time dlt dabs of_int TIME_MAX earth_distance
     gmtime MODE_NO_FIX MODE_2D).
Local Abbreviation quit_handler := (quit_handler double SIGINT).
Local Abbreviation configured := (configured double of_int).

(** [process] hands on the reports that pass its filter. *)
Lemma process_cases (g : gps_data_t double) (s : state) :
  process g s = Done s
  \/ (passed double (device s) g /\ process g s = log_fix (fix_ g) s).
Proof.
  unfold Gpxlogger.process, passed.
  destruct (String.eqb_spec (dev_path g) EmptyString) as [E|N];
    cbn [negb andb]; [right; auto|].
  destruct (device s) as [dv|]; [|right; auto].
  destruct (String.eqb_spec dv (dev_path g)) as [->|N'];
    cbn [negb]; [right; auto|left; reflexivity].
Qed.

Lemma process_passed (g : gps_data_t double) (s : state) :
  passed double (device s) g -> process g s = log_fix (fix_ g) s.
Proof.
  unfold Gpxlogger.process, passed.
  destruct (String.eqb_spec (dev_path g) EmptyString) as [E|N];
    cbn [negb andb]; [reflexivity|].
  destruct (device s) as [dv|]; [|reflexivity].
  destruct (String.eqb_spec dv (dev_path g)) as [->|N'];
    cbn [negb]; [reflexivity|].
  intros [X|[X|X]]; congruence.
Qed.

Lemma process_tracking (Q : fix_t -> Prop) (t : Z) (m : double)
    (d : option string) (g : gps_data_t double) (s s' : state)
    (h : history double) :
  tracking Q t m d s h ->
  (passed double d g -> MODE_2D <= mode (fix_ g) -> Q (fix_ g)) ->
  process g s = Done s' ->
  exists h', tracking Q t m d s' h'.
Proof.
  intros Htr Hq. destruct (process_cases g s) as [->|[Hp ->]].
  - intros [= <-]. exists h. exact Htr.
  - apply log_fix_tracking with (h := h); [exact Htr|].
    apply Hq. destruct Htr as (_ & _ & _ & <- & _). exact Hp.
Qed.

Lemma complain_tracking (Q : fix_t -> Prop) (t : Z) (m : double)
    (d : option string) (c : complaint) (s : state) (h : history double) :
  tracking Q t m d s h -> tracking Q t m d (complain double c s) h.
Proof. intros Htr. exact Htr. Qed.

Lemma mainloop_tracking (Q : fix_t -> Prop) (t : Z) (m : double)
    (d : option string) (ws : list (wakeup double)) :
  forall (s : state) (h : history double) (r : state * bool),
  tracking Q t m d s h ->
  (forall w, In w ws -> data w <> 0 -> data w <> -1 ->
     passed double d (after_read w) ->
     MODE_2D <= mode (fix_ (after_read w)) -> Q (fix_ (after_read w))) ->
  mainloop ws s = Done r ->
  exists h', tracking Q t m d (fst r) h'.
Proof.
  induction ws as [|w ws IH]; intros s h r Htr Hq; cbn [Gpxlogger.mainloop].
  - intros [= <-]. exists h. exact Htr.
  - destruct (Z.eqb_spec (data w) (-1)) as [E|N].
    + intros [= <-]. exists h. cbn [fst]. apply complain_tracking, Htr.
    + destruct (Z.eqb_spec (data w) 0) as [E0|N0]; cbn [negb].
      * apply IH with (h := h); [exact Htr|].
        intros w' Hin. apply Hq. now right.
      * destruct (process (after_read w) s) as [s1|] eqn:Ep; cbn [bind];
          [|discriminate].
        destruct (process_tracking Q t m d (after_read w) s s1 h Htr)
          as [h1 H1]; [|exact Ep|].
        { apply Hq; [now left|exact N0|exact N]. }
        apply IH with (h := h1); [exact H1|].
        intros w' Hin. apply Hq. now right.
Qed.

Lemma header_tracking (Q : fix_t -> Prop) (t : Z) (m : double)
    (d : option string) :
  tracking Q t m d (print_gpx_header double (configured t m d)) [].
Proof.
  unfold Gpxlogger.tracking.
  cbn [print_gpx_header write Gpxlogger.configured logfile timeout minmove
       device intrack first no_history negb Gpxlogger.rendered concat
       neighbours app].
  rewrite app_nil_r.
  repeat split; try constructor; try discriminate.
Qed.

Lemma neighbours_map {A B : Type} (f : A -> B) (l : list A) :
  neighbours (map f l)
  = map (fun p => (f (fst p), f (snd p))) (neighbours l).
Proof.
  induction l as [|a l IH]; [reflexivity|].
  destruct l as [|b l]; [reflexivity|].
  cbn [map]. rewrite !neighbours_cons. cbn [map fst snd].
  f_equal. exact IH.
Qed.

(** What [quit_handler] leaves in the file. *)
Lemma quit_handler_logfile (Q : fix_t -> Prop) (t : Z) (m : double)
    (d : option string) (signum : Z) (s : state) (h : history double) :
  tracking Q t m d s h ->
  logfile (quit_handler signum s)
  = header ++ flat_map track (tracks_of double h) ++ footer.
Proof.
  intros (Hlog & _ & _ & _ & Hi & _).
  unfold Gpxlogger.quit_handler, print_gpx_footer.
  assert (E : forall s1 : state,
            logfile s1 = logfile s -> intrack s1 = intrack s ->
            logfile
              (write double [Fprintf GpxClose; Fclose]
                 (if intrack s1 then print_gpx_trk_end double s1 else s1))
            = header ++ flat_map track (tracks_of double h) ++ footer).
  { intros s1 E1 E2. rewrite E2, Hi.
    destruct h as [|c older]; cbn [no_history negb write logfile];
      rewrite ?logfile_trk_end, E1, Hlog.
    - cbn [Gpxlogger.rendered tracks_of map rev flat_map app].
      now rewrite app_nil_r.
    - rewrite <- (rendered_closed c older), <- !app_assoc. reflexivity. }
  cbn [logfile]. destruct (negb (signum =? SIGINT)); apply E; reflexivity.
Qed.

(** The state in which a signal finds the logger: [main] has read its
    options and written the header, and [socket_mainloop] has taken the
    wakeups [ws] without a fault.  The signal arrives between two turns of
    the loop, in [select], or when the loop has been left, not while a
    turn is writing to the file.  The file is then the header, the tracks
    and the footer, and the tracks are as follows. *)
Lemma file_after_signal (t : Z) (m : double) (d : option string)
    (ws : list (wakeup double)) (signum : Z) (s : state) (r : option Z) :
  socket_mainloop 0 ws (print_gpx_header double (configured t m d))
  = Done (s, r) ->
  exists tracks,
    logfile (quit_handler signum s)
    = header ++ flat_map track tracks ++ footer
    /\ Forall (fun tr => tr <> []) tracks
    /\ Forall (fun f => MODE_2D <= mode f
                        /\ exists w, In w ws /\ data w <> 0
                                     /\ passed double d (after_read w)
                                     /\ f = fix_ (after_read w))
         (concat tracks)
    /\ Forall (fun tr => Forall (steady t) (neighbours tr)) tracks
    /\ Forall (apart t) (neighbours tracks)
    /\ (dlt (of_int 0) m = true ->
        Forall (far m) (neighbours (concat tracks))).
Proof.
  unfold Gpxlogger.socket_mainloop.
  change (negb (0 =? 0)) with false. cbv iota.
  set (Q := fun f : fix_t =>
              MODE_2D <= mode f
              /\ exists w, In w ws /\ data w <> 0
                           /\ passed double d (after_read w)
                           /\ f = fix_ (after_read w)).
  destruct (mainloop ws _) as [[s1 broke]|] eqn:Em; cbn [bind fst snd];
    [|discriminate].
  intros [= <- _].
  destruct (mainloop_tracking Q t m d ws
              (print_gpx_header double (configured t m d)) [] (s1, broke)
              (header_tracking Q t m d)) as [h Htr]; [|exact Em|].
  { intros w Hin H0 _ Hp Hmode. split; [exact Hmode|].
    exists w. auto. }
  cbn [fst] in Htr.
  exists (tracks_of double h).
  split; [eapply quit_handler_logfile; exact Htr|].
  destruct Htr as (_ & _ & _ & _ & _ & _ & Hne & _ & HQ & HC1 & HC2 & HD).
  unfold tracks_of. split; [|split; [|split; [|split]]].
  - apply Forall_rev, Forall_map.
    eapply Forall_impl; [|exact Hne].
    intros c Hc E. apply Hc.
    apply (f_equal (@rev fix_t)) in E. now rewrite rev_involutive in E.
  - rewrite concat_rev_rev. apply Forall_rev, HQ.
  - apply Forall_rev, Forall_map.
    eapply Forall_impl; [|exact HC1].
    intros c Hc. apply neighbours_rev, Hc.
  - apply neighbours_rev. rewrite neighbours_map. apply Forall_map.
    exact HC2.
  - intros Hmin. rewrite concat_rev_rev. apply neighbours_rev, HD, Hmin.
Qed.


(** X25: what is logged.  In the file of a run without a fault every point
    is the fix of a report that [socket_mainloop] has read and that
    [process] has passed (it names no device, or no device was asked for,
    or it names the device asked for), and its mode is [MODE_2D] at
    least. *)
Theorem logged_points_are_fixes_of_the_device
    (t : Z) (m : double) (d : option string) (ws : list (wakeup double))
    (signum : Z) (s : state) (r : option Z) :
  socket_mainloop 0 ws (print_gpx_header double (configured t m d))
  = Done (s, r) ->
  exists tracks,
    logfile (quit_handler signum s)
    = header ++ flat_map track tracks ++ footer
    /\ Forall (fun f => MODE_2D <= mode f
                        /\ exists w, In w ws /\ data w <> 0
                                     /\ passed double d (after_read w)
                                     /\ f = fix_ (after_read w))
         (concat tracks).
Proof.
  intros E.
  destruct (file_after_signal t m d ws signum s r E)
    as (tracks & El & _ & HQ & _).
  exists tracks. split; assumption.
Qed.



(** *** The loop leaves the file open *)

Lemma point_unfinished (f : fix_t) (e : stdio double) :
  In e (point f) -> e <> Fclose /\ e <> Fprintf GpxClose.
Proof.
  unfold Gpxlogger.point, fix_lines.
  destruct (gmtime (stamp f)) as [tmv|]; [|intros []].
  cbn [In].
  destruct (mode f =? MODE_NO_FIX);
    intros X; repeat (destruct X as [<-|X]; [split; discriminate|]);
    contradiction.
Qed.

Lemma track_unfinished (tr : list fix_t) (e : stdio double) :
  In e (track tr) -> e <> Fclose /\ e <> Fprintf GpxClose.
Proof.
  unfold Gpxlogger.track. rewrite !in_app_iff, in_flat_map.
  intros [X|[(f & _ & X)|X]].
  - cbn in X. repeat (destruct X as [<-|X]; [split; discriminate|]).
    contradiction.
  - eapply point_unfinished; exact X.
  - cbn in X. repeat (destruct X as [<-|X]; [split; discriminate|]).
    contradiction.
Qed.

Lemma rendered_unfinished (h : history double) (e : stdio double) :
  In e (header ++ rendered h) -> e <> Fclose /\ e <> Fprintf GpxClose.
Proof.
  rewrite in_app_iff. intros [X|X].
  - cbn in X. repeat (destruct X as [<-|X]; [split; discriminate|]).
    contradiction.
  - destruct h as [|c older]; [contradiction|].
    cbn [Gpxlogger.rendered] in X.
    rewrite !in_app_iff, !in_flat_map in X.
    destruct X as [(tr & _ & X)|[X|(f & _ & X)]].
    + eapply track_unfinished; exact X.
    + cbn in X. repeat (destruct X as [<-|X]; [split; discriminate|]).
      contradiction.
    + eapply point_unfinished; exact X.
Qed.

Lemma mainloop_broke (ws : list (wakeup double)) :
  forall (s : state) (r : state * bool),
  mainloop ws s = Done r ->
  (snd r = true <-> exists w, In w ws /\ data w = -1).
Proof.
  induction ws as [|w ws IH]; intros s r; cbn [Gpxlogger.mainloop].
  - intros [= <-]. cbn [snd]. split; [discriminate|]. intros (w & [] & _).
  - destruct (Z.eqb_spec (data w) (-1)) as [E|N].
    + intros [= <-]. cbn [snd]. split; [|reflexivity].
      intros _. exists w. split; auto. now left.
    + assert (R : (exists w', In w' (w :: ws) /\ data w' = -1)
                  <-> exists w', In w' ws /\ data w' = -1).
      { split; intros (w' & Hin & Hw).
        - destruct Hin as [<-|Hin]; [contradiction|]. exists w'. auto.
        - exists w'. split; [now right|exact Hw]. }
      rewrite R. destruct (negb (data w =? 0)); [|apply IH].
      destruct (process _ _) as [s1|]; cbn [bind]; [apply IH|discriminate].
Qed.

(** X28: [socket_mainloop] never finishes the file.  Whatever [gps_open]
    and [select] return, a call that ends without a fault has written no
    footer and has not closed the file; it returns (and [main] with it,
    with 0) exactly when [select] has returned -1, and the file is then
    left as it is, a track perhaps still open.  Only a signal writes the
    footer. *)
Theorem mainloop_leaves_the_file_unfinished
    (t : Z) (m : double) (d : option string) (ws : list (wakeup double))
    (opened : Z) (s : state) (r : option Z) :
  socket_mainloop opened ws (print_gpx_header double (configured t m d))
  = Done (s, r) ->
  ~ In Fclose (logfile s)
  /\ ~ In (Fprintf GpxClose) (logfile s)
  /\ (r = Some 0 <-> opened = 0 /\ exists w, In w ws /\ data w = -1).
Proof.
  unfold Gpxlogger.socket_mainloop.
  assert (U : forall s0 : state,
            (exists h, tracking (fun _ => True) t m d s0 h) ->
            ~ In Fclose (logfile s0)
            /\ ~ In (Fprintf GpxClose) (logfile s0)).
  { intros s0 [h (E & _)]. rewrite E.
    split; intros X; apply rendered_unfinished in X as [X1 X2];
      congruence. }
  destruct (Z.eqb_spec opened 0) as [->|N]; cbn [negb].
  - destruct (mainloop ws _) as [[s1 broke]|] eqn:Em; cbn [bind fst snd];
      [|discriminate].
    intros [= <- <-].
    destruct (mainloop_tracking (fun _ => True) t m d ws
                (print_gpx_header double (configured t m d)) [] (s1, broke)
                (header_tracking _ t m d)) as [h Htr]; [auto|exact Em|].
    pose proof (mainloop_broke ws _ _ Em) as B. cbn [fst snd] in *.
    destruct (U s1 (ex_intro _ h Htr)) as [U1 U2].
    split; [exact U1|]. split; [exact U2|].
    destruct broke.
    + split; [intros _; split; [reflexivity|now apply B]|reflexivity].
    + split; [discriminate|]. intros [_ X]. apply B in X. discriminate.
  - intros [= <- <-].
    destruct (U (print_gpx_header double (configured t m d))
                (ex_intro _ [] (header_tracking _ t m d))) as [U1 U2].
    split; [exact U1|]. split; [exact U2|].
    split; [discriminate|]. intros [X _]. contradiction.
Qed.

(** *** A time that [gmtime] does not convert *)

(** X29: a report can kill the logger.  When the first report that comes
    with data to read is one to be logged (passed by [process], mode
    [MODE_2D] at least, a second other than 0 that is a [time_t]) and has
    a time that [gmtime] cannot convert, [print_fix] reads through the
    null pointer: [conditionally_log_fix] hands over what [gmtime] returns
    and nothing tests it. *)
Theorem unconvertible_time_kills_the_logger
    (t : Z) (m : double) (d : option string) (w : wakeup double)
    (ws : list (wakeup double)) (z : Z) :
  data w <> 0 -> data w <> -1 ->
  passed double d (after_read w) ->
  MODE_2D <= mode (fix_ (after_read w)) ->
  floor_time (time (fix_ (after_read w))) = Some z ->
  z <> 0 ->
  - TIME_MAX - 1 <= z <= TIME_MAX ->
  gmtime z = None ->
  socket_mainloop 0 (w :: ws) (print_gpx_header double (configured t m d))
  = Crash NullDereference.
Proof.
  intros H0 H1 Hp Hmode Hz Hnz Hr Hg.
  unfold Gpxlogger.socket_mainloop.
  change (negb (0 =? 0)) with false. cbv iota.
  cbn [Gpxlogger.mainloop].
  destruct (Z.eqb_spec (data w) (-1)) as [|_]; [contradiction|].
  destruct (Z.eqb_spec (data w) 0) as [|_]; [contradiction|]. cbn [negb].
  rewrite process_passed by exact Hp.
  unfold conditionally_log_fix. rewrite Hz.
  cbn [print_gpx_header write Gpxlogger.configured set_int_time int_time
       old_int_time first minmove timeout intrack negb andb].
  destruct (Z.eqb_spec z 0) as [|_]; [contradiction|].
  destruct (Z.ltb_spec (mode (fix_ (after_read w))) MODE_2D) as [|_]; [lia|].
  cbn [orb]. rewrite !andb_false_r.
  unfold time_sub. rewrite Z.sub_0_r.
  destruct (Z.leb_spec (- TIME_MAX - 1) z); [|lia].
  destruct (Z.leb_spec z TIME_MAX); [|lia].
  cbn [andb bind]. rewrite !andb_false_r.
  cbn [print_gpx_trk_start write set_intrack set_first set_old_int_time
       set_old_position int_time intrack first minmove negb].
  assert (E : forall s1 s2 : state,
            int_time s1 = z -> int_time s2 = z ->
            print_fix double MODE_NO_FIX (fix_ (after_read w))
              (gmtime
                 (int_time
                    (if dlt (of_int 0) m then s1 else s2)))
              (if dlt (of_int 0) m then s1 else s2)
            = Crash NullDereference).
  { intros s1 s2 E1 E2. destruct (dlt (of_int 0) m);
      rewrite ?E1, ?E2, Hg; reflexivity. }
  rewrite E; reflexivity.
Qed.

End Tracks.

(** ** The properties above at the sample run *)


Lemma logged_points_are_fixes_of_the_device_witness :
  exists tracks,
    logfile (quit_handler Z 2 15 (fst sample_end))
    = header Z whole ++ flat_map sample_track tracks ++ footer Z whole
    /\ Forall (fun f => 2 <= mode f
                        /\ exists w, In w sample_wakeups /\ data w <> 0
                                     /\ passed Z None (after_read w)
                                     /\ f = fix_ (after_read w))
         (concat tracks).
Proof.
  apply (logged_points_are_fixes_of_the_device Z whole_floor Z.ltb Z.abs
           whole (2 ^ 63 - 1) taxicab gmtime_1970 1 2 2 5 3 None
           sample_wakeups 15 (fst sample_end) (snd sample_end)).
  reflexivity.
Defined.



Lemma mainloop_leaves_the_file_unfinished_witness :
  ~ In Fclose (logfile (fst sample_broken))
  /\ ~ In (Fprintf GpxClose) (logfile (fst sample_broken))
  /\ (snd sample_broken = Some 0 <->
      0 = 0
      /\ exists w,
           In w [report 10 0 0;
                 mkWakeup (-1) (mkData EmptyString (mkFix 0 0 0 0 0))]
           /\ data w = -1).
Proof.
  apply (mainloop_leaves_the_file_unfinished Z whole_floor Z.ltb Z.abs whole
           (2 ^ 63 - 1) taxicab gmtime_1970 1 2 5 3 None).
  reflexivity.
Defined.

Lemma unconvertible_time_kills_the_logger_witness :
  sample_loop 0 (report 86400 0 0 :: sample_wakeups) sample_start
  = Crash NullDereference.
Proof.
  apply (unconvertible_time_kills_the_logger Z whole_floor Z.ltb Z.abs whole
           (2 ^ 63 - 1) taxicab gmtime_1970 1 2 5 3 None (report 86400 0 0)
           sample_wakeups 86400).
  - discriminate.
  - discriminate.
  - left. reflexivity.
  - cbn. lia.
  - reflexivity.
  - discriminate.
  - lia.
  - reflexivity.
Defined.

End GpxloggerSpec.
